(** * Event resolution engine of the bet linker ([src/matcher.js])

    A shallow embedding of the lexical scorer ([findMatchingEventSimple]),
    of the name normalisation ([normalizePlayerName]), of the escalation
    resolver wrapper ([findMatchingEventLLM]) and of the resolution policy
    ([findMatchingEventWithDebug]), followed by the properties of the
    specification that concern them.

    - JavaScript strings are sequences of UTF-16 code units: [list N].
    - JavaScript numbers are IEEE 754 binary64 values: the primitive
      [float] of the kernel, whose operations round as the engine's do.
    - [null] and [undefined] are [None] of an [option].
    - The asynchronous call to the remote model is threaded through a
      small monad that reads the remote end's answer and logs every
      request that was sent. *)

From Stdlib Require Import List Bool NArith ZArith Lia Floats String Ascii.
From Stdlib Require Import Sorted Permutation.
Import ListNotations.

#[local] Set Warnings "-inexact-float".

(** ** Strings *)

Module JsString.
#[local] Open Scope N_scope.

Definition jsstring := list N.

(** An ASCII literal as a JavaScript string. *)
Definition lit (s : string) : jsstring :=
  map N_of_ascii (list_ascii_of_string s).

(** [a === b] on strings. *)
Fixpoint str_eqb (a b : jsstring) : bool :=
  match a, b with
  | [], [] => true
  | c :: a', d :: b' => N.eqb c d && str_eqb a' b'
  | _, _ => false
  end.

(** [s.startsWith(sub)] *)
Fixpoint startsWith (s sub : jsstring) : bool :=
  match sub, s with
  | [], _ => true
  | c :: sub', d :: s' => N.eqb c d && startsWith s' sub'
  | _ :: _, [] => false
  end.

(** [s.includes(sub)] *)
Fixpoint includes (s sub : jsstring) : bool :=
  startsWith s sub ||
  match s with
  | [] => false
  | _ :: s' => includes s' sub
  end.

(** [s.split(' ')]: never empty, [''.split(' ')] is [['']]. *)
Fixpoint split_space (s : jsstring) : list jsstring :=
  match s with
  | [] => [[]]
  | c :: s' =>
      if N.eqb c 32 then [] :: split_space s'
      else match split_space s' with
           | [] => [[c]]
           | t :: ts => (c :: t) :: ts
           end
  end.

(** The class [\s] of a regular expression without the [u] flag, which is
    also the set of code units removed by [trim]. *)
Definition isSpace (c : N) : bool :=
  ((9 <=? c) && (c <=? 13)) || (c =? 32) || (c =? 160) || (c =? 5760)
  || ((8192 <=? c) && (c <=? 8202)) || (c =? 8232) || (c =? 8233)
  || (c =? 8239) || (c =? 8287) || (c =? 12288) || (c =? 65279).

(** The class [[\u0300-\u036f]]: combining diacritical marks. *)
Definition isCombiningMark (c : N) : bool := (768 <=? c) && (c <=? 879).

(** The class [[a-z0-9]]. *)
Definition isLowerAlnum (c : N) : bool :=
  ((97 <=? c) && (c <=? 122)) || ((48 <=? c) && (c <=? 57)).

(** [s.replace(/\s+/g, ' ')]: [inRun] tells that the previous code unit
    belonged to the run of white space being replaced. *)
Fixpoint collapseWs (inRun : bool) (s : jsstring) : jsstring :=
  match s with
  | [] => []
  | c :: rest =>
      if isSpace c
      then if inRun then collapseWs true rest else 32 :: collapseWs true rest
      else c :: collapseWs false rest
  end.

Fixpoint trimStart (s : jsstring) : jsstring :=
  match s with
  | [] => []
  | c :: rest => if isSpace c then trimStart rest else s
  end.

Fixpoint trimEnd (s : jsstring) : jsstring :=
  match s with
  | [] => []
  | c :: rest =>
      match trimEnd rest with
      | [] => if isSpace c then [] else [c]
      | t => c :: t
      end
  end.

(** [s.trim()] *)
Definition trim (s : jsstring) : jsstring := trimEnd (trimStart s).

End JsString.
Import JsString.

(** ** The engine's Unicode tables, on Basic Latin and Latin-1

    [toLowerCase] and [normalize('NFD')] are built into the engine.  The
    embedding takes them as parameters; the tables below are their
    restriction to the code units U+0000..U+00FF, every other code unit
    being left as it is, and serve to run the embedding on real names. *)

Module Latin1.
#[local] Open Scope N_scope.

Definition lowerUnit (c : N) : N :=
  if ((65 <=? c) && (c <=? 90))
     || ((192 <=? c) && (c <=? 222) && negb (c =? 215))
  then c + 32 else c.

Definition toLowerCase (s : jsstring) : jsstring := map lowerUnit s.

(** Canonical decomposition of the capital letter at U+00C0 + [k]:
    offset of the base letter from [A] and the combining mark. *)
Definition capitalParts (k : N) : option (N * N) :=
  match k with
  | 0 => Some (0, 768) | 1 => Some (0, 769) | 2 => Some (0, 770)
  | 3 => Some (0, 771) | 4 => Some (0, 776) | 5 => Some (0, 778)
  | 7 => Some (2, 807)
  | 8 => Some (4, 768) | 9 => Some (4, 769) | 10 => Some (4, 770)
  | 11 => Some (4, 776)
  | 12 => Some (8, 768) | 13 => Some (8, 769) | 14 => Some (8, 770)
  | 15 => Some (8, 776)
  | 17 => Some (13, 771)
  | 18 => Some (14, 768) | 19 => Some (14, 769) | 20 => Some (14, 770)
  | 21 => Some (14, 771) | 22 => Some (14, 776)
  | 25 => Some (20, 768) | 26 => Some (20, 769) | 27 => Some (20, 770)
  | 28 => Some (20, 776)
  | 29 => Some (24, 769)
  | _ => None
  end.

Definition decomposeUnit (c : N) : jsstring :=
  if (192 <=? c) && (c <=? 222) then
    match capitalParts (c - 192) with
    | Some (b, m) => [65 + b; m]
    | None => [c]
    end
  else if (224 <=? c) && (c <=? 254) then
    match capitalParts (c - 224) with
    | Some (b, m) => [97 + b; m]
    | None => [c]
    end
  else if c =? 255 then [121; 776]
  else [c].

Definition normalizeNFD (s : jsstring) : jsstring := flat_map decomposeUnit s.

End Latin1.

(** ** Numbers *)

Module JsNumber.
#[local] Open Scope float_scope.

(** [Math.min(x, y)]: NaN if either argument is, and [-0] below [+0]. *)
Definition Math_min (x y : float) : float :=
  if is_nan x || is_nan y then nan
  else if x <? y then x
  else if y <? x then y
  else if get_sign x then x else y.

End JsNumber.
Import JsNumber.

(** ** Data model *)

(** [Boolean(v)] for a value that is a string, [null] or [undefined]. *)
Definition truthy (v : option jsstring) : bool :=
  match v with
  | Some (_ :: _) => true
  | _ => false
  end.

(** [values.filter(Boolean)] *)
Fixpoint filterBoolean (values : list (option jsstring)) : list jsstring :=
  match values with
  | [] => []
  | Some (c :: s) :: rest => (c :: s) :: filterBoolean rest
  | _ :: rest => filterBoolean rest
  end.

(** [a || b] on such values. *)
Definition orElse (a b : option jsstring) : option jsstring :=
  if truthy a then a else b.

(** An event of the provider feed, as [bovada.js] builds it. *)
Module Event.
Record t := {
  id : jsstring;
  sport : option jsstring;
  league : option jsstring;
  description : option jsstring;
  displayName : option jsstring;
  participant1 : option jsstring;
  participant2 : option jsstring;
  startTime : option jsstring
}.
End Event.

(** The parsed pick; an absent [players] array is the empty list, the
    two being told apart nowhere ([!players || players.length === 0]). *)
Record ParsedPick := {
  players : list jsstring;
  sport : option jsstring;
  league : option jsstring
}.

Module Candidate.
Record t := { event : Event.t; score : float }.
End Candidate.

(** The object returned by [findMatchingEventSimple]. *)
Module SimpleResult.
Record t := {
  event : option Event.t;
  confidence : float;
  allCandidates : list Candidate.t
}.
End SimpleResult.

(** The object returned by [findMatchingEventWithDebug]. *)
Module MatchResult.
Record t := {
  event : option Event.t;
  confidence : float;
  candidates : list Candidate.t
}.
End MatchResult.

(** ** The remote model and its answers *)

(** A number used as an array index: NaN, an integer, or a number that
    lies strictly between [z] and [z + 1]. *)
Inductive JsNum :=
| NaN
| Int (z : Z)
| Between (z : Z).

(** The [matchIndex] property of the parsed answer: absent, [null], a
    number, or a value of another JSON type (string, boolean, array,
    object), of which the policy sees what [ToNumber] makes of it and
    the array index that its property key names, if it names one. *)
Inductive MatchIndex :=
| IdxUndefined
| IdxNull
| IdxNum (n : JsNum)
| IdxOther (n : JsNum) (key : option nat).

(** The object the prompt asks for. *)
Record LLMResult := {
  matchIndex : MatchIndex;
  llmConfidence : float;
  reasoning : jsstring
}.

(** What [JSON.parse(content.text.trim())] does. *)
Inductive JSONParse :=
| SyntaxError
| ParsedNull
| Parsed (result : LLMResult).

(** A block of [response.content], a text block carrying what its text
    parses to. *)
Inductive ContentBlock :=
| TextBlock (text : JSONParse)
| OtherBlock.

(** The promise returned by [client.messages.create]. *)
Inductive ApiOutcome :=
| Rejected
| Resolved (content : list ContentBlock).

Module Summary.
Record t := {
  index : nat;
  sport : option jsstring;
  league : option jsstring;
  description : option jsstring;
  participant1 : option jsstring;
  participant2 : option jsstring;
  startTime : option jsstring
}.
End Summary.

Record LLMRequest := {
  req_apiKey : jsstring;
  req_pick : ParsedPick;
  req_events : list Summary.t
}.

(** ** Asynchronous functions

    A computation reads the remote end, receives the log of the requests
    sent so far and returns its value with the extended log. *)

Module Async.

Definition Remote := LLMRequest -> ApiOutcome.

Definition t (A : Type) : Type :=
  Remote -> list LLMRequest -> A * list LLMRequest.

Definition ret {A} (a : A) : t A := fun _ log => (a, log).

Definition bind {A B} (c : t A) (k : A -> t B) : t B :=
  fun remote log => let (a, log') := c remote log in k a remote log'.

(** [await client.messages.create(request)] *)
Definition messages_create (request : LLMRequest) : t ApiOutcome :=
  fun remote log => (remote request, log ++ [request]).

End Async.

Notation "x <- c ;; k" := (Async.bind c (fun x => k))
  (at level 61, c at next level, right associativity).

(** The body of a [try] block either completes or throws. *)
Inductive Completion (A : Type) :=
| Normal (a : A)
| Throw.
Arguments Normal {A} a.
Arguments Throw {A}.

(** [try { body } catch (error) { return handler }] *)
Definition try_catch {A} (body : Completion A) (handler : A) : A :=
  match body with
  | Normal a => a
  | Throw => handler
  end.

(** ** The matcher *)

Section Matcher.

#[local] Open Scope float_scope.

(** [String.prototype.toLowerCase] and [String.prototype.normalize('NFD')]
    of the engine. *)
Variable toLowerCase : jsstring -> jsstring.
Variable normalizeNFD : jsstring -> jsstring.

Definition normalizePlayerName (name : jsstring) : jsstring :=
  trim
    (collapseWs false
       (filter (fun c => isLowerAlnum c || isSpace c)
          (filter (fun c => negb (isCombiningMark c))
             (normalizeNFD (toLowerCase name))))).

(** [[p1, p2, description, displayName].filter(Boolean).map(normalize)] *)
Definition participantsOf (event : Event.t) : list jsstring :=
  map normalizePlayerName
    (filterBoolean
       [Event.participant1 event; Event.participant2 event;
        Event.description event; Event.displayName event]).

(** [participantParts.some(pp => pp === part || pp.includes(part))] *)
Definition somePart (participantParts : list jsstring) (part : jsstring) : bool :=
  existsb (fun pp => str_eqb pp part || includes pp part) participantParts.

(** The loop over [playerParts]: the first part that matches adds 0.4,
    sets [playerMatched] and leaves the loop. *)
Fixpoint matchParts (playerParts participantParts : list jsstring)
    (score : float) : float * bool :=
  match playerParts with
  | [] => (score, false)
  | part :: rest =>
      if Nat.ltb 2 (List.length part) && somePart participantParts part
      then (score + 0.4, true)
      else matchParts rest participantParts score
  end.

(** The loop over [participants], entered with the current [score] and
    [playerMatched]. *)
Fixpoint matchParticipants (normalizedPlayer : jsstring)
    (participants : list jsstring) (score : float) (playerMatched : bool)
    : float * bool :=
  match participants with
  | [] => (score, playerMatched)
  | participant :: rest =>
      if playerMatched then (score, playerMatched)
      else if str_eqb participant normalizedPlayer
      then (score + 0.7, true)
      else if includes participant normalizedPlayer
              && Nat.leb 3 (List.length normalizedPlayer)
      then (score + 0.6, true)
      else if includes normalizedPlayer participant
              && Nat.leb 3 (List.length participant)
      then (score + 0.5, true)
      else
        let (score', playerMatched') :=
          matchParts (split_space normalizedPlayer) (split_space participant)
            score in
        matchParticipants normalizedPlayer rest score' playerMatched'
  end.

(** The loop over [players]. *)
Definition matchPlayers (players : list jsstring) (event : Event.t)
    (score : float) : float :=
  fold_left
    (fun score playerName =>
       fst (matchParticipants (normalizePlayerName playerName)
              (participantsOf event) score false))
    players score.

Definition sportBonus (sport : option jsstring) (event : Event.t)
    (score : float) : float :=
  match sport, Event.sport event with
  | Some (c :: s), Some (d :: es) =>
      if str_eqb (toLowerCase (d :: es)) (toLowerCase (c :: s))
      then score + 0.2 else score
  | _, _ => score
  end.

Definition leagueBonus (league : option jsstring) (event : Event.t)
    (score : float) : float :=
  match league, Event.league event with
  | Some (c :: l), Some (d :: el) =>
      if includes (toLowerCase (d :: el)) (toLowerCase (c :: l))
      then score + 0.1 else score
  | _, _ => score
  end.

(** The value of [score] at the end of one iteration of the loop over
    [events]. *)
Definition scoreEvent (parsedPick : ParsedPick) (event : Event.t) : float :=
  let score := 0 in
  let score := sportBonus (sport parsedPick) event score in
  let score := leagueBonus (league parsedPick) event score in
  matchPlayers (players parsedPick) event score.

(** The variables of the loop over [events]. *)
Record Scan := {
  bestMatch : option Event.t;
  bestScore : float;
  allCandidates : list Candidate.t
}.

Definition scanEvent (parsedPick : ParsedPick) (st : Scan) (event : Event.t)
    : Scan :=
  let score := scoreEvent parsedPick event in
  let allCandidates :=
    if 0 <? score
    then allCandidates st ++ [{| Candidate.event := event; Candidate.score := score |}]
    else allCandidates st in
  if bestScore st <? score
  then {| bestMatch := Some event; bestScore := score;
          allCandidates := allCandidates |}
  else {| bestMatch := bestMatch st; bestScore := bestScore st;
          allCandidates := allCandidates |}.

Definition scanEvents (parsedPick : ParsedPick) (events : list Event.t) : Scan :=
  fold_left (scanEvent parsedPick) events
    {| bestMatch := None; bestScore := 0; allCandidates := [] |}.

(** [(a, b) => b.score - a.score].  [sort] looks at the sign of the
    difference only: it is positive when [a.score < b.score], negative
    when [b.score < a.score], and zero or NaN (which [sort] reads as
    zero) otherwise.  The comparator is represented by that sign. *)
Definition compareFn (a b : Candidate.t) : comparison :=
  if Candidate.score a <? Candidate.score b then Gt
  else if Candidate.score b <? Candidate.score a then Lt
  else Eq.

(** [Array.prototype.sort] is stable: an element moves behind another
    one only when the comparator is positive on them. *)
Fixpoint insertSorted (c : Candidate.t) (sorted : list Candidate.t)
    : list Candidate.t :=
  match sorted with
  | [] => [c]
  | d :: rest =>
      match compareFn c d with
      | Gt => d :: insertSorted c rest
      | _ => c :: sorted
      end
  end.

Definition sort (l : list Candidate.t) : list Candidate.t :=
  fold_right insertSorted [] l.

Definition findMatchingEventSimple (parsedPick : ParsedPick)
    (events : list Event.t) : option SimpleResult.t :=
  match players parsedPick with
  | [] => None
  | _ :: _ =>
      let st := scanEvents parsedPick events in
      let allCandidates := sort (allCandidates st) in
      match bestMatch st with
      | Some bestMatch =>
          Some {| SimpleResult.event := Some bestMatch;
                  SimpleResult.confidence := Math_min (bestScore st) 1.0;
                  SimpleResult.allCandidates := allCandidates |}
      | None =>
          Some {| SimpleResult.event := None;
                  SimpleResult.confidence := 0;
                  SimpleResult.allCandidates := allCandidates |}
      end
  end.

(** *** The escalation resolver *)

(** [events.slice(0, 50).map((event, index) => ({ index, ... }))] *)
Fixpoint summarize (index : nat) (events : list Event.t) : list Summary.t :=
  match events with
  | [] => []
  | event :: rest =>
      {| Summary.index := index;
         Summary.sport := Event.sport event;
         Summary.league := Event.league event;
         Summary.description :=
           orElse (Event.description event) (Event.displayName event);
         Summary.participant1 := Event.participant1 event;
         Summary.participant2 := Event.participant2 event;
         Summary.startTime := Event.startTime event |}
      :: summarize (S index) rest
  end.

(** [ToNumber] of the [matchIndex] property. *)
Definition toNumber (v : MatchIndex) : JsNum :=
  match v with
  | IdxUndefined => NaN
  | IdxNull => Int 0
  | IdxNum n => n
  | IdxOther n _ => n
  end.

(** [n >= 0] *)
Definition geZero (n : JsNum) : bool :=
  match n with
  | NaN => false
  | Int z | Between z => (0 <=? z)%Z
  end.

(** [n < length] *)
Definition ltLength (n : JsNum) (length : nat) : bool :=
  match n with
  | NaN => false
  | Int z => (z <? Z.of_nat length)%Z
  | Between z => (z + 1 <=? Z.of_nat length)%Z
  end.

(** [events[v]]: an element for an integer within the array,
    [undefined] for any other key. *)
Definition elementAt (events : list Event.t) (v : MatchIndex)
    : option Event.t :=
  match v with
  | IdxNum (Int z) => if (0 <=? z)%Z then nth_error events (Z.to_nat z) else None
  | IdxOther _ (Some i) => nth_error events i
  | _ => None
  end.

(** [v !== null && v >= 0 && v < length] *)
Definition inRange (v : MatchIndex) (length : nat) : bool :=
  match v with IdxNull => false | _ => true end
  && geZero (toNumber v)
  && ltLength (toNumber v) length.

(** The [try] block of [findMatchingEventLLM], given what the awaited
    promise settled to.  Reading [content[0].type] when there is no
    block, and reading [result.matchIndex] when the text parses to
    [null], throw a TypeError. *)
Definition interpretResponse (events : list Event.t) (response : ApiOutcome)
    : Completion (option Event.t) :=
  match response with
  | Rejected => Throw
  | Resolved [] => Throw
  | Resolved (OtherBlock :: _) => Normal None
  | Resolved (TextBlock SyntaxError :: _) => Throw
  | Resolved (TextBlock ParsedNull :: _) => Throw
  | Resolved (TextBlock (Parsed result) :: _) =>
      if inRange (matchIndex result) (List.length events)
      then Normal (elementAt events (matchIndex result))
      else Normal None
  end.

Definition findMatchingEventLLM (parsedPick : ParsedPick)
    (events : list Event.t) (apiKey : jsstring) : Async.t (option Event.t) :=
  let eventSummaries := summarize 0 (firstn 50 events) in
  response <- Async.messages_create
                {| req_apiKey := apiKey; req_pick := parsedPick;
                   req_events := eventSummaries |} ;;
  Async.ret (try_catch (interpretResponse events response) None).

(** *** The resolution policy *)

(** [{ event: simpleResult.event, confidence: simpleResult.confidence,
       candidates }] *)
Definition fromSimple (r : SimpleResult.t) (candidates : list Candidate.t)
    : MatchResult.t :=
  {| MatchResult.event := SimpleResult.event r;
     MatchResult.confidence := SimpleResult.confidence r;
     MatchResult.candidates := candidates |}.

(** The last two statements: the best simple match if it reaches 0.3,
    no match otherwise. *)
Definition fallBack (simpleResult : option SimpleResult.t)
    (candidates : list Candidate.t) : MatchResult.t :=
  match simpleResult with
  | Some r =>
      if 0.3 <=? SimpleResult.confidence r
      then fromSimple r candidates
      else {| MatchResult.event := None; MatchResult.confidence := 0;
              MatchResult.candidates := candidates |}
  | None => {| MatchResult.event := None; MatchResult.confidence := 0;
               MatchResult.candidates := candidates |}
  end.

(** From [if (apiKey)] on. *)
Definition escalate (parsedPick : ParsedPick) (events : list Event.t)
    (apiKey : option jsstring) (simpleResult : option SimpleResult.t)
    (candidates : list Candidate.t) : Async.t MatchResult.t :=
  match apiKey with
  | Some (c :: k) =>
      llmMatch <- findMatchingEventLLM parsedPick events (c :: k) ;;
      match llmMatch with
      | Some event =>
          Async.ret {| MatchResult.event := Some event;
                       MatchResult.confidence := 0.9;
                       MatchResult.candidates := candidates |}
      | None => Async.ret (fallBack simpleResult candidates)
      end
  | _ => Async.ret (fallBack simpleResult candidates)
  end.

(** An absent [events] array is the empty list ([!events ||
    events.length === 0]). *)
Definition findMatchingEventWithDebug (parsedPick : ParsedPick)
    (events : list Event.t) (apiKey : option jsstring)
    : Async.t MatchResult.t :=
  match events with
  | [] => Async.ret {| MatchResult.event := None;
                       MatchResult.confidence := 0;
                       MatchResult.candidates := [] |}
  | _ :: _ =>
      let simpleResult := findMatchingEventSimple parsedPick events in
      let candidates :=
        match simpleResult with
        | Some r => SimpleResult.allCandidates r
        | None => []
        end in
      match simpleResult with
      | Some r =>
          if (0.5 <=? SimpleResult.confidence r)
             && ((0.7 <=? SimpleResult.confidence r) || negb (truthy apiKey))
          then Async.ret (fromSimple r candidates)
          else escalate parsedPick events apiKey simpleResult candidates
      | None => escalate parsedPick events apiKey simpleResult candidates
      end
  end.

(** [result?.event || null] *)
Definition findMatchingEvent (parsedPick : ParsedPick)
    (events : list Event.t) (apiKey : option jsstring)
    : Async.t (option Event.t) :=
  result <- findMatchingEventWithDebug parsedPick events apiKey ;;
  Async.ret (MatchResult.event result).

End Matcher.

(** ** The order of binary64 numbers *)

Module FloatOrder.
#[local] Open Scope Z_scope.

(** A number other than NaN has a key, and numbers compare as their
    keys do in the lexicographic order; both zeros share a key. *)
Definition key (f : spec_float) : option (Z * Z * Z) :=
  match f with
  | S754_nan => None
  | S754_infinity true => Some (-2, 0, 0)
  | S754_finite true m e => Some (-1, - e, Z.neg m)
  | S754_zero _ => Some (0, 0, 0)
  | S754_finite false m e => Some (1, e, Z.pos m)
  | S754_infinity false => Some (2, 0, 0)
  end.

Definition keyOf (x : float) : option (Z * Z * Z) := key (Prim2SF x).

Definition lex_lt (a b : Z * Z * Z) : Prop :=
  let '(a1, a2, a3) := a in
  let '(b1, b2, b3) := b in
  a1 < b1 \/ (a1 = b1 /\ (a2 < b2 \/ (a2 = b2 /\ a3 < b3))).

Definition lex_eq (a b : Z * Z * Z) : Prop :=
  let '(a1, a2, a3) := a in
  let '(b1, b2, b3) := b in
  a1 = b1 /\ a2 = b2 /\ a3 = b3.

Definition num_lt (x y : float) : Prop :=
  match keyOf x, keyOf y with
  | Some a, Some b => lex_lt a b
  | _, _ => False
  end.

Definition num_le (x y : float) : Prop :=
  match keyOf x, keyOf y with
  | Some a, Some b => lex_lt a b \/ lex_eq a b
  | _, _ => False
  end.

Definition num_eq (x y : float) : Prop :=
  match keyOf x, keyOf y with
  | Some a, Some b => lex_eq a b
  | _, _ => False
  end.

(** Zero with the sign bit clear, a positive number or plus infinity:
    neither NaN nor negative nor [-0]. *)
Definition nonNegative (x : float) : bool :=
  match Prim2SF x with
  | S754_zero false | S754_infinity false | S754_finite false _ _ => true
  | _ => false
  end.

End FloatOrder.

(** ** The scoring procedure and the decision procedure as specified *)

Module Spec.
Section Scoring.

#[local] Open Scope float_scope.

Variable toLowerCase : jsstring -> jsstring.
Variable normalizeNFD : jsstring -> jsstring.

#[local] Abbreviation normalize := (normalizePlayerName toLowerCase normalizeNFD).

(** [s] cut at the code units that satisfy [sep]. *)
Fixpoint splitOn (sep : N -> bool) (s : jsstring) : list jsstring :=
  match s with
  | [] => [[]]
  | c :: s' =>
      if sep c then [] :: splitOn sep s'
      else match splitOn sep s' with
           | [] => [[c]]
           | t :: ts => (c :: t) :: ts
           end
  end.

(** The whitespace-delimited tokens of a string. *)
Definition tokens (s : jsstring) : list jsstring :=
  filter (fun t => match t with [] => false | _ => true end)
    (splitOn isSpace s).

(** The normalized participant pool: the non-empty values among
    participant1, participant2, description and displayName, each
    normalized on its own. *)
Definition pool (event : Event.t) : list jsstring :=
  map normalize
    (flat_map
       (fun v => match v with
                 | Some (c :: s) => [c :: s]
                 | _ => []
                 end)
       [Event.participant1 event; Event.participant2 event;
        Event.description event; Event.displayName event]).

(** A token of the player, longer than two, equals or is contained in a
    token of the participant. *)
Definition tokenMatch (player participant : jsstring) : bool :=
  existsb
    (fun tok =>
       Nat.ltb 2 (List.length tok)
       && existsb (fun ptok => str_eqb ptok tok || includes ptok tok)
            (tokens participant))
    (tokens player).

(** The bonus of the first rule that fires for a normalized player and
    one normalized participant, in the order of precedence. *)
Definition ruleBonus (player participant : jsstring) : option float :=
  if str_eqb player participant then Some 0.7
  else if Nat.leb 3 (List.length player) && includes participant player
  then Some 0.6
  else if Nat.leb 3 (List.length participant) && includes player participant
  then Some 0.5
  else if tokenMatch player participant then Some 0.4
  else None.

(** The pool is scanned in order and the first participant for which a
    rule fires decides. *)
Fixpoint firstFired (player : jsstring) (participants : list jsstring)
    : option float :=
  match participants with
  | [] => None
  | participant :: rest =>
      match ruleBonus player participant with
      | Some bonus => Some bonus
      | None => firstFired player rest
      end
  end.

(** What one entry of [pick.players] contributes: 0 if no rule fires. *)
Definition playerBonus (event : Event.t) (playerName : jsstring) : float :=
  match firstFired (normalize playerName) (pool event) with
  | Some bonus => bonus
  | None => 0
  end.

Definition isSet (v : option jsstring) : bool :=
  match v with
  | Some (_ :: _) => true
  | _ => false
  end.

Definition text (v : option jsstring) : jsstring :=
  match v with
  | Some s => s
  | None => []
  end.

(** 0.2 if [pick.sport] is set and case-insensitively equals
    [event.sport]. *)
Definition sportTerm (pick : ParsedPick) (event : Event.t) : float :=
  if isSet (sport pick)
     && str_eqb (toLowerCase (text (sport pick)))
          (toLowerCase (text (Event.sport event)))
  then 0.2 else 0.

(** 0.1 if [pick.league] is set and is a case-insensitive substring of
    [event.league]. *)
Definition leagueTerm (pick : ParsedPick) (event : Event.t) : float :=
  if isSet (league pick)
     && includes (toLowerCase (text (Event.league event)))
          (toLowerCase (text (league pick)))
  then 0.1 else 0.

(** The sum of the three kinds of terms, taken in that order. *)
Definition lexicalScore (pick : ParsedPick) (event : Event.t) : float :=
  fold_left PrimFloat.add
    (sportTerm pick event :: leagueTerm pick event
     :: map (playerBonus event) (players pick))
    0.

(** The highest score reached over the events, 0 if none is above 0. *)
Definition bestScore (pick : ParsedPick) (events : list Event.t) : float :=
  fold_left
    (fun best event =>
       if best <? lexicalScore pick event then lexicalScore pick event
       else best)
    events 0.

End Scoring.
End Spec.

(** ** The diacritic-free form of a name

    Written from the words of the specification: the form of a name
    without its diacritics.  A letter of Latin-1 that bears an accent
    (grave, acute, circumflex, tilde, diaeresis, ring, cedilla) is
    replaced by the letter that bears it; every other code unit is
    kept. *)

Module Diacritics.
#[local] Open Scope N_scope.





End Diacritics.

(** ** Notions used in the statements *)

(** A character that a normalized name may hold: [a-z], [0-9] or the
    space U+0020. *)
Definition basicUnit (c : N) : bool := isLowerAlnum c || N.eqb c 32.

(** A string made of such characters only. *)
Definition Basic (s : jsstring) : Prop :=
  Forall (fun c => basicUnit c = true) s.

(** A string that does not begin with white space. *)
Definition headNotSpace (s : jsstring) : Prop :=
  match s with
  | [] => True
  | c :: _ => isSpace c = false
  end.

(** No white space other than single U+0020 between words; [afterSpace]
    tells that the string follows a space. *)
Fixpoint tidy (afterSpace : bool) (s : jsstring) : bool :=
  match s with
  | [] => true
  | c :: rest =>
      if isSpace c then N.eqb c 32 && negb afterSpace && tidy true rest
      else tidy false rest
  end.

(** Either nothing was kept by the loop and the best score is still 0,
    or the best score is positive. *)
Definition scanInvariant (st : Scan) : Prop :=
  match bestMatch st with
  | None => bestScore st = 0%float
  | Some _ => PrimFloat.ltb 0 (bestScore st) = true
  end.

(** The candidate a scored event gives rise to. *)
Definition candidateOf (scoreOf : Event.t -> float) (event : Event.t)
    : Candidate.t :=
  {| Candidate.event := event; Candidate.score := scoreOf event |}.

(** [m] is the first element of [l] with the highest score: everything
    before it scores strictly less, nothing after it scores more. *)
Definition firstTop {A : Type} (scoreOf : A -> float) (l : list A) (m : A)
    : Prop :=
  exists pre post,
    l = pre ++ m :: post
    /\ Forall (fun a => PrimFloat.ltb (scoreOf a) (scoreOf m) = true) pre
    /\ Forall (fun a => PrimFloat.leb (scoreOf a) (scoreOf m) = true) post.

(** What the loop of the scorer has found after the events [events]. *)
Definition bestOf (scoreOf : Event.t -> float) (events : list Event.t)
    (st : Scan) : Prop :=
  match bestMatch st with
  | None =>
      bestScore st = 0%float
      /\ Forall (fun e => PrimFloat.ltb 0 (scoreOf e) = false) events
  | Some e =>
      bestScore st = scoreOf e
      /\ PrimFloat.ltb 0 (scoreOf e) = true
      /\ firstTop scoreOf events e
  end.

(** A candidate whose score is a number that is not negative. *)
Definition wellScored (c : Candidate.t) : Prop :=
  FloatOrder.nonNegative (Candidate.score c) = true.

(** [a] may stand before [b] in a list sorted by score descending. *)
Definition descending (a b : Candidate.t) : Prop :=
  PrimFloat.leb (Candidate.score b) (Candidate.score a) = true.

(** The candidates whose score is [s]. *)
Definition sameScore (s : float) (c : Candidate.t) : bool :=
  PrimFloat.eqb (Candidate.score c) s.

(** The first of the candidates that no other candidate beats. *)
Fixpoint firstMax (l : list Candidate.t) : option Candidate.t :=
  match l with
  | [] => None
  | c :: rest =>
      match firstMax rest with
      | None => Some c
      | Some m =>
          if PrimFloat.ltb (Candidate.score c) (Candidate.score m)
          then Some m else Some c
      end
  end.

(** The ways in which the remote model fails to select an event of
    [events]: a rejected promise (network, authentication, timeout), no
    content block, a block that is not text, text that is not JSON, JSON
    [null], and an answer whose [matchIndex] is absent, [null] or out of
    range. *)
Inductive ResolverFailure (events : list Event.t) : ApiOutcome -> Prop :=
| FailRejected : ResolverFailure events Rejected
| FailNoContent : ResolverFailure events (Resolved [])
| FailNotText rest : ResolverFailure events (Resolved (OtherBlock :: rest))
| FailSyntax rest :
    ResolverFailure events (Resolved (TextBlock SyntaxError :: rest))
| FailNull rest :
    ResolverFailure events (Resolved (TextBlock ParsedNull :: rest))
| FailIndex result rest :
    inRange (matchIndex result) (List.length events) = false ->
    ResolverFailure events (Resolved (TextBlock (Parsed result) :: rest)).

(** ** The mock feed of [bovada.js] and sample inputs *)

Module Mock.
#[local] Open Scope string_scope.

Definition mockEvent (id sport league description displayName p1 p2 : string)
    : Event.t :=
  {| Event.id := lit id;
     Event.sport := Some (lit sport);
     Event.league := Some (lit league);
     Event.description := Some (lit description);
     Event.displayName := Some (lit displayName);
     Event.participant1 := Some (lit p1);
     Event.participant2 := Some (lit p2);
     Event.startTime := None |}.

Definition tennis1 : Event.t :=
  mockEvent "mock-tennis-1" "tennis" "ATP Buenos Aires"
    "Daniel Elahi Galan vs Lautaro Midon" "Galan vs Midon"
    "Daniel Elahi Galan" "Lautaro Midon".

Definition tennis2 : Event.t :=
  mockEvent "mock-tennis-2" "tennis" "WTA Austin"
    "Jessica Pegula vs Rebecca Sramkova" "Pegula vs Sramkova"
    "Jessica Pegula" "Rebecca Sramkova".

Definition tennis3 : Event.t :=
  mockEvent "mock-tennis-3" "tennis" "ATP Acapulco"
    "Sebastian Korda vs Mattia Bellucci" "Korda vs Bellucci"
    "Sebastian Korda" "Mattia Bellucci".

Definition tennis4 : Event.t :=
  mockEvent "mock-tennis-4" "tennis" "Davis Cup"
    "Escobar/Hidalgo vs Hijikata/Thompson"
    "Escobar/Hidalgo vs Hijikata/Thompson"
    "G. Escobar / D. Hidalgo" "Rinky Hijikata / Jordan Thompson".

Definition nba1 : Event.t :=
  mockEvent "mock-nba-1" "basketball" "NBA"
    "Los Angeles Lakers vs Boston Celtics" "Lakers vs Celtics"
    "Los Angeles Lakers" "Boston Celtics".

Definition tennis : list Event.t := [tennis1; tennis2; tennis3; tennis4].

Definition pickOf (names : list string) (sport : option string) : ParsedPick :=
  {| players := map lit names;
     sport := option_map lit sport;
     league := None |}.

Definition galan : ParsedPick := pickOf ["Galan"] (Some "tennis").
Definition djokovic : ParsedPick := pickOf ["Djokovic"] None.
Definition tennisOnly : ParsedPick := pickOf ["Djokovic"] (Some "tennis").
Definition noPlayers : ParsedPick := pickOf [] (Some "tennis").

Definition apiKey : option jsstring := Some (lit "sk-ant-test").

(** [Jos\u00e9 Garc\u00eda], with precomposed accented letters. *)
Definition joseGarciaAccented : jsstring :=
  (lit "Jos" ++ [233%N] ++ lit " Garc" ++ [237%N] ++ lit "a")%list.

(** A remote model that answers with the given index and a confidence
    of its own. *)
Definition answering (z : Z) : Async.Remote :=
  fun _ =>
    Resolved
      [TextBlock
         (Parsed {| matchIndex := IdxNum (Int z);
                    llmConfidence := 0.4%float;
                    reasoning := lit "closest name" |})].

(** A remote model that cannot be reached. *)
Definition unreachable : Async.Remote := fun _ => Rejected.

(** Fifty-one events: the mock tennis events over and over, then the
    basketball game at index 50. *)
Definition longFeed : list Event.t :=
  (List.concat (repeat tennis 12) ++ [tennis1; tennis2; nba1])%list.

Definition run {A} (c : Async.t A) (remote : Async.Remote)
    : A * list LLMRequest :=
  c remote [].

Definition resolve := findMatchingEventWithDebug Latin1.toLowerCase Latin1.normalizeNFD.
Definition simple := findMatchingEventSimple Latin1.toLowerCase Latin1.normalizeNFD.
Definition score := scoreEvent Latin1.toLowerCase Latin1.normalizeNFD.

Definition doubles : ParsedPick := pickOf ["Escobar"; "Hidalgo"] (Some "tennis").
Definition lakers : ParsedPick := pickOf ["Lakers"] (Some "basketball").

End Mock.

(** ** Further notions: the policy without its middle threshold, and
    whether a player matches an event *)

Section PolicyVariants.

#[local] Open Scope float_scope.

Variable toLowerCase : jsstring -> jsstring.
Variable normalizeNFD : jsstring -> jsstring.

(** The decision procedure with the thresholds 0.7 and 0.3 only: the
    scorer's answer at 0.7 or more, otherwise the resolver if there is a
    key, otherwise the scorer's answer at 0.3 or more. *)
Definition resolveTwoThresholds (parsedPick : ParsedPick)
    (events : list Event.t) (apiKey : option jsstring)
    : Async.t MatchResult.t :=
  match events with
  | [] => Async.ret {| MatchResult.event := None;
                       MatchResult.confidence := 0;
                       MatchResult.candidates := [] |}
  | _ :: _ =>
      let simpleResult :=
        findMatchingEventSimple toLowerCase normalizeNFD parsedPick events in
      let candidates :=
        match simpleResult with
        | Some r => SimpleResult.allCandidates r
        | None => []
        end in
      match simpleResult with
      | Some r =>
          if 0.7 <=? SimpleResult.confidence r
          then Async.ret (fromSimple r candidates)
          else escalate parsedPick events apiKey simpleResult candidates
      | None => escalate parsedPick events apiKey simpleResult candidates
      end
  end.

(** The value of [playerMatched] when the loop over the participants of
    [event] ends for [playerName]. *)
Definition playerMatches (playerName : jsstring) (event : Event.t) : bool :=
  snd (matchParticipants (normalizePlayerName toLowerCase normalizeNFD playerName)
         (participantsOf toLowerCase normalizeNFD event) 0 false).

(** The pick with every player name replaced by its normalized form. *)
Definition normalizedPick (pick : ParsedPick) : ParsedPick :=
  {| players := map (normalizePlayerName toLowerCase normalizeNFD) (players pick);
     sport := sport pick;
     league := league pick |}.

End PolicyVariants.

(** The bonuses a player can earn. *)
Definition bonuses : list float := [0.7; 0.6; 0.5; 0.4]%float.

(** The scores an event can have when no player matches it. *)
Definition contextScores : list float := [0; 0.2; 0.1; 0.2 + 0.1]%float.

(** * The URL builder ([src/urlBuilder.js]) *)

(** ** String operations of the builder *)

Module UrlString.
#[local] Open Scope N_scope.

Definition isHyphen (c : N) : bool := c =? 45.
Definition isSlash (c : N) : bool := c =? 47.

(** The class [\d]. *)
Definition isDigit (c : N) : bool := (48 <=? c) && (c <=? 57).

(** [s.replace(/X+/g, r)] for a character class [X] and a replacement
    [r] of one code unit: [inRun] tells that the previous code unit
    belonged to the run being replaced. *)
Fixpoint replaceRuns (inClass : N -> bool) (r : N) (inRun : bool)
    (s : jsstring) : jsstring :=
  match s with
  | [] => []
  | c :: rest =>
      if inClass c
      then if inRun then replaceRuns inClass r true rest
           else r :: replaceRuns inClass r true rest
      else c :: replaceRuns inClass r false rest
  end.

(** The alternative [^-] of [s.replace(/^-|-$/g, '')]. *)
Definition dropLeadingHyphen (s : jsstring) : jsstring :=
  match s with
  | c :: rest => if isHyphen c then rest else s
  | [] => []
  end.

(** The alternative [-$], tried on what the first one left. *)
Fixpoint dropTrailingHyphen (s : jsstring) : jsstring :=
  match s with
  | [] => []
  | c :: rest =>
      match rest with
      | [] => if isHyphen c then [] else [c]
      | _ :: _ => c :: dropTrailingHyphen rest
      end
  end.

(** [parts.join(sep)] on an array of strings. *)
Fixpoint join (sep : jsstring) (parts : list jsstring) : jsstring :=
  match parts with
  | [] => []
  | p :: rest =>
      match rest with
      | [] => p
      | _ :: _ => (p ++ sep ++ join sep rest)%list
      end
  end.

(** [s.split(sep)] for a separator of one code unit. *)
Fixpoint split (sep : N) (s : jsstring) : list jsstring :=
  match s with
  | [] => [[]]
  | c :: s' =>
      if c =? sep then [] :: split sep s'
      else match split sep s' with
           | [] => [[c]]
           | t :: ts => (c :: t) :: ts
           end
  end.

(** [s.padStart(targetLength, fill)] for a filler of one code unit. *)
Definition padStart (targetLength : nat) (fill : N) (s : jsstring) : jsstring :=
  (repeat fill (targetLength - List.length s) ++ s)%list.

(** [s.endsWith(sub)] *)
Definition endsWith (s sub : jsstring) : bool :=
  startsWith (rev s) (rev sub).

(** [parts.filter(Boolean)] on an array of strings. *)
Definition nonEmpty (parts : list jsstring) : list jsstring :=
  filter (fun p => match p with [] => false | _ :: _ => true end) parts.

End UrlString.
Import UrlString.

(** ** Numbers and dates *)

(** The decimal digits of a natural number, most significant first. *)
Fixpoint uintUnits (d : Decimal.uint) : jsstring :=
  match d with
  | Decimal.Nil => []
  | Decimal.D0 d' => 48%N :: uintUnits d'
  | Decimal.D1 d' => 49%N :: uintUnits d'
  | Decimal.D2 d' => 50%N :: uintUnits d'
  | Decimal.D3 d' => 51%N :: uintUnits d'
  | Decimal.D4 d' => 52%N :: uintUnits d'
  | Decimal.D5 d' => 53%N :: uintUnits d'
  | Decimal.D6 d' => 54%N :: uintUnits d'
  | Decimal.D7 d' => 55%N :: uintUnits d'
  | Decimal.D8 d' => 56%N :: uintUnits d'
  | Decimal.D9 d' => 57%N :: uintUnits d'
  end.

(** [String(v)] for a number that is an integer or NaN ([None]). *)
Definition numberToString (v : option Z) : jsstring :=
  match v with
  | None => lit "NaN"
  | Some z =>
      match Z.to_int z with
      | Decimal.Pos d => uintUnits d
      | Decimal.Neg d => 45%N :: uintUnits d
      end
  end.

(** A [Date] object seen through its local-time getters: an invalid
    date, for which every getter returns NaN, or the fields of a time
    value in the time zone of the process. *)
Inductive JsDate :=
| InvalidDate
| LocalTime (fullYear month date hours minutes : Z).

Definition getFullYear (d : JsDate) : option Z :=
  match d with InvalidDate => None | LocalTime y _ _ _ _ => Some y end.
Definition getMonth (d : JsDate) : option Z :=
  match d with InvalidDate => None | LocalTime _ m _ _ _ => Some m end.
Definition getDate (d : JsDate) : option Z :=
  match d with InvalidDate => None | LocalTime _ _ a _ _ => Some a end.
Definition getHours (d : JsDate) : option Z :=
  match d with InvalidDate => None | LocalTime _ _ _ h _ => Some h end.
Definition getMinutes (d : JsDate) : option Z :=
  match d with InvalidDate => None | LocalTime _ _ _ _ m => Some m end.

(** The ranges of the getters of a valid date. *)
Definition fieldsInRange (d : JsDate) : bool :=
  match d with
  | InvalidDate => false
  | LocalTime _ month date hours minutes =>
      ((0 <=? month) && (month <=? 11) && (1 <=? date) && (date <=? 31)
       && (0 <=? hours) && (hours <=? 23)
       && (0 <=? minutes) && (minutes <=? 59))%Z
  end.

Definition formatTimestamp (date : JsDate) : jsstring :=
  let year := getFullYear date in
  let month :=
    padStart 2 48 (numberToString (option_map (fun m => m + 1)%Z (getMonth date))) in
  let day := padStart 2 48 (numberToString (getDate date)) in
  let hours := padStart 2 48 (numberToString (getHours date)) in
  let minutes := padStart 2 48 (numberToString (getMinutes date)) in
  (numberToString year ++ month ++ day ++ hours ++ minutes)%list.

(** ** Events as the feed delivers them *)

(** A [startTime]: an ISO string in the events of the feed, a number of
    milliseconds in the raw events of the provider. *)
Inductive TimeValue :=
| TimeString (s : jsstring)
| TimeNumber (ms : Z).

(** [Boolean(v)] for such a value, [null] or [undefined]. *)
Definition truthyTime (v : option TimeValue) : bool :=
  match v with
  | Some (TimeString (_ :: _)) => true
  | Some (TimeNumber ms) => negb (ms =? 0)%Z
  | _ => false
  end.

(** An element of the provider's [path] array. *)
Module PathPart.
Record t := {
  type : option jsstring;
  link : option jsstring;
  description : option jsstring
}.
End PathPart.

Module Competitor.
Record t := { name : option jsstring }.
End Competitor.

(** The provider's own event object, kept as [_raw].  The provider names
    the two sides in [competitors]; [participant1] and [participant2]
    are what [createEventSlug] reads from it. *)
Module RawEvent.
Record t := {
  id : jsstring;
  description : option jsstring;
  link : option jsstring;
  live : bool;
  competitors : option (list Competitor.t);
  participant1 : option jsstring;
  participant2 : option jsstring;
  startTime : option TimeValue
}.
End RawEvent.

(** An event of the feed with what [bovada.js] stores for URL building. *)
Module FeedEvent.
Record t := {
  event : Event.t;
  link : option jsstring;
  live : bool;
  _raw : option RawEvent.t;
  _path : option (list PathPart.t)
}.
End FeedEvent.

(** The properties that [createEventSlug] reads from its argument, which
    is an event of the feed or a raw event. *)
Class SlugSource (A : Type) := {
  participant1 : A -> option jsstring;
  participant2 : A -> option jsstring;
  startTime : A -> option TimeValue
}.

#[global] Instance Event_SlugSource : SlugSource Event.t := {|
  participant1 := Event.participant1;
  participant2 := Event.participant2;
  startTime := fun e => option_map TimeString (Event.startTime e)
|}.

#[global] Instance RawEvent_SlugSource : SlugSource RawEvent.t := {|
  participant1 := RawEvent.participant1;
  participant2 := RawEvent.participant2;
  startTime := RawEvent.startTime
|}.

(** The object returned by [parseBovadaUrl]. *)
Module ParsedUrl.
Record t := {
  sport : option jsstring;
  league : option jsstring;
  eventSlug : jsstring;
  timestamp : option jsstring;
  participants : list jsstring
}.
End ParsedUrl.

Definition BOVADA_BASE_URL : jsstring := lit "https://www.bovada.lv".

Section UrlBuilder.

(** [String.prototype.toLowerCase], [String.prototype.normalize('NFD')],
    [new Date(value)] read in the time zone of the process, and
    [new URL(url).pathname], which is [None] when the constructor
    throws. *)
Variable toLowerCase : jsstring -> jsstring.
Variable normalizeNFD : jsstring -> jsstring.
Variable newDate : TimeValue -> JsDate.
Variable pathnameOf : jsstring -> option jsstring.

Definition slugify (str : option jsstring) : jsstring :=
  match str with
  | Some (c :: s) =>
      dropTrailingHyphen
        (dropLeadingHyphen
           (replaceRuns isHyphen 45 false
              (replaceRuns isSpace 45 false
                 (filter (fun c => isLowerAlnum c || isSpace c || isHyphen c)
                    (filter (fun c => negb (isCombiningMark c))
                       (normalizeNFD (toLowerCase (c :: s))))))))
  | _ => []
  end.

(** The constant [participants] of [createEventSlug]. *)
Definition participantsSlug {A} `{SlugSource A} (event : A) : jsstring :=
  join (lit "-")
    (map (fun p => slugify (Some p))
       (filterBoolean [participant1 event; participant2 event])).

Definition createEventSlug {A} `{SlugSource A} (event : A) : jsstring :=
  let participants := participantsSlug event in
  let timestamp :=
    if truthyTime (startTime event)
    then match startTime event with
         | Some v => formatTimestamp (newDate v)
         | None => []
         end
    else [] in
  match timestamp with
  | _ :: _ => (participants ++ lit "-" ++ timestamp)%list
  | [] => participants
  end.

Definition constructUrl (event : Event.t) : jsstring :=
  let sport := slugify (orElse (Event.sport event) (Some (lit "sports"))) in
  let league := slugify (orElse (Event.league event) (Some (lit "events"))) in
  let eventSlug := createEventSlug event in
  (BOVADA_BASE_URL ++ lit "/sports/" ++ sport ++ lit "/" ++ league
   ++ lit "/" ++ eventSlug)%list.

Definition constructUrlFromPath (path : list PathPart.t)
    (rawEvent : RawEvent.t) : jsstring :=
  let pathParts :=
    map (fun p => if truthy (PathPart.link p)
                  then match PathPart.link p with
                       | Some l => l
                       | None => []
                       end
                  else slugify (PathPart.description p))
      path in
  let eventSlug :=
    if truthy (RawEvent.link rawEvent)
    then match RawEvent.link rawEvent with
         | Some l => l
         | None => []
         end
    else createEventSlug rawEvent in
  (BOVADA_BASE_URL ++ lit "/sports/" ++ join (lit "/") pathParts
   ++ lit "/" ++ eventSlug)%list.

Definition buildBovadaUrl (event : FeedEvent.t) : jsstring :=
  match FeedEvent.link event with
  | Some (c :: l) =>
      if startsWith (c :: l) (lit "http") then c :: l
      else (BOVADA_BASE_URL ++ c :: l)%list
  | _ =>
      match FeedEvent._raw event, FeedEvent._path event with
      | Some raw, Some path => constructUrlFromPath path raw
      | _, _ => constructUrl (FeedEvent.event event)
      end
  end.

(** [eventSlug.match(/(\d{12})$/)], the first group of the match. *)
Definition timestampMatch (eventSlug : jsstring) : option jsstring :=
  let n := List.length eventSlug in
  if Nat.leb 12 n
  then let tail := skipn (n - 12) eventSlug in
       if forallb isDigit tail then Some tail else None
  else None.

Definition parseBovadaUrl (url : jsstring) : option ParsedUrl.t :=
  match pathnameOf url with
  | None => None
  | Some pathname =>
      let pathParts := nonEmpty (split 47 pathname) in
      match pathParts with
      | [] => None
      | first :: _ =>
          if negb (str_eqb first (lit "sports")) then None
          else
            let sport := nth_error pathParts 1 in
            let league := nth_error pathParts 2 in
            let eventSlug := last pathParts [] in
            let timestamp := timestampMatch eventSlug in
            let participantsPart :=
              match timestamp with
              | Some t =>
                  firstn (List.length eventSlug - (List.length t + 1)) eventSlug
              | None => eventSlug
              end in
            Some {| ParsedUrl.sport := sport;
                    ParsedUrl.league := league;
                    ParsedUrl.eventSlug := eventSlug;
                    ParsedUrl.timestamp := timestamp;
                    ParsedUrl.participants := split 45 participantsPart |}
      end
  end.

End UrlBuilder.

(** ** Slugs *)

(** The code units of a slug: [a-z], [0-9] and the hyphen. *)
Definition slugUnit (c : N) : bool := isLowerAlnum c || isHyphen c.

(** A slug: such code units only, no hyphen at either end and no two
    hyphens in a row. *)
Definition isSlug (s : jsstring) : bool :=
  forallb slugUnit s
  && negb (startsWith s (lit "-"))
  && negb (endsWith s (lit "-"))
  && negb (includes s (lit "--")).

(** No hyphen follows a hyphen; [afterHyphen] tells that the string
    follows one. *)
Fixpoint hyphenTidy (afterHyphen : bool) (s : jsstring) : bool :=
  match s with
  | [] => true
  | c :: rest =>
      if isHyphen c then negb afterHyphen && hyphenTidy true rest
      else hyphenTidy false rest
  end.

(** A space becomes a hyphen. *)
Definition hyphenate (s : jsstring) : jsstring :=
  map (fun c => if N.eqb c 32 then 45%N else c) s.

(** A URL parser that knows the provider's origin only. *)
Module UrlMock.

Definition pathnameOf (url : jsstring) : option jsstring :=
  if startsWith url BOVADA_BASE_URL
  then match skipn (List.length BOVADA_BASE_URL) url with
       | [] => Some (lit "/")
       | 47%N :: p => Some (47%N :: p)
       | _ :: _ => None
       end
  else None.

(** 8 February 2026, 11:00, whatever the value. *)
Definition newDate (v : TimeValue) : JsDate := LocalTime 2026 1 8 11 0.

Definition slugOf := slugify Latin1.toLowerCase Latin1.normalizeNFD.

Definition galanMidon : Event.t :=
  {| Event.id := lit "mock-tennis-1";
     Event.sport := Some (lit "tennis");
     Event.league := Some (lit "ATP Buenos Aires");
     Event.description := Some (lit "Daniel Elahi Galan vs Lautaro Midon");
     Event.displayName := Some (lit "Galan vs Midon");
     Event.participant1 := Some (lit "Daniel Elahi Galan");
     Event.participant2 := Some (lit "Lautaro Midon");
     Event.startTime := Some (lit "2026-02-08T11:00:00Z") |}.

(** That event with a link of its own. *)
Definition linked (link : string) : FeedEvent.t :=
  {| FeedEvent.event := galanMidon;
     FeedEvent.link := Some (lit link);
     FeedEvent.live := false;
     FeedEvent._raw := None;
     FeedEvent._path := Some [] |}.

End UrlMock.

(** The code units of the path of a constructed URL. *)
Definition pathUnit (c : N) : bool := slugUnit c || isSlash c.

(** A string of exactly [n] decimal digits. *)
Definition digits (n : nat) (s : jsstring) : bool :=
  Nat.eqb (List.length s) n && forallb isDigit s.

(** * The event cache ([src/bovada.js]) *)

(** A [Map] with string keys: the entries in insertion order, a key
    occurring once. *)
Module JsMap.

Definition t (V : Type) : Type := list (jsstring * V).

(** [map.get(key)] *)
Fixpoint get {V} (key : jsstring) (m : t V) : option V :=
  match m with
  | [] => None
  | (k, v) :: rest => if str_eqb k key then Some v else get key rest
  end.

(** [map.set(key, value)] *)
Fixpoint set {V} (key : jsstring) (value : V) (m : t V) : t V :=
  match m with
  | [] => [(key, value)]
  | (k, v) :: rest =>
      if str_eqb k key then (k, value) :: rest
      else (k, v) :: set key value rest
  end.

End JsMap.

Definition CACHE_TTL_MS : Z := 5 * 60 * 1000.

Section EventCache.

(** The events, which the cache stores and returns as they are. *)
Variable E : Type.

(** [{ events, timestamp }] *)
Record CacheEntry := {
  cachedEvents : list E;
  cachedAt : Z
}.

(** What [fetchFromOddsAPI], [fetchFromBovadaDirect] and [getMockEvents]
    return for a sport, each an array. *)
Record Sources := {
  fromOddsAPI : option jsstring -> list E;
  fromBovadaDirect : option jsstring -> list E;
  fromMockEvents : option jsstring -> list E
}.

(** A source that was consulted, with the sport asked for. *)
Inductive SourceCall :=
| OddsAPI (sport : option jsstring)
| BovadaDirect (sport : option jsstring)
| MockData (sport : option jsstring).

(** The module's [eventCache] and the sources consulted so far. *)
Record FeedState := {
  eventCache : JsMap.t CacheEntry;
  consulted : list SourceCall
}.

(** [sport || 'all'] *)
Definition cacheKeyOf (sport : option jsstring) : jsstring :=
  match sport with
  | Some (c :: s) => c :: s
  | _ => lit "all"
  end.

(** [events.length === 0] *)
Definition isEmpty (events : list E) : bool :=
  match events with
  | [] => true
  | _ :: _ => false
  end.

(** The part of [fetchBovadaEvents] after the cache was missed: from
    the sources to the new entry, stamped with [storeTime], the value of
    [Date.now()] when it is stored. *)
Definition refreshEvents (sources : Sources) (ODDS_API_KEY : option jsstring)
    (sport : option jsstring) (storeTime : Z) (st : FeedState)
    : list E * FeedState :=
  let cacheKey := cacheKeyOf sport in
  let '(events, log) :=
    if truthy ODDS_API_KEY
    then (fromOddsAPI sources sport, consulted st ++ [OddsAPI sport])%list
    else ([], consulted st) in
  let '(events, log) :=
    if isEmpty events
    then (fromBovadaDirect sources sport, log ++ [BovadaDirect sport])%list
    else (events, log) in
  let '(events, log) :=
    if isEmpty events
    then (fromMockEvents sources sport, log ++ [MockData sport])%list
    else (events, log) in
  (events,
   {| eventCache :=
        JsMap.set cacheKey {| cachedEvents := events; cachedAt := storeTime |}
          (eventCache st);
      consulted := log |}).

(** One call, run to its end before the next one starts; [checkTime] is
    the value of [Date.now()] when the age of the entry is computed. *)
Definition fetchBovadaEvents (sources : Sources)
    (ODDS_API_KEY : option jsstring) (sport : option jsstring)
    (checkTime storeTime : Z) (st : FeedState) : list E * FeedState :=
  let cacheKey := cacheKeyOf sport in
  match JsMap.get cacheKey (eventCache st) with
  | Some cached =>
      if (checkTime - cachedAt cached <? CACHE_TTL_MS)%Z
      then (cachedEvents cached, st)
      else refreshEvents sources ODDS_API_KEY sport storeTime st
  | None => refreshEvents sources ODDS_API_KEY sport storeTime st
  end.

End EventCache.

Arguments cachedEvents {E} _.
Arguments cachedAt {E} _.
Arguments fromOddsAPI {E} _ _.
Arguments fromBovadaDirect {E} _ _.
Arguments fromMockEvents {E} _ _.
Arguments eventCache {E} _.
Arguments consulted {E} _.
Arguments isEmpty {E} _.
Arguments refreshEvents {E} _ _ _ _ _.
Arguments fetchBovadaEvents {E} _ _ _ _ _ _.

(** The sources of a development setup: no live event, and the mock
    feed. *)
Module CacheMock.

(** A mock event with its link; the start times of the mock events,
    which are taken from the clock, are left out. *)
Definition withLink (event : Event.t) (link : string) : FeedEvent.t :=
  {| FeedEvent.event := event;
     FeedEvent.link := Some (lit link);
     FeedEvent.live := false;
     FeedEvent._raw := None;
     FeedEvent._path := None |}.

Definition tennis : list FeedEvent.t :=
  [ withLink Mock.tennis1
      "/sports/tennis/atp/buenos-aires/daniel-elahi-galan-lautaro-midon-202602081100";
    withLink Mock.tennis2
      "/sports/tennis/wta/austin/jessica-pegula-rebecca-sramkova-202602241100";
    withLink Mock.tennis3
      "/sports/tennis/atp/acapulco/sebastian-korda-mattia-bellucci-202602241100";
    withLink Mock.tennis4
      "/sports/tennis/davis-cup/davis-cup/g-escobar-d-hidalgo-rinky-hijikata-jordan-thompson-202602081100" ].

Definition basketball : list FeedEvent.t :=
  [ withLink Mock.nba1
      "/sports/basketball/nba/los-angeles-lakers-boston-celtics-202602091900" ].

(** [getMockEvents]: the mock events of the sport, all mock events for
    a sport that has none or when no sport is given.  (For the sports
    [constructor] and [__proto__], which name a property that every
    object inherits, the source returns that property, which is no
    list: they are outside this mock.) *)
Definition getMockEvents (sport : option jsstring) : list FeedEvent.t :=
  match sport with
  | Some (c :: s) =>
      let key := Latin1.toLowerCase (c :: s) in
      if str_eqb key (lit "tennis") then tennis
      else if str_eqb key (lit "basketball") then basketball
      else (tennis ++ basketball)%list
  | _ => (tennis ++ basketball)%list
  end.

Definition sources : Sources FeedEvent.t :=
  {| fromOddsAPI := fun _ => [];
     fromBovadaDirect := fun _ => [];
     fromMockEvents := getMockEvents |}.

Definition start : FeedState FeedEvent.t :=
  {| eventCache := []; consulted := [] |}.

End CacheMock.

(** No entry of the cache holds an empty list. *)
Definition entriesNonEmpty {E} (st : FeedState E) : Prop :=
  Forall (fun entry => cachedEvents (snd entry) <> []) (eventCache st).

(** * The provider's feed ([src/bovada.js]) *)

(** An element of the array that the provider answers with. *)
Module Group.
Record t := {
  events : option (list RawEvent.t);
  path : option (list PathPart.t);
  description : option jsstring
}.
End Group.

(** What [response.json()] resolves to. *)
Inductive ProviderData :=
| NotAnArray
| Groups (groups : list Group.t).

(** What becomes of [fetch(url)] and of the response: the promise is
    rejected, the status is not in the range 200-299, the body is not
    JSON, or the body is read. *)
Inductive FetchOutcome :=
| FetchRejected
| NotOk
| BodyNotJson
| Body (data : ProviderData).

(** [sportPaths[key]]: a property of the object, a property that every
    object inherits, or [undefined]. *)
Inductive PathLookup :=
| OwnPath (path : jsstring)
| InheritedProperty
| NoPath.

Definition sportPaths (key : jsstring) : PathLookup :=
  if str_eqb key (lit "tennis")
  then OwnPath (lit "/services/sports/event/coupon/events/A/description/tennis")
  else if str_eqb key (lit "basketball")
  then OwnPath (lit "/services/sports/event/coupon/events/A/description/basketball")
  else if str_eqb key (lit "football")
  then OwnPath (lit "/services/sports/event/coupon/events/A/description/football")
  else if str_eqb key (lit "baseball")
  then OwnPath (lit "/services/sports/event/coupon/events/A/description/baseball")
  else if str_eqb key (lit "hockey")
  then OwnPath (lit "/services/sports/event/coupon/events/A/description/hockey")
  else if str_eqb key (lit "soccer")
  then OwnPath (lit "/services/sports/event/coupon/events/A/description/soccer")
  else if str_eqb key (lit "mma")
  then OwnPath (lit "/services/sports/event/coupon/events/A/description/ufc-mma")
  else if str_eqb key (lit "constructor") || str_eqb key (lit "__proto__")
  then InheritedProperty
  else NoPath.

(** [Object.keys(sportPaths)] *)
Definition allSports : list jsstring :=
  map lit ["tennis"; "basketball"; "football"; "baseball"; "hockey";
           "soccer"; "mma"]%string.

(** The URL that is fetched: the provider's origin followed by a path
    of [sportPaths], or the text that an inherited property makes. *)
Inductive Target :=
| SportPage (path : jsstring)
| MalformedUrl.

Definition Web := Target -> FetchOutcome.

Section Provider.

(** [String.prototype.toLowerCase], [new Date(value)] and, for a valid
    date, [Date.prototype.toISOString]. *)
Variable toLowerCase : jsstring -> jsstring.
Variable newDate : TimeValue -> JsDate.
Variable toISOString : TimeValue -> jsstring.

(** [pathInfo.find(p => p.type === type)] *)
Definition findType (type : jsstring) (pathInfo : list PathPart.t)
    : option PathPart.t :=
  find (fun p => match PathPart.type p with
                 | Some t => str_eqb t type
                 | None => false
                 end)
    pathInfo.

(** [competitors[i]?.name || ''] *)
Definition competitorName (competitors : list Competitor.t) (i : nat)
    : jsstring :=
  match nth_error competitors i with
  | Some c =>
      match Competitor.name c with
      | Some (ch :: s) => ch :: s
      | _ => []
      end
  | None => []
  end.

(** [event.startTime ? new Date(event.startTime).toISOString() : null];
    [toISOString] throws a [RangeError] on an invalid date. *)
Definition isoStartTime (v : option TimeValue) : Completion (option jsstring) :=
  if truthyTime v
  then match v with
       | Some t =>
           match newDate t with
           | InvalidDate => Throw
           | LocalTime _ _ _ _ _ => Normal (Some (toISOString t))
           end
       | None => Normal None
       end
  else Normal None.

(** [leaguePath?.description || tourPath?.description || group.description] *)
Definition leagueOf (group : Group.t) (pathInfo : list PathPart.t)
    : option jsstring :=
  let leaguePath := findType (lit "LEAGUE") pathInfo in
  let tourPath := findType (lit "TOUR") pathInfo in
  orElse (match leaguePath with
          | Some p => PathPart.description p
          | None => None
          end)
    (orElse (match tourPath with
             | Some p => PathPart.description p
             | None => None
             end)
       (Group.description group)).

(** The object pushed for [event]. *)
Definition feedEvent (sport : jsstring) (group : Group.t)
    (pathInfo : list PathPart.t) (event : RawEvent.t)
    : Completion FeedEvent.t :=
  let competitors :=
    match RawEvent.competitors event with
    | Some l => l
    | None => []
    end in
  let participant1 := competitorName competitors 0 in
  let participant2 := competitorName competitors 1 in
  match isoStartTime (RawEvent.startTime event) with
  | Throw => Throw
  | Normal startTime =>
      Normal
        {| FeedEvent.event :=
             {| Event.id := RawEvent.id event;
                Event.sport := Some sport;
                Event.league := leagueOf group pathInfo;
                Event.description := RawEvent.description event;
                Event.displayName := RawEvent.description event;
                Event.participant1 := Some participant1;
                Event.participant2 := Some participant2;
                Event.startTime := startTime |};
           FeedEvent.link := RawEvent.link event;
           FeedEvent.live := RawEvent.live event;
           FeedEvent._raw := Some event;
           FeedEvent._path := Some pathInfo |}
  end.

(** The loop over [group.events], entered with the [events] pushed so
    far. *)
Fixpoint pushEvents (sport : jsstring) (group : Group.t)
    (pathInfo : list PathPart.t) (rawEvents : list RawEvent.t)
    (events : list FeedEvent.t) : Completion (list FeedEvent.t) :=
  match rawEvents with
  | [] => Normal events
  | event :: rest =>
      match feedEvent sport group pathInfo event with
      | Throw => Throw
      | Normal e => pushEvents sport group pathInfo rest (events ++ [e])%list
      end
  end.

(** The loop over [data]. *)
Fixpoint parseGroups (sport : jsstring) (data : list Group.t)
    (events : list FeedEvent.t) : Completion (list FeedEvent.t) :=
  match data with
  | [] => Normal events
  | group :: rest =>
      match Group.events group with
      | None => parseGroups sport rest events
      | Some rawEvents =>
          let pathInfo :=
            match Group.path group with
            | Some p => p
            | None => []
            end in
          match pushEvents sport group pathInfo rawEvents events with
          | Throw => Throw
          | Normal events' => parseGroups sport rest events'
          end
      end
  end.

Definition parseBovadaResponse (data : ProviderData) (sport : jsstring)
    : Completion (list FeedEvent.t) :=
  match data with
  | NotAnArray => Normal []
  | Groups groups => parseGroups sport groups []
  end.

(** [fetchFromBovadaDirect(sport)] for a sport that is given: the
    events, and the URLs fetched so far. *)
Definition fetchSport (web : Web) (sport : jsstring) (log : list Target)
    : list FeedEvent.t * list Target :=
  match sportPaths (toLowerCase sport) with
  | NoPath => ([], log)
  | lookup =>
      let url :=
        match lookup with
        | OwnPath path => SportPage path
        | _ => MalformedUrl
        end in
      (try_catch
         (match web url with
          | FetchRejected => Throw
          | NotOk => Normal []
          | BodyNotJson => Throw
          | Body data => parseBovadaResponse data sport
          end)
         [],
       (log ++ [url])%list)
  end.

(** All sports, fetched in the order of [Object.keys(sportPaths)]. *)
Fixpoint fetchSports (web : Web) (sports : list jsstring) (log : list Target)
    : list (list FeedEvent.t) * list Target :=
  match sports with
  | [] => ([], log)
  | s :: rest =>
      let (events, log') := fetchSport web s log in
      let (results, log'') := fetchSports web rest log' in
      (events :: results, log'')
  end.

Definition fetchFromBovadaDirect (web : Web) (sport : option jsstring)
    (log : list Target) : list FeedEvent.t * list Target :=
  match sport with
  | Some (c :: s) => fetchSport web (c :: s) log
  | _ =>
      let (results, log') := fetchSports web allSports log in
      (List.concat results, log')
  end.

End Provider.

(** The raw events of the groups that have events, in the order of the
    answer. *)
Definition rawEventsOf (groups : list Group.t) : list RawEvent.t :=
  flat_map (fun g => match Group.events g with
                     | Some l => l
                     | None => []
                     end)
    groups.

(** The same raw events, each with the group that holds it. *)
Definition groupedRawEvents (groups : list Group.t)
    : list (Group.t * RawEvent.t) :=
  flat_map (fun g => match Group.events g with
                     | Some l => map (pair g) l
                     | None => []
                     end)
    groups.

(** A start time that [new Date] can read, or none. *)
Definition startTimeReadable (newDate : TimeValue -> JsDate)
    (event : RawEvent.t) : Prop :=
  truthyTime (RawEvent.startTime event) = true ->
  forall t, RawEvent.startTime event = Some t -> newDate t <> InvalidDate.

(** A web on which the provider answers the tennis page with the given
    groups and nothing else can be reached. *)
Module ProviderMock.

Definition rawEvent (id : string) (startTime : option TimeValue) : RawEvent.t :=
  {| RawEvent.id := lit id;
     RawEvent.description := Some (lit "Daniel Elahi Galan vs Lautaro Midon");
     RawEvent.link := None;
     RawEvent.live := false;
     RawEvent.competitors :=
       Some [ {| Competitor.name := Some (lit "Daniel Elahi Galan") |};
              {| Competitor.name := Some (lit "Lautaro Midon") |} ];
     RawEvent.participant1 := None;
     RawEvent.participant2 := None;
     RawEvent.startTime := startTime |}.

Definition atp : list PathPart.t :=
  [ {| PathPart.type := Some (lit "LEAGUE");
       PathPart.link := Some (lit "tennis/atp");
       PathPart.description := Some (lit "ATP") |} ].

Definition group (events : list RawEvent.t) : Group.t :=
  {| Group.events := Some events;
     Group.path := Some atp;
     Group.description := Some (lit "Buenos Aires") |}.

(** A group of another league, without a path of its own. *)
Definition wta (events : list RawEvent.t) : Group.t :=
  {| Group.events := Some events;
     Group.path := None;
     Group.description := Some (lit "WTA Austin") |}.

Definition web (groups : list Group.t) : Web :=
  fun url =>
    match url with
    | SportPage path =>
        if str_eqb path
             (lit "/services/sports/event/coupon/events/A/description/tennis")
        then Body (Groups groups)
        else FetchRejected
    | MalformedUrl => FetchRejected
    end.

(** A date is valid when the value is a number. *)
Definition newDate (v : TimeValue) : JsDate :=
  match v with
  | TimeNumber _ => LocalTime 2026 1 8 11 0
  | TimeString _ => InvalidDate
  end.

Definition toISOString (v : TimeValue) : jsstring :=
  lit "2026-02-08T11:00:00.000Z".

Definition good : RawEvent.t := rawEvent "1" (Some (TimeNumber 1770548400000)).
Definition bad : RawEvent.t := rawEvent "2" (Some (TimeString (lit "soon"))).

End ProviderMock.

(** * Properties *)

(** ** Comparisons of binary64 numbers through their keys *)

Module FloatFacts.
Import FloatOrder.
#[local] Open Scope Z_scope.

Lemma SFltb_key (f1 f2 : spec_float) :
  SFltb f1 f2 = true <->
  match key f1, key f2 with
  | Some a, Some b => lex_lt a b
  | _, _ => False
  end.
Proof.
  unfold SFltb, SFcompare.
  destruct f1 as [s1|s1| |s1 m1 e1], f2 as [s2|s2| |s2 m2 e2];
    try destruct s1; try destruct s2; cbn [key lex_lt];
    try (split; [discriminate || (intros _; lia) | tauto || (intros; lia) || reflexivity]).
  - change (Pos.compare_cont Eq m1 m2) with (Pos.compare m1 m2).
    destruct (Z.compare_spec e1 e2); destruct (Pos.compare_spec m1 m2);
      cbn; split; (discriminate || (intros _; lia) || (intros; lia) || reflexivity).
  - change (Pos.compare_cont Eq m1 m2) with (Pos.compare m1 m2).
    destruct (Z.compare_spec e1 e2); destruct (Pos.compare_spec m1 m2);
      cbn; split; (discriminate || (intros _; lia) || (intros; lia) || reflexivity).
Qed.

Lemma SFleb_key (f1 f2 : spec_float) :
  SFleb f1 f2 = true <->
  match key f1, key f2 with
  | Some a, Some b => lex_lt a b \/ lex_eq a b
  | _, _ => False
  end.
Proof.
  unfold SFleb, SFcompare.
  destruct f1 as [s1|s1| |s1 m1 e1], f2 as [s2|s2| |s2 m2 e2];
    try destruct s1; try destruct s2; cbn [key lex_lt lex_eq];
    try (split; [discriminate || (intros _; lia) | tauto || (intros; lia) || reflexivity]).
  - change (Pos.compare_cont Eq m1 m2) with (Pos.compare m1 m2).
    destruct (Z.compare_spec e1 e2); destruct (Pos.compare_spec m1 m2);
      cbn; split; (discriminate || (intros _; lia) || (intros; lia) || reflexivity).
  - change (Pos.compare_cont Eq m1 m2) with (Pos.compare m1 m2).
    destruct (Z.compare_spec e1 e2); destruct (Pos.compare_spec m1 m2);
      cbn; split; (discriminate || (intros _; lia) || (intros; lia) || reflexivity).
Qed.

Lemma SFeqb_key (f1 f2 : spec_float) :
  SFeqb f1 f2 = true <->
  match key f1, key f2 with
  | Some a, Some b => lex_eq a b
  | _, _ => False
  end.
Proof.
  unfold SFeqb, SFcompare.
  destruct f1 as [s1|s1| |s1 m1 e1], f2 as [s2|s2| |s2 m2 e2];
    try destruct s1; try destruct s2; cbn [key lex_eq];
    try (split; [discriminate || (intros _; lia) | tauto || (intros; lia) || reflexivity]).
  - change (Pos.compare_cont Eq m1 m2) with (Pos.compare m1 m2).
    destruct (Z.compare_spec e1 e2); destruct (Pos.compare_spec m1 m2);
      cbn; split; (discriminate || (intros _; lia) || (intros; lia) || reflexivity).
  - change (Pos.compare_cont Eq m1 m2) with (Pos.compare m1 m2).
    destruct (Z.compare_spec e1 e2); destruct (Pos.compare_spec m1 m2);
      cbn; split; (discriminate || (intros _; lia) || (intros; lia) || reflexivity).
Qed.

Lemma ltb_lt (x y : float) : PrimFloat.ltb x y = true <-> num_lt x y.
Proof. rewrite ltb_spec. apply SFltb_key. Qed.

Lemma leb_le (x y : float) : PrimFloat.leb x y = true <-> num_le x y.
Proof. rewrite leb_spec. apply SFleb_key. Qed.

Lemma eqb_eq (x y : float) : PrimFloat.eqb x y = true <-> num_eq x y.
Proof. rewrite FloatAxioms.eqb_spec. apply SFeqb_key. Qed.

Lemma ltb_nlt (x y : float) : PrimFloat.ltb x y = false <-> ~ num_lt x y.
Proof.
  pose proof (ltb_lt x y) as H.
  destruct (PrimFloat.ltb x y); intuition congruence.
Qed.

Lemma leb_nle (x y : float) : PrimFloat.leb x y = false <-> ~ num_le x y.
Proof.
  pose proof (leb_le x y) as H.
  destruct (PrimFloat.leb x y); intuition congruence.
Qed.

Lemma eqb_neq (x y : float) : PrimFloat.eqb x y = false <-> ~ num_eq x y.
Proof.
  pose proof (eqb_eq x y) as H.
  destruct (PrimFloat.eqb x y); intuition congruence.
Qed.


(** Hypotheses and goal on comparisons become statements on keys, the
    keys of literals are computed, and linear arithmetic concludes. *)
Ltac to_keys :=
  repeat match goal with
  | H : PrimFloat.ltb _ _ = true |- _ => apply ltb_lt in H
  | H : PrimFloat.ltb _ _ = false |- _ => apply ltb_nlt in H
  | H : PrimFloat.leb _ _ = true |- _ => apply leb_le in H
  | H : PrimFloat.leb _ _ = false |- _ => apply leb_nle in H
  | H : PrimFloat.eqb _ _ = true |- _ => apply eqb_eq in H
  | H : PrimFloat.eqb _ _ = false |- _ => apply eqb_neq in H
  | |- PrimFloat.ltb _ _ = true => apply ltb_lt
  | |- PrimFloat.ltb _ _ = false => apply ltb_nlt
  | |- PrimFloat.leb _ _ = true => apply leb_le
  | |- PrimFloat.leb _ _ = false => apply leb_nle
  | |- PrimFloat.eqb _ _ = true => apply eqb_eq
  | |- PrimFloat.eqb _ _ = false => apply eqb_neq
  end.

Lemma key_0 : keyOf 0%float = Some (0, 0, 0).
Proof. reflexivity. Qed.

Lemma key_03 : keyOf 0.3%float = Some (1, -54, 5404319552844595).
Proof. reflexivity. Qed.

Lemma key_05 : keyOf 0.5%float = Some (1, -53, 4503599627370496).
Proof. reflexivity. Qed.

Lemma key_07 : keyOf 0.7%float = Some (1, -53, 6305039478318694).
Proof. reflexivity. Qed.

Lemma key_09 : keyOf 0.9%float = Some (1, -53, 8106479329266893).
Proof. reflexivity. Qed.

Lemma key_1 : keyOf 1.0%float = Some (1, -52, 4503599627370496).
Proof. reflexivity. Qed.

Create Rewrite HintDb float_keys.
#[global] Hint Rewrite key_0 key_03 key_05 key_07 key_09 key_1 : float_keys.

Ltac literal_keys := autorewrite with float_keys in *.

Ltac split_keys :=
  repeat match goal with
  | |- context [keyOf ?x] => destruct (keyOf x) as [[[? ?] ?]|]
  | H : context [keyOf ?x] |- _ => destruct (keyOf x) as [[[? ?] ?]|]
  end.

Ltac float_order :=
  to_keys; unfold num_lt, num_le, num_eq in *; literal_keys; split_keys;
  cbn [lex_lt lex_eq] in *; try tauto; try lia.

Lemma ltb_irrefl (x : float) : PrimFloat.ltb x x = false.
Proof. float_order. Qed.

Lemma ltb_trans (x y z : float) :
  PrimFloat.ltb x y = true -> PrimFloat.ltb y z = true ->
  PrimFloat.ltb x z = true.
Proof. intros. float_order. Qed.

Lemma leb_trans (x y z : float) :
  PrimFloat.leb x y = true -> PrimFloat.leb y z = true ->
  PrimFloat.leb x z = true.
Proof. intros. float_order. Qed.

Lemma leb_07_05 (c : float) :
  PrimFloat.leb 0.7 c = true -> PrimFloat.leb 0.5 c = true.
Proof. intros. float_order. Qed.

Lemma leb_03_pos (c : float) :
  PrimFloat.leb 0.3 c = true -> PrimFloat.ltb 0 c = true.
Proof. intros. float_order. Qed.


(** *** Sums of numbers that are not negative *)

Lemma shr_1_nonneg (r : shr_record) : 0 <= shr_m r -> 0 <= shr_m (shr_1 r).
Proof.
  destruct r as [m r s]; cbn [shr_m]; intros H.
  destruct m as [|p|p]; [| destruct p | lia]; cbn; lia.
Qed.

Lemma iter_pos_invariant {A : Type} (P : A -> Prop) (f : A -> A) :
  (forall a, P a -> P (f a)) ->
  forall (n : positive) (a : A), P a -> P (iter_pos f n a).
Proof.
  intros Hf; induction n as [n IH|n IH|]; intros a Ha; cbn; auto.
Qed.

Lemma shr_nonneg (r : shr_record) (e n : Z) :
  0 <= shr_m r -> 0 <= shr_m (fst (shr r e n)).
Proof.
  intros H; destruct n as [|p|p]; cbn; auto.
  apply (iter_pos_invariant (fun r => 0 <= shr_m r)); auto using shr_1_nonneg.
Qed.

Lemma shr_fexp_nonneg (m e : Z) (l : location) :
  0 <= m -> 0 <= shr_m (fst (shr_fexp prec emax m e l)).
Proof.
  intros H; unfold shr_fexp; apply shr_nonneg.
  destruct l as [|[| |]]; cbn; assumption.
Qed.

Lemma round_nearest_even_nonneg (m : Z) (l : location) :
  0 <= m -> 0 <= round_nearest_even m l.
Proof.
  intros H; destruct l as [|[| |]]; cbn [round_nearest_even];
    try destruct (Z.even m); lia.
Qed.

(** Rounding a positive mantissa gives a number of the requested sign. *)
Lemma binary_round_aux_sign (sx : bool) (m : positive) (e : Z) (l : location) :
  match binary_round_aux prec emax sx (Z.pos m) e l with
  | S754_zero s | S754_infinity s | S754_finite s _ _ => s = sx
  | S754_nan => False
  end.
Proof.
  unfold binary_round_aux.
  pose proof (shr_fexp_nonneg (Z.pos m) e l) as H1.
  destruct (shr_fexp prec emax (Z.pos m) e l) as [mrs' e'].
  cbn [fst] in H1.
  pose proof (shr_fexp_nonneg
                (round_nearest_even (shr_m mrs') (loc_of_shr_record mrs'))
                e' loc_Exact) as H2.
  destruct (shr_fexp prec emax _ e' loc_Exact) as [mrs'' e''].
  cbn [fst] in H2.
  destruct (shr_m mrs'') as [|p|p].
  - reflexivity.
  - destruct (e'' <=? emax - prec); reflexivity.
  - exfalso.
    assert (0 <= Z.neg p); [|lia].
    apply H2, round_nearest_even_nonneg, H1. lia.
Qed.

Lemma binary_round_sign (sx : bool) (m : positive) (e : Z) :
  match binary_round prec emax sx m e with
  | S754_zero s | S754_infinity s | S754_finite s _ _ => s = sx
  | S754_nan => False
  end.
Proof.
  unfold binary_round.
  destruct (shl_align m e _) as [mz ez].
  apply binary_round_aux_sign.
Qed.

Lemma add_nonNegative (x y : float) :
  nonNegative x = true -> nonNegative y = true ->
  nonNegative (x + y) = true.
Proof.
  unfold nonNegative. rewrite add_spec. unfold SF64add, SFadd.
  destruct (Prim2SF x) as [[|]|[|]| |[|] mx ex]; try discriminate;
    destruct (Prim2SF y) as [[|]|[|]| |[|] my ey]; try discriminate;
    intros _ _; try reflexivity.
  cbn [cond_Zopp]. cbn [Z.add binary_normalize].
  match goal with
  | |- context [binary_round _ _ ?s ?m ?e] =>
      pose proof (binary_round_sign s m e) as H;
      destruct (binary_round prec emax s m e) as [s'|s'| |s' m' e']
  end; try subst s'; try reflexivity; contradiction.
Qed.

Lemma Prim2SF_inj (x y : float) : Prim2SF x = Prim2SF y -> x = y.
Proof.
  intros H. rewrite <- (SF2Prim_Prim2SF x), <- (SF2Prim_Prim2SF y), H.
  reflexivity.
Qed.

Lemma add_zero_r (x : float) : nonNegative x = true -> (x + 0)%float = x.
Proof.
  unfold nonNegative. intros H. apply Prim2SF_inj. rewrite add_spec.
  change (Prim2SF 0) with (S754_zero false).
  destruct (Prim2SF x) as [[|]|[|]| |[|] mx ex]; try discriminate;
    reflexivity.
Qed.

Lemma nonNegative_le (x : float) :
  nonNegative x = true -> PrimFloat.leb 0 x = true.
Proof.
  intros H. apply leb_le. unfold num_le, keyOf.
  change (Prim2SF 0) with (S754_zero false).
  unfold nonNegative in H.
  destruct (Prim2SF x) as [[|]|[|]| |[|] mx ex]; try discriminate;
    cbn; lia.
Qed.

End FloatFacts.

(** ** Strings and the shape of normalized names *)

Module StringFacts.
#[local] Open Scope N_scope.

Lemma str_eqb_eq (a b : jsstring) : str_eqb a b = true <-> a = b.
Proof.
  revert b; induction a as [|c a IH]; intros [|d b]; cbn;
    try (split; (reflexivity || discriminate)).
  rewrite Bool.andb_true_iff, N.eqb_eq, IH.
  split; [intros [-> ->]; reflexivity | intros [= -> ->]; auto].
Qed.

Lemma str_eqb_sym (a b : jsstring) : str_eqb a b = str_eqb b a.
Proof.
  revert b; induction a as [|c a IH]; intros [|d b]; cbn; auto.
  rewrite IH, N.eqb_sym. reflexivity.
Qed.

Lemma isSpace_32 : isSpace 32 = true.
Proof. reflexivity. Qed.

Lemma lowerAlnum_not_space (c : N) : isLowerAlnum c = true -> isSpace c = false.
Proof.
  unfold isLowerAlnum, isSpace. intros H.
  assert ((48 <= c /\ c <= 57) \/ (97 <= c /\ c <= 122)) as R.
  { apply Bool.orb_true_iff in H.
    destruct H as [H|H]; apply Bool.andb_true_iff in H;
      rewrite !N.leb_le in H; lia. }
  replace (c <=? 13) with false by (symmetry; apply N.leb_gt; lia).
  replace (c =? 32) with false by (symmetry; apply N.eqb_neq; lia).
  replace (c =? 160) with false by (symmetry; apply N.eqb_neq; lia).
  replace (c =? 5760) with false by (symmetry; apply N.eqb_neq; lia).
  replace (8192 <=? c) with false by (symmetry; apply N.leb_gt; lia).
  replace (c =? 8232) with false by (symmetry; apply N.eqb_neq; lia).
  replace (c =? 8233) with false by (symmetry; apply N.eqb_neq; lia).
  replace (c =? 8239) with false by (symmetry; apply N.eqb_neq; lia).
  replace (c =? 8287) with false by (symmetry; apply N.eqb_neq; lia).
  replace (c =? 12288) with false by (symmetry; apply N.eqb_neq; lia).
  replace (c =? 65279) with false by (symmetry; apply N.eqb_neq; lia).
  rewrite Bool.andb_false_r. reflexivity.
Qed.

Lemma lowerAlnum_not_mark (c : N) :
  isLowerAlnum c = true -> isCombiningMark c = false.
Proof.
  unfold isLowerAlnum, isCombiningMark. intros H.
  assert (c <= 122) as R.
  { apply Bool.orb_true_iff in H.
    destruct H as [H|H]; apply Bool.andb_true_iff in H;
      rewrite !N.leb_le in H; lia. }
  replace (768 <=? c) with false by (symmetry; apply N.leb_gt; lia).
  reflexivity.
Qed.

(** On the characters of normalized names the only white space is
    U+0020. *)
Lemma basic_isSpace (c : N) : basicUnit c = true -> isSpace c = (c =? 32).
Proof.
  unfold basicUnit. intros H. apply Bool.orb_true_iff in H.
  destruct H as [H|H].
  - rewrite (lowerAlnum_not_space c H). symmetry. apply N.eqb_neq.
    intros ->. discriminate.
  - rewrite H. apply N.eqb_eq in H. subst c. reflexivity.
Qed.

Lemma basic_not_mark (c : N) : basicUnit c = true -> isCombiningMark c = false.
Proof.
  unfold basicUnit. intros H. apply Bool.orb_true_iff in H.
  destruct H as [H|H]; [apply lowerAlnum_not_mark, H|].
  apply N.eqb_eq in H. subst c. reflexivity.
Qed.

Lemma basic_kept (c : N) :
  basicUnit c = true -> isLowerAlnum c || isSpace c = true.
Proof.
  unfold basicUnit. intros H. apply Bool.orb_true_iff in H.
  destruct H as [H|H]; [rewrite H; reflexivity|].
  apply N.eqb_eq in H. subst c. reflexivity.
Qed.

Lemma splitOn_space (s : jsstring) :
  Basic s -> Spec.splitOn isSpace s = split_space s.
Proof.
  induction 1 as [|c s Hc Hs IH]; cbn; [reflexivity|].
  rewrite (basic_isSpace c Hc), IH. reflexivity.
Qed.

Lemma filter_all {A} (p : A -> bool) (l : list A) :
  Forall (fun a => p a = true) l -> filter p l = l.
Proof.
  induction 1 as [|a l Ha Hl IH]; cbn; [reflexivity|].
  rewrite Ha, IH. reflexivity.
Qed.

Lemma filter_Forall {A} (p : A -> bool) (l : list A) :
  Forall (fun a => p a = true) (filter p l).
Proof.
  induction l as [|a l IH]; cbn; [constructor|].
  destruct (p a) eqn:E; [constructor; assumption | assumption].
Qed.

Lemma collapseWs_basic (inRun : bool) (s : jsstring) :
  Forall (fun c => isLowerAlnum c || isSpace c = true) s ->
  Basic (collapseWs inRun s).
Proof.
  intros H; revert inRun; induction H as [|c s Hc Hs IH]; intros inRun; cbn;
    [constructor|].
  destruct (isSpace c) eqn:E.
  - destruct inRun; [apply IH|]. constructor; [reflexivity|apply IH].
  - constructor; [|apply IH]. unfold basicUnit.
    rewrite Bool.orb_false_r in Hc. rewrite Hc. reflexivity.
Qed.

Lemma trimStart_Forall (P : N -> Prop) (s : jsstring) :
  Forall P s -> Forall P (trimStart s).
Proof.
  induction 1 as [|c s Hc Hs IH]; cbn; [constructor|].
  destruct (isSpace c); [assumption|constructor; assumption].
Qed.

Lemma trimEnd_Forall (P : N -> Prop) (s : jsstring) :
  Forall P s -> Forall P (trimEnd s).
Proof.
  induction 1 as [|c s Hc Hs IH]; cbn; [constructor|].
  destruct (trimEnd s) as [|d t].
  - destruct (isSpace c); constructor; [assumption|constructor].
  - constructor; assumption.
Qed.

Lemma collapseWs_tidy (inRun : bool) (s : jsstring) :
  tidy inRun (collapseWs inRun s) = true.
Proof.
  revert inRun; induction s as [|c s IH]; intros inRun; cbn; [reflexivity|].
  destruct (isSpace c) eqn:E.
  - destruct inRun; [apply IH|]. cbn. apply IH.
  - cbn. rewrite E. apply IH.
Qed.

Lemma tidy_collapseWs (inRun : bool) (s : jsstring) :
  tidy inRun s = true -> collapseWs inRun s = s.
Proof.
  revert inRun; induction s as [|c s IH]; intros inRun; cbn; [reflexivity|].
  destruct (isSpace c) eqn:E.
  - intros H. apply Bool.andb_true_iff in H. destruct H as [H Ht].
    apply Bool.andb_true_iff in H. destruct H as [Hc Hr].
    apply N.eqb_eq in Hc. destruct inRun; [discriminate|].
    rewrite (IH true Ht). subst c. reflexivity.
  - intros H. rewrite (IH false H). reflexivity.
Qed.

Lemma trimStart_tidy (afterSpace : bool) (s : jsstring) :
  tidy afterSpace s = true -> tidy false (trimStart s) = true.
Proof.
  revert afterSpace; induction s as [|c s IH]; intros b; cbn; [reflexivity|].
  destruct (isSpace c) eqn:E.
  - intros H. apply Bool.andb_true_iff in H. destruct H as [_ Ht].
    apply (IH true Ht).
  - intros H. cbn. rewrite E. exact H.
Qed.

Lemma trimEnd_tidy (afterSpace : bool) (s : jsstring) :
  tidy afterSpace s = true -> tidy afterSpace (trimEnd s) = true.
Proof.
  revert afterSpace; induction s as [|c s IH]; intros b; cbn; [reflexivity|].
  destruct (isSpace c) eqn:E.
  - intros H. apply Bool.andb_true_iff in H. destruct H as [H Ht].
    specialize (IH true Ht).
    destruct (trimEnd s) as [|d t]; [reflexivity|].
    cbn [tidy]. rewrite E, H. exact IH.
  - intros H. specialize (IH false H).
    destruct (trimEnd s) as [|d t]; cbn [tidy]; rewrite E; [reflexivity|].
    exact IH.
Qed.

Lemma trimStart_head (s : jsstring) : headNotSpace (trimStart s).
Proof.
  induction s as [|c s IH]; cbn; [exact I|].
  destruct (isSpace c) eqn:E; [exact IH|exact E].
Qed.

Lemma trimEnd_head (s : jsstring) : headNotSpace s -> headNotSpace (trimEnd s).
Proof.
  destruct s as [|c s]; cbn; [auto|]. intros E.
  destruct (trimEnd s); [rewrite E|]; exact E.
Qed.

Lemma trimStart_fixed (s : jsstring) : headNotSpace s -> trimStart s = s.
Proof. destruct s as [|c s]; cbn; [auto|]. intros ->. reflexivity. Qed.

Lemma trimEnd_trimEnd (s : jsstring) : trimEnd (trimEnd s) = trimEnd s.
Proof.
  induction s as [|c s IH]; cbn; [reflexivity|].
  destruct (trimEnd s) as [|d t] eqn:E.
  - destruct (isSpace c) eqn:Ec; cbn; [reflexivity|]. rewrite Ec. reflexivity.
  - change (trimEnd (c :: d :: t)) with
      (match trimEnd (d :: t) with
       | [] => if isSpace c then [] else [c]
       | u => c :: u
       end).
    rewrite IH. reflexivity.
Qed.

Lemma trim_trim (s : jsstring) : trim (trim s) = trim s.
Proof.
  unfold trim.
  rewrite (trimStart_fixed (trimEnd (trimStart s))).
  - apply trimEnd_trimEnd.
  - apply trimEnd_head, trimStart_head.
Qed.

End StringFacts.

(** ** The scenarios of the repository's tests, run on the embedding *)

Module Scenarios.
#[local] Open Scope float_scope.

(** A last name against full names: 0.2 for the sport and 0.6 for the
    name contained in participant1. *)
Example galan_by_last_name :
  option_map SimpleResult.event (Mock.simple Mock.galan Mock.tennis)
  = Some (Some Mock.tennis1)
  /\ option_map SimpleResult.confidence (Mock.simple Mock.galan Mock.tennis)
     = Some 0.8.
Proof. split; vm_compute; reflexivity. Qed.

(** Doubles partners each add their bonus; the sum 1.4 is clamped. *)
Example doubles_partners :
  option_map SimpleResult.event (Mock.simple Mock.doubles Mock.tennis)
  = Some (Some Mock.tennis4)
  /\ Mock.score Mock.doubles Mock.tennis4 = 0.2 + 0.6 + 0.6
  /\ option_map SimpleResult.confidence (Mock.simple Mock.doubles Mock.tennis)
     = Some 1.0.
Proof. repeat split; vm_compute; reflexivity. Qed.

Example lakers_game :
  option_map SimpleResult.event
    (Mock.simple Mock.lakers (Mock.tennis ++ [Mock.nba1]))
  = Some (Some Mock.nba1).
Proof. vm_compute; reflexivity. Qed.

(** No name matches: only the sport counts, below 0.5. *)
Example no_player_match :
  option_map SimpleResult.confidence (Mock.simple Mock.tennisOnly Mock.tennis)
  = Some 0.2.
Proof. vm_compute; reflexivity. Qed.

Example empty_feed :
  Mock.simple Mock.galan []
  = Some {| SimpleResult.event := None; SimpleResult.confidence := 0;
            SimpleResult.allCandidates := [] |}.
Proof. reflexivity. Qed.

(** Scores are binary64 sums: sport, league and a token match together
    exceed an exact match. *)
Example sum_exceeds_exact_match : (0.7 <? 0.2 + 0.1 + 0.4) = true.
Proof. reflexivity. Qed.

End Scenarios.

(** ** Normalization *)

Section NormalizeFacts.

Variable toLowerCase : jsstring -> jsstring.
Variable normalizeNFD : jsstring -> jsstring.

#[local] Abbreviation normalize := (normalizePlayerName toLowerCase normalizeNFD).

(** Whatever the engine's tables do, a normalized name is made of
    [a-z], [0-9] and U+0020. *)
Lemma normalize_basic (name : jsstring) : Basic (normalize name).
Proof.
  unfold normalizePlayerName, trim.
  apply StringFacts.trimEnd_Forall, StringFacts.trimStart_Forall.
  apply StringFacts.collapseWs_basic, StringFacts.filter_Forall.
Qed.

Lemma normalize_tidy (name : jsstring) : tidy false (normalize name) = true.
Proof.
  unfold normalizePlayerName, trim.
  apply StringFacts.trimEnd_tidy.
  apply (StringFacts.trimStart_tidy false), StringFacts.collapseWs_tidy.
Qed.

(** The engine's tables leave strings of [a-z], [0-9] and U+0020
    unchanged. *)
Hypothesis toLowerCase_basic : forall s, Basic s -> toLowerCase s = s.
Hypothesis normalizeNFD_basic : forall s, Basic s -> normalizeNFD s = s.

Lemma normalize_fixed (s : jsstring) :
  Basic s -> tidy false s = true -> trim s = s -> normalize s = s.
Proof.
  intros Hb Ht Hs. unfold normalizePlayerName.
  rewrite (toLowerCase_basic s Hb), (normalizeNFD_basic s Hb).
  rewrite (StringFacts.filter_all (fun c => negb (isCombiningMark c)) s).
  - rewrite (StringFacts.filter_all (fun c => isLowerAlnum c || isSpace c) s).
    + rewrite (StringFacts.tidy_collapseWs false s Ht). exact Hs.
    + eapply Forall_impl; [|exact Hb]. apply StringFacts.basic_kept.
  - eapply Forall_impl; [|exact Hb]. intros c Hc.
    cbv beta. rewrite (StringFacts.basic_not_mark c Hc). reflexivity.
Qed.

Lemma normalize_idempotent (name : jsstring) :
  normalize (normalize name) = normalize name.
Proof.
  apply normalize_fixed.
  - apply normalize_basic.
  - apply normalize_tidy.
  - unfold normalizePlayerName. apply StringFacts.trim_trim.
Qed.

End NormalizeFacts.

(** The Latin-1 tables leave such strings unchanged. *)
Lemma latin1_lower_basic (s : jsstring) : Basic s -> Latin1.toLowerCase s = s.
Proof.
  induction 1 as [|c s Hc Hs IH]; [reflexivity|].
  change (Latin1.toLowerCase (c :: s))
    with (Latin1.lowerUnit c :: Latin1.toLowerCase s).
  rewrite IH. f_equal. unfold Latin1.lowerUnit.
  assert (c = 32 \/ 48 <= c)%N as R.
  { unfold basicUnit, isLowerAlnum in Hc.
    apply Bool.orb_true_iff in Hc. destruct Hc as [Hc|Hc].
    - apply Bool.orb_true_iff in Hc.
      destruct Hc as [Hc|Hc]; apply Bool.andb_true_iff in Hc;
        rewrite !N.leb_le in Hc; lia.
    - apply N.eqb_eq in Hc. lia. }
  assert (c = 32 \/ (48 <= c /\ c <= 57) \/ (97 <= c /\ c <= 122))%N as R'.
  { unfold basicUnit, isLowerAlnum in Hc.
    apply Bool.orb_true_iff in Hc. destruct Hc as [Hc|Hc].
    - apply Bool.orb_true_iff in Hc.
      destruct Hc as [Hc|Hc]; apply Bool.andb_true_iff in Hc;
        rewrite !N.leb_le in Hc; lia.
    - apply N.eqb_eq in Hc. lia. }
  replace ((65 <=? c) && (c <=? 90))%N with false
    by (symmetry; apply Bool.andb_false_iff; rewrite !N.leb_gt; lia).
  replace (192 <=? c)%N with false by (symmetry; apply N.leb_gt; lia).
  reflexivity.
Qed.

Lemma latin1_nfd_basic (s : jsstring) : Basic s -> Latin1.normalizeNFD s = s.
Proof.
  induction 1 as [|c s Hc Hs IH]; [reflexivity|].
  change (Latin1.normalizeNFD (c :: s))
    with (Latin1.decomposeUnit c ++ Latin1.normalizeNFD s)%list.
  rewrite IH. change (c :: s) with ([c] ++ s)%list. f_equal.
  unfold Latin1.decomposeUnit.
  assert (c <= 122)%N as R.
  { unfold basicUnit, isLowerAlnum in Hc.
    apply Bool.orb_true_iff in Hc. destruct Hc as [Hc|Hc].
    - apply Bool.orb_true_iff in Hc.
      destruct Hc as [Hc|Hc]; apply Bool.andb_true_iff in Hc;
        rewrite !N.leb_le in Hc; lia.
    - apply N.eqb_eq in Hc. lia. }
  replace (192 <=? c)%N with false by (symmetry; apply N.leb_gt; lia).
  replace (224 <=? c)%N with false by (symmetry; apply N.leb_gt; lia).
  replace (c =? 255)%N with false by (symmetry; apply N.eqb_neq; lia).
  reflexivity.
Qed.

(** *** Diacritics *)

Module DiacriticFacts.
#[local] Open Scope N_scope.






(** A stroke is no accent mark: [\u00f8] has no decomposition, and is
    removed with the other characters outside [a-z], [0-9] and white
    space. *)
Example stroke_is_removed :
  normalizePlayerName Latin1.toLowerCase Latin1.normalizeNFD
    (lit "S" ++ [248] ++ lit "ren")%list
  = lit "sren".
Proof. reflexivity. Qed.

End DiacriticFacts.



(** ** The score of one event *)

Section ScoreFacts.

#[local] Open Scope float_scope.

Variable toLowerCase : jsstring -> jsstring.
Variable normalizeNFD : jsstring -> jsstring.

#[local] Abbreviation normalize := (normalizePlayerName toLowerCase normalizeNFD).
#[local] Abbreviation scoreOf := (scoreEvent toLowerCase normalizeNFD).

Lemma participantsOf_pool (event : Event.t) :
  participantsOf toLowerCase normalizeNFD event
  = Spec.pool toLowerCase normalizeNFD event.
Proof.
  unfold participantsOf, Spec.pool. f_equal.
  generalize [Event.participant1 event; Event.participant2 event;
              Event.description event; Event.displayName event].
  induction l as [|[[|c s]|] l IH]; cbn; rewrite ?IH; reflexivity.
Qed.

Lemma participantsOf_basic (event : Event.t) :
  Forall Basic (participantsOf toLowerCase normalizeNFD event).
Proof.
  unfold participantsOf. apply Forall_map, Forall_forall.
  intros s _. apply normalize_basic.
Qed.

Lemma existsb_same {A} (f g : A -> bool) (l : list A) :
  (forall a, f a = g a) -> existsb f l = existsb g l.
Proof.
  intros H; induction l as [|a l IH]; cbn; [reflexivity|].
  rewrite H, IH. reflexivity.
Qed.

Lemma existsb_nonempty (f : jsstring -> bool) (l : list jsstring) :
  f [] = false ->
  existsb f (filter (fun t => match t with [] => false | _ => true end) l)
  = existsb f l.
Proof.
  intros H; induction l as [|[|c t] l IH]; cbn; [reflexivity| |].
  - rewrite H. exact IH.
  - rewrite IH. reflexivity.
Qed.

Lemma matchParts_existsb (playerParts participantParts : list jsstring)
    (score : float) :
  matchParts playerParts participantParts score
  = if existsb
         (fun part => Nat.ltb 2 (List.length part)
                      && somePart participantParts part)
         playerParts
    then (score + 0.4, true) else (score, false).
Proof.
  induction playerParts as [|part rest IH]; [reflexivity|].
  cbn [matchParts existsb].
  destruct (Nat.ltb 2 (List.length part) && somePart participantParts part);
    cbn [orb]; [reflexivity|exact IH].
Qed.

(** On normalized names, cutting at U+0020 and matching the pieces is
    matching the whitespace-delimited tokens. *)
Lemma split_tokenMatch (player participant : jsstring) :
  Basic player -> Basic participant ->
  existsb
    (fun part => Nat.ltb 2 (List.length part)
                 && somePart (split_space participant) part)
    (split_space player)
  = Spec.tokenMatch player participant.
Proof.
  intros Hp Hq. unfold Spec.tokenMatch, Spec.tokens.
  rewrite (StringFacts.splitOn_space player Hp).
  rewrite (StringFacts.splitOn_space participant Hq).
  rewrite existsb_nonempty by reflexivity.
  apply existsb_same. intros tok.
  destruct tok as [|c tok]; [reflexivity|].
  f_equal. unfold somePart. symmetry. apply existsb_nonempty. reflexivity.
Qed.

Lemma matchParticipants_matched (player : jsstring)
    (participants : list jsstring) (score : float) :
  matchParticipants player participants score true = (score, true).
Proof. destruct participants; reflexivity. Qed.

(** The loop over the participants applies the first rule that fires. *)
Lemma matchParticipants_firstFired (player : jsstring)
    (participants : list jsstring) (score : float) :
  Basic player -> Forall Basic participants ->
  matchParticipants player participants score false
  = match Spec.firstFired player participants with
    | Some bonus => (score + bonus, true)
    | None => (score, false)
    end.
Proof.
  intros Hp Hq; induction Hq as [|participant rest Hq Hrest IH];
    [reflexivity|].
  cbn [matchParticipants Spec.firstFired]. unfold Spec.ruleBonus.
  rewrite (StringFacts.str_eqb_sym player participant).
  destruct (str_eqb participant player); [reflexivity|].
  rewrite (Bool.andb_comm (includes participant player)).
  destruct (Nat.leb 3 (List.length player) && includes participant player);
    [reflexivity|].
  rewrite (Bool.andb_comm (includes player participant)).
  destruct (Nat.leb 3 (List.length participant) && includes player participant);
    [reflexivity|].
  rewrite matchParts_existsb, (split_tokenMatch player participant Hp Hq).
  destruct (Spec.tokenMatch player participant).
  - apply matchParticipants_matched.
  - exact IH.
Qed.

Lemma firstFired_nonNegative (player : jsstring) (participants : list jsstring)
    (bonus : float) :
  Spec.firstFired player participants = Some bonus ->
  FloatOrder.nonNegative bonus = true.
Proof.
  induction participants as [|participant rest IH]; cbn; [discriminate|].
  unfold Spec.ruleBonus.
  destruct (str_eqb player participant); [intros [= <-]; reflexivity|].
  destruct (Nat.leb 3 (List.length player) && includes participant player);
    [intros [= <-]; reflexivity|].
  destruct (Nat.leb 3 (List.length participant) && includes player participant);
    [intros [= <-]; reflexivity|].
  destruct (Spec.tokenMatch player participant);
    [intros [= <-]; reflexivity|exact IH].
Qed.

Lemma playerBonus_nonNegative (event : Event.t) (playerName : jsstring) :
  FloatOrder.nonNegative (Spec.playerBonus toLowerCase normalizeNFD event playerName)
  = true.
Proof.
  unfold Spec.playerBonus.
  destruct (Spec.firstFired _ _) eqn:E; [|reflexivity].
  eapply firstFired_nonNegative, E.
Qed.

(** One turn of the loop over the players adds the player's bonus. *)
Lemma matchPlayer_bonus (event : Event.t) (playerName : jsstring)
    (score : float) :
  FloatOrder.nonNegative score = true ->
  fst (matchParticipants (normalize playerName)
         (participantsOf toLowerCase normalizeNFD event) score false)
  = score + Spec.playerBonus toLowerCase normalizeNFD event playerName.
Proof.
  intros Hs.
  rewrite matchParticipants_firstFired
    by (apply normalize_basic || apply participantsOf_basic).
  unfold Spec.playerBonus. rewrite participantsOf_pool.
  destruct (Spec.firstFired _ _); cbn [fst]; [reflexivity|].
  symmetry. apply FloatFacts.add_zero_r, Hs.
Qed.

Lemma matchPlayers_sum (event : Event.t) (names : list jsstring) :
  forall score, FloatOrder.nonNegative score = true ->
  matchPlayers toLowerCase normalizeNFD names event score
  = fold_left PrimFloat.add
      (map (Spec.playerBonus toLowerCase normalizeNFD event) names) score
  /\ FloatOrder.nonNegative
       (matchPlayers toLowerCase normalizeNFD names event score) = true.
Proof.
  unfold matchPlayers.
  induction names as [|name rest IH]; intros score Hs; cbn [fold_left map];
    [auto|].
  rewrite (matchPlayer_bonus event name score Hs).
  apply IH, FloatFacts.add_nonNegative;
    [exact Hs|apply playerBonus_nonNegative].
Qed.

Lemma sportBonus_nonNegative (sport : option jsstring) (event : Event.t)
    (score : float) :
  FloatOrder.nonNegative score = true ->
  FloatOrder.nonNegative (sportBonus toLowerCase sport event score) = true.
Proof.
  intros Hs. unfold sportBonus.
  destruct sport as [[|c s]|]; auto.
  destruct (Event.sport event) as [[|d es]|]; auto.
  destruct (str_eqb _ _); auto.
  apply FloatFacts.add_nonNegative; [exact Hs|reflexivity].
Qed.

Lemma leagueBonus_nonNegative (league : option jsstring) (event : Event.t)
    (score : float) :
  FloatOrder.nonNegative score = true ->
  FloatOrder.nonNegative (leagueBonus toLowerCase league event score) = true.
Proof.
  intros Hs. unfold leagueBonus.
  destruct league as [[|c l]|]; auto.
  destruct (Event.league event) as [[|d el]|]; auto.
  destruct (includes _ _); auto.
  apply FloatFacts.add_nonNegative; [exact Hs|reflexivity].
Qed.

(** A score is zero, a positive number or plus infinity; it is never
    NaN. *)
Lemma scoreEvent_nonNegative (pick : ParsedPick) (event : Event.t) :
  FloatOrder.nonNegative (scoreOf pick event) = true.
Proof.
  unfold scoreEvent.
  apply matchPlayers_sum, leagueBonus_nonNegative, sportBonus_nonNegative.
  reflexivity.
Qed.

(** The engine's [toLowerCase] maps the empty string, and it only, to
    the empty string. *)
Hypothesis toLowerCase_empty : toLowerCase [] = [].
Hypothesis toLowerCase_nonempty : forall s, toLowerCase s = [] -> s = [].

Lemma sportBonus_term (pick : ParsedPick) (event : Event.t) :
  sportBonus toLowerCase (sport pick) event 0
  = 0 + Spec.sportTerm toLowerCase pick event.
Proof.
  unfold sportBonus, Spec.sportTerm, Spec.isSet, Spec.text.
  destruct (sport pick) as [[|c s]|]; cbn [andb];
    try solve [destruct (Event.sport event) as [[|d es]|]; reflexivity].
  destruct (Event.sport event) as [[|d es]|].
  - rewrite toLowerCase_empty.
    destruct (toLowerCase (c :: s)) eqn:E; [|reflexivity].
    apply toLowerCase_nonempty in E. discriminate.
  - rewrite StringFacts.str_eqb_sym. destruct (str_eqb _ _); reflexivity.
  - rewrite toLowerCase_empty.
    destruct (toLowerCase (c :: s)) eqn:E; [|reflexivity].
    apply toLowerCase_nonempty in E. discriminate.
Qed.

Lemma leagueBonus_term (pick : ParsedPick) (event : Event.t) (score : float) :
  FloatOrder.nonNegative score = true ->
  leagueBonus toLowerCase (league pick) event score
  = score + Spec.leagueTerm toLowerCase pick event.
Proof.
  intros Hs. pose proof (eq_sym (FloatFacts.add_zero_r score Hs)) as Hz.
  unfold leagueBonus, Spec.leagueTerm, Spec.isSet, Spec.text.
  destruct (league pick) as [[|c l]|]; cbn [andb];
    try solve [destruct (Event.league event) as [[|d el]|]; auto].
  destruct (Event.league event) as [[|d el]|].
  - rewrite toLowerCase_empty.
    destruct (toLowerCase (c :: l)) eqn:E; [|cbn; exact Hz].
    apply toLowerCase_nonempty in E. discriminate.
  - destruct (includes _ _); auto.
  - rewrite toLowerCase_empty.
    destruct (toLowerCase (c :: l)) eqn:E; [|cbn; exact Hz].
    apply toLowerCase_nonempty in E. discriminate.
Qed.

Lemma sportTerm_nonNegative (pick : ParsedPick) (event : Event.t) :
  FloatOrder.nonNegative (0 + Spec.sportTerm toLowerCase pick event) = true.
Proof. unfold Spec.sportTerm. destruct (_ && _); reflexivity. Qed.

Lemma leagueTerm_nonNegative (pick : ParsedPick) (event : Event.t) :
  FloatOrder.nonNegative (Spec.leagueTerm toLowerCase pick event) = true.
Proof. unfold Spec.leagueTerm. destruct (_ && _); reflexivity. Qed.

(** The score computed by the loop body is the specified sum. *)
Lemma scoreEvent_lexicalScore (pick : ParsedPick) (event : Event.t) :
  scoreOf pick event = Spec.lexicalScore toLowerCase normalizeNFD pick event.
Proof.
  unfold scoreEvent, Spec.lexicalScore. cbn [fold_left].
  rewrite sportBonus_term.
  rewrite leagueBonus_term by apply sportTerm_nonNegative.
  apply matchPlayers_sum, FloatFacts.add_nonNegative.
  - apply sportTerm_nonNegative.
  - apply leagueTerm_nonNegative.
Qed.

End ScoreFacts.

(** ** Ranking: the best match and the sorted candidates *)

Module RankFacts.
Import FloatOrder.

Ltac score_order :=
  repeat match goal with
  | H : nonNegative _ = true |- _ => apply FloatFacts.nonNegative_le in H
  end;
  FloatFacts.float_order.

Lemma insertSorted_Forall (P : Candidate.t -> Prop) (c : Candidate.t)
    (l : list Candidate.t) :
  P c -> Forall P l -> Forall P (insertSorted c l).
Proof.
  intros Hc Hl; induction Hl as [|d l Hd Hl IH]; cbn;
    [repeat constructor; assumption|].
  destruct (compareFn c d); repeat constructor; assumption.
Qed.

Lemma sort_Forall (P : Candidate.t -> Prop) (l : list Candidate.t) :
  Forall P l -> Forall P (sort l).
Proof.
  induction 1 as [|c l Hc Hl IH]; cbn; [constructor|].
  apply insertSorted_Forall; assumption.
Qed.

Lemma insertSorted_perm (c : Candidate.t) (l : list Candidate.t) :
  Permutation (insertSorted c l) (c :: l).
Proof.
  induction l as [|d l IH]; cbn; [reflexivity|].
  destruct (compareFn c d); try reflexivity.
  rewrite IH. apply perm_swap.
Qed.

Lemma sort_perm (l : list Candidate.t) : Permutation (sort l) l.
Proof.
  induction l as [|c l IH]; cbn; [reflexivity|].
  rewrite insertSorted_perm, IH. reflexivity.
Qed.

Lemma compareFn_Gt (c d : Candidate.t) :
  compareFn c d = Gt <->
  PrimFloat.ltb (Candidate.score c) (Candidate.score d) = true.
Proof.
  unfold compareFn.
  destruct (PrimFloat.ltb (Candidate.score c) (Candidate.score d));
    [intuition|].
  destruct (PrimFloat.ltb (Candidate.score d) (Candidate.score c));
    intuition discriminate.
Qed.

Lemma insertSorted_sorted (c : Candidate.t) (l : list Candidate.t) :
  wellScored c -> Forall wellScored l ->
  StronglySorted descending l ->
  StronglySorted descending (insertSorted c l).
Proof.
  intros Hc Hw Hs; induction Hs as [|d l Hs IH Hd]; cbn;
    [repeat constructor|].
  inversion Hw as [|? ? Hwd Hwl]; subst.
  destruct (compareFn c d) eqn:E.
  - constructor; [constructor; assumption|].
    assert (descending c d) as Hcd.
    { unfold descending, wellScored in *.
      assert (PrimFloat.ltb (Candidate.score c) (Candidate.score d) = false) as F
        by (destruct (PrimFloat.ltb _ _) eqn:F; [|reflexivity];
            apply compareFn_Gt in F; congruence).
      clear - F Hc Hwd. score_order. }
    constructor; [exact Hcd|].
    eapply Forall_impl; [|exact Hd]. intros a Ha.
    unfold descending in *. clear - Ha Hcd. FloatFacts.float_order.
  - constructor; [constructor; assumption|].
    assert (descending c d) as Hcd.
    { unfold descending, wellScored in *.
      assert (PrimFloat.ltb (Candidate.score c) (Candidate.score d) = false) as F
        by (destruct (PrimFloat.ltb _ _) eqn:F; [|reflexivity];
            apply compareFn_Gt in F; congruence).
      clear - F Hc Hwd. score_order. }
    constructor; [exact Hcd|].
    eapply Forall_impl; [|exact Hd]. intros a Ha.
    unfold descending in *. clear - Ha Hcd. FloatFacts.float_order.
  - apply compareFn_Gt in E.
    constructor; [apply IH; assumption|].
    apply insertSorted_Forall; [|exact Hd].
    unfold descending. clear - E. FloatFacts.float_order.
Qed.

(** The sorted list is in descending order of score. *)
Lemma sort_sorted (l : list Candidate.t) :
  Forall wellScored l -> StronglySorted descending (sort l).
Proof.
  induction 1 as [|c l Hc Hl IH]; cbn; [constructor|].
  apply insertSorted_sorted; [assumption|apply sort_Forall; assumption|exact IH].
Qed.

Lemma insertSorted_stable (s : float) (c : Candidate.t) (l : list Candidate.t) :
  filter (sameScore s) (insertSorted c l) = filter (sameScore s) (c :: l).
Proof.
  induction l as [|d l IH]; [reflexivity|].
  cbn [insertSorted]. destruct (compareFn c d) eqn:E; try reflexivity.
  apply compareFn_Gt in E.
  cbn [filter] in *. rewrite IH.
  destruct (sameScore s c) eqn:Ec; [|reflexivity].
  destruct (sameScore s d) eqn:Ed; [|reflexivity].
  exfalso. unfold sameScore in *. clear - E Ec Ed. FloatFacts.float_order.
Qed.

(** Sorting is stable: the candidates of any one score keep the order
    they had. *)
Lemma sort_stable (s : float) (l : list Candidate.t) :
  filter (sameScore s) (sort l) = filter (sameScore s) l.
Proof.
  induction l as [|c l IH]; [reflexivity|].
  cbn [sort fold_right]. rewrite insertSorted_stable.
  cbn [filter]. fold (sort l). rewrite IH. reflexivity.
Qed.

Lemma hd_insertSorted (c : Candidate.t) (l : list Candidate.t) :
  hd_error (insertSorted c l)
  = match hd_error l with
    | None => Some c
    | Some m =>
        if PrimFloat.ltb (Candidate.score c) (Candidate.score m)
        then Some m else Some c
    end.
Proof.
  destruct l as [|d l]; [reflexivity|]. cbn [insertSorted hd_error].
  destruct (PrimFloat.ltb (Candidate.score c) (Candidate.score d)) eqn:E.
  - apply compareFn_Gt in E. rewrite E. reflexivity.
  - destruct (compareFn c d) eqn:F; try reflexivity.
    apply compareFn_Gt in F. congruence.
Qed.

(** The head of the sorted list is the first of the highest. *)
Lemma hd_sort (l : list Candidate.t) : hd_error (sort l) = firstMax l.
Proof.
  induction l as [|c l IH]; [reflexivity|].
  cbn [sort fold_right firstMax]. fold (sort l).
  rewrite hd_insertSorted, IH. reflexivity.
Qed.

Lemma firstMax_In (l : list Candidate.t) (m : Candidate.t) :
  firstMax l = Some m -> In m l.
Proof.
  revert m; induction l as [|c l IH]; intros m; cbn; [discriminate|].
  destruct (firstMax l) as [m'|].
  - destruct (PrimFloat.ltb _ _); intros [= <-]; auto.
  - intros [= <-]; auto.
Qed.

Lemma firstMax_firstTop (l : list Candidate.t) (m : Candidate.t) :
  firstTop Candidate.score l m -> firstMax l = Some m.
Proof.
  intros (pre & post & -> & Hpre & Hpost).
  induction Hpre as [|c pre Hc Hpre IH].
  - cbn [app firstMax].
    destruct (firstMax post) as [m'|] eqn:E; [|reflexivity].
    apply firstMax_In in E.
    rewrite Forall_forall in Hpost. specialize (Hpost m' E).
    assert (PrimFloat.ltb (Candidate.score m) (Candidate.score m') = false) as ->
      by (clear - Hpost; FloatFacts.float_order).
    reflexivity.
  - cbn [app firstMax]. cbn [app] in IH. rewrite IH, Hc. reflexivity.
Qed.

End RankFacts.

(** ** The loop of the lexical scorer *)

Section ScanFacts.

#[local] Open Scope float_scope.

Variable toLowerCase : jsstring -> jsstring.
Variable normalizeNFD : jsstring -> jsstring.

#[local] Abbreviation scoreOf := (scoreEvent toLowerCase normalizeNFD).
#[local] Abbreviation scan := (scanEvent toLowerCase normalizeNFD).
#[local] Abbreviation simple := (findMatchingEventSimple toLowerCase normalizeNFD).

Lemma scanEvent_invariant (pick : ParsedPick) (st : Scan) (event : Event.t) :
  scanInvariant st -> scanInvariant (scan pick st event).
Proof.
  unfold scanInvariant, scanEvent.
  destruct (bestScore st <? scoreOf pick event) eqn:E; cbn; auto.
  destruct (bestMatch st); intros H.
  - apply (FloatFacts.ltb_trans _ _ _ H E).
  - rewrite H in E. exact E.
Qed.

Lemma fold_scan_invariant (pick : ParsedPick) (events : list Event.t) :
  forall st, scanInvariant st ->
  scanInvariant (fold_left (scan pick) events st).
Proof.
  induction events as [|e l IH]; intros st H; cbn; auto.
  apply IH, scanEvent_invariant, H.
Qed.

Lemma scanEvents_invariant (pick : ParsedPick) (events : list Event.t) :
  scanInvariant (scanEvents toLowerCase normalizeNFD pick events).
Proof. apply fold_scan_invariant. reflexivity. Qed.

Lemma Math_min_one_positive (b : float) :
  (0 <? b) = true -> (0 <? Math_min b 1.0) = true.
Proof.
  intros H. unfold Math_min, is_nan.
  assert ((b =? b) = true) as -> by FloatFacts.float_order.
  cbn [negb orb].
  destruct (b <? 1.0); [exact H|].
  destruct (1.0 <? b); [reflexivity|].
  destruct (get_sign b); [exact H | reflexivity].
Qed.

(** The scorer answers [null] exactly for a pick without players. *)
Lemma simple_none (pick : ParsedPick) (events : list Event.t) :
  players pick = [] -> simple pick events = None.
Proof. unfold findMatchingEventSimple. intros ->. reflexivity. Qed.

Lemma simple_some (pick : ParsedPick) (events : list Event.t) :
  players pick <> [] -> exists r, simple pick events = Some r.
Proof.
  unfold findMatchingEventSimple. destruct (players pick); [congruence|].
  intros _. destruct (bestMatch _); eauto.
Qed.

(** Its answer holds no event and confidence 0, or an event and a
    positive confidence. *)
Lemma simple_confidence (pick : ParsedPick) (events : list Event.t)
    (r : SimpleResult.t) :
  simple pick events = Some r ->
  match SimpleResult.event r with
  | None => SimpleResult.confidence r = 0
  | Some _ => (0 <? SimpleResult.confidence r) = true
  end.
Proof.
  unfold findMatchingEventSimple. destruct (players pick); [discriminate|].
  pose proof (scanEvents_invariant pick events) as H.
  unfold scanInvariant in H.
  destruct (bestMatch _); intros [= <-]; cbn.
  - apply Math_min_one_positive, H.
  - reflexivity.
Qed.

Lemma fold_scan_bestScore (pick : ParsedPick) (events : list Event.t) :
  forall st,
  bestScore (fold_left (scan pick) events st)
  = fold_left
      (fun best event =>
         if best <? scoreOf pick event then scoreOf pick event else best)
      events (bestScore st).
Proof.
  induction events as [|e l IH]; intros st; cbn [fold_left]; [reflexivity|].
  rewrite IH. f_equal. unfold scanEvent.
  destruct (bestScore st <? scoreOf pick e); reflexivity.
Qed.

(** The confidence is the clamped best score, also when no event was
    kept, the best score then being 0. *)
Lemma simple_confidence_min (pick : ParsedPick) (events : list Event.t)
    (r : SimpleResult.t) :
  simple pick events = Some r ->
  SimpleResult.confidence r
  = Math_min (bestScore (scanEvents toLowerCase normalizeNFD pick events)) 1.0.
Proof.
  unfold findMatchingEventSimple. destruct (players pick); [discriminate|].
  pose proof (scanEvents_invariant pick events) as H.
  unfold scanInvariant in H.
  destruct (bestMatch _); intros [= <-]; cbn; [reflexivity|].
  rewrite H. reflexivity.
Qed.

Lemma fold_scan_candidates (pick : ParsedPick) (events : list Event.t) :
  forall st,
  allCandidates (fold_left (scan pick) events st)
  = allCandidates st
    ++ map (candidateOf (scoreOf pick))
         (filter (fun e => 0 <? scoreOf pick e) events).
Proof.
  induction events as [|e l IH]; intros st; cbn [fold_left filter map].
  - rewrite app_nil_r. reflexivity.
  - rewrite IH. unfold scanEvent.
    destruct (0 <? scoreOf pick e);
      destruct (bestScore st <? scoreOf pick e); cbn [allCandidates map];
      rewrite <- ?app_assoc; reflexivity.
Qed.

(** The candidates collected by the loop: the events whose score is
    above 0, in the order of the feed. *)
Lemma scanEvents_candidates (pick : ParsedPick) (events : list Event.t) :
  allCandidates (scanEvents toLowerCase normalizeNFD pick events)
  = map (candidateOf (scoreOf pick))
      (filter (fun e => 0 <? scoreOf pick e) events).
Proof. unfold scanEvents. rewrite fold_scan_candidates. reflexivity. Qed.

(** The best match of the loop: the first event with the highest score,
    provided that score is above 0. *)
Lemma scanEvents_bestOf (pick : ParsedPick) (events : list Event.t) :
  bestOf (scoreOf pick) events (scanEvents toLowerCase normalizeNFD pick events).
Proof.
  induction events as [|x l IH] using rev_ind.
  - cbn. split; [reflexivity|constructor].
  - unfold scanEvents in *. rewrite fold_left_app. cbn [fold_left].
    remember (fold_left (scan pick) l
                {| bestMatch := None; bestScore := 0; allCandidates := [] |})
      as st eqn:Hst.
    clear Hst.
    pose proof (scoreEvent_nonNegative toLowerCase normalizeNFD pick x) as Hx.
    unfold bestOf in *. unfold scanEvent.
    destruct (bestScore st <? scoreOf pick x) eqn:E; cbn [bestMatch bestScore].
    + split; [reflexivity|].
      destruct (bestMatch st) as [e|].
      * destruct IH as (Hb & Hpos & pre & post & Hl & Hpre & Hpost).
        rewrite Hb in E.
        split; [clear - Hpos E; FloatFacts.float_order|].
        exists l, []. split; [reflexivity|]. split; [|constructor].
        rewrite Hl. apply Forall_app. split; [|constructor].
        -- eapply Forall_impl; [|exact Hpre]. intros a Ha.
           cbv beta in *. clear - Ha E. FloatFacts.float_order.
        -- exact E.
        -- eapply Forall_impl; [|exact Hpost]. intros a Ha.
           cbv beta in *. clear - Ha E. FloatFacts.float_order.
      * destruct IH as (Hb & Hall). rewrite Hb in E.
        split; [exact E|].
        exists l, []. split; [reflexivity|]. split; [|constructor].
        eapply Forall_impl; [|exact Hall]. intros a Ha. cbv beta in *.
        pose proof (scoreEvent_nonNegative toLowerCase normalizeNFD pick a) as Hn.
        clear - Ha E Hn. RankFacts.score_order.
    + destruct (bestMatch st) as [e|].
      * destruct IH as (Hb & Hpos & pre & post & Hl & Hpre & Hpost).
        split; [exact Hb|]. split; [exact Hpos|].
        exists pre, (post ++ [x]).
        split; [rewrite Hl, <- app_assoc; reflexivity|].
        split; [exact Hpre|].
        apply Forall_app. split; [exact Hpost|].
        constructor; [|constructor]. rewrite Hb in E.
        clear - E Hx Hpos. RankFacts.score_order.
      * destruct IH as (Hb & Hall). split; [exact Hb|].
        apply Forall_app. split; [exact Hall|].
        constructor; [|constructor]. rewrite Hb in E. exact E.
Qed.

Lemma firstTop_top (l : list Event.t) (pick : ParsedPick) (m : Event.t) :
  firstTop (scoreOf pick) l m ->
  Forall (fun a => (scoreOf pick a <=? scoreOf pick m) = true) l.
Proof.
  intros (pre & post & -> & Hpre & Hpost).
  apply Forall_app. split; [|constructor].
  - eapply Forall_impl; [|exact Hpre]. intros a Ha. cbv beta in *.
    clear - Ha. FloatFacts.float_order.
  - pose proof (scoreEvent_nonNegative toLowerCase normalizeNFD pick m) as Hn.
    clear - Hn. RankFacts.score_order.
  - exact Hpost.
Qed.

Lemma firstTop_candidates (pick : ParsedPick) (events : list Event.t)
    (e : Event.t) :
  firstTop (scoreOf pick) events e ->
  (0 <? scoreOf pick e) = true ->
  firstTop Candidate.score
    (map (candidateOf (scoreOf pick))
       (filter (fun e => 0 <? scoreOf pick e) events))
    (candidateOf (scoreOf pick) e).
Proof.
  intros (pre & post & -> & Hpre & Hpost) Hpos.
  rewrite filter_app. cbn [filter]. rewrite Hpos, map_app. cbn [map].
  eexists _, _. split; [reflexivity|].
  rewrite !Forall_forall in *.
  split; intros c Hc; apply in_map_iff in Hc;
    destruct Hc as (a & <- & Ha); apply filter_In in Ha;
    destruct Ha as [Ha _]; cbn; auto.
Qed.

Lemma simple_event (pick : ParsedPick) (events : list Event.t)
    (r : SimpleResult.t) :
  simple pick events = Some r ->
  SimpleResult.event r
  = bestMatch (scanEvents toLowerCase normalizeNFD pick events)
  /\ SimpleResult.allCandidates r
     = sort (map (candidateOf (scoreOf pick))
               (filter (fun e => 0 <? scoreOf pick e) events)).
Proof.
  unfold findMatchingEventSimple. destruct (players pick); [discriminate|].
  rewrite scanEvents_candidates.
  destruct (bestMatch _); intros [= <-]; cbn; auto.
Qed.

(** The scorer's event heads the scorer's candidates. *)
Lemma simple_head (pick : ParsedPick) (events : list Event.t)
    (r : SimpleResult.t) (e : Event.t) :
  simple pick events = Some r ->
  SimpleResult.event r = Some e ->
  hd_error (SimpleResult.allCandidates r) = Some (candidateOf (scoreOf pick) e).
Proof.
  intros Hr He. destruct (simple_event pick events r Hr) as [Hev Hc].
  rewrite Hc, RankFacts.hd_sort. apply RankFacts.firstMax_firstTop.
  pose proof (scanEvents_bestOf pick events) as Hb. unfold bestOf in Hb.
  rewrite <- Hev, He in Hb. destruct Hb as (_ & Hpos & Htop).
  apply firstTop_candidates; assumption.
Qed.

Lemma candidates_wellScored (pick : ParsedPick) (events : list Event.t) :
  Forall wellScored
    (map (candidateOf (scoreOf pick))
       (filter (fun e => 0 <? scoreOf pick e) events)).
Proof.
  apply Forall_map, Forall_forall. intros e _.
  apply scoreEvent_nonNegative.
Qed.

End ScanFacts.

(** C2. Provided the engine's [toLowerCase] maps the empty string, and it
    only, to the empty string: the score the loop computes for a pick
    and an event is the sum, in this order, of the sport term (0.2 or
    0), the league term (0.1 or 0) and, for each player, the bonus of the
    first rule that fires along the participant pool (0.7, 0.6, 0.5,
    0.4, or 0 when none fires); and for every pick with players and
    every list of events the scorer answers, with a confidence of
    [Math.min(bestScore, 1.0)] for the best of these scores (for a pick
    without players it gives no answer). *)
Theorem lexical_score_spec (toLowerCase normalizeNFD : jsstring -> jsstring) :
  toLowerCase [] = [] ->
  (forall s, toLowerCase s = [] -> s = []) ->
  forall pick : ParsedPick,
    (forall event,
       scoreEvent toLowerCase normalizeNFD pick event
       = Spec.lexicalScore toLowerCase normalizeNFD pick event)
    /\ (forall events,
          players pick <> [] ->
          exists r,
            findMatchingEventSimple toLowerCase normalizeNFD pick events
            = Some r
            /\ SimpleResult.confidence r
               = Math_min (Spec.bestScore toLowerCase normalizeNFD pick events)
                   1.0)
    /\ (forall events,
          players pick = [] ->
          findMatchingEventSimple toLowerCase normalizeNFD pick events = None).
Proof.
  intros H0 H1 pick.
  assert (forall event,
            scoreEvent toLowerCase normalizeNFD pick event
            = Spec.lexicalScore toLowerCase normalizeNFD pick event) as Hs
    by (intros event; apply scoreEvent_lexicalScore; assumption).
  split; [exact Hs|]. split; [|intros events; apply simple_none].
  intros events Hp.
  destruct (simple_some toLowerCase normalizeNFD pick events Hp) as [r Hr].
  exists r. split; [exact Hr|].
  rewrite (simple_confidence_min _ _ _ _ _ Hr). f_equal.
  unfold scanEvents. rewrite fold_scan_bestScore.
  unfold Spec.bestScore. cbn [bestScore]. clear Hr.
  generalize 0%float.
  induction events as [|e l IH]; intros best; cbn [fold_left]; [reflexivity|].
  rewrite Hs. apply IH.
Qed.

Lemma latin1_lower_nonempty (s : jsstring) :
  Latin1.toLowerCase s = [] -> s = [].
Proof. destruct s; [reflexivity|discriminate]. Qed.

Lemma lexical_score_spec_witness :
  Mock.score Mock.galan Mock.tennis1
  = Spec.lexicalScore Latin1.toLowerCase Latin1.normalizeNFD
      Mock.galan Mock.tennis1
  /\ players Mock.galan <> []
  /\ exists r,
       Mock.simple Mock.galan Mock.tennis = Some r
       /\ SimpleResult.confidence r
          = Math_min
              (Spec.bestScore Latin1.toLowerCase Latin1.normalizeNFD
                 Mock.galan Mock.tennis)
              1.0.
Proof.
  destruct (lexical_score_spec Latin1.toLowerCase Latin1.normalizeNFD
              eq_refl latin1_lower_nonempty Mock.galan) as (Hs & Hc & _).
  split; [apply Hs|]. split; [discriminate|].
  apply Hc. discriminate.
Defined.

Section TieBreak.

#[local] Open Scope float_scope.

Variable toLowerCase : jsstring -> jsstring.
Variable normalizeNFD : jsstring -> jsstring.
Variable pick : ParsedPick.
Variable events : list Event.t.

#[local] Abbreviation score := (scoreEvent toLowerCase normalizeNFD pick).
#[local] Abbreviation scored :=
  (map (candidateOf score) (filter (fun e => 0 <? score e) events)).

(** C7. For a pick with players the scorer has an answer.  When two
    events tie at the top score (a score above 0 that no event exceeds),
    the event returned stands no later in the feed than the earlier of
    the two, has that same score, and every event before it scores
    strictly less: it is the earliest of the tied events.  The candidates
    returned are the events scoring above 0, in descending order of
    score, the candidates of any one score in the order of the feed. *)
Theorem tie_break_stable :
  players pick <> [] ->
  exists r,
    findMatchingEventSimple toLowerCase normalizeNFD pick events = Some r
    /\ (forall pre e mid e' post,
          events = pre ++ e :: mid ++ e' :: post ->
          (score e =? score e') = true ->
          (0 <? score e) = true ->
          Forall (fun x => (score x <=? score e) = true) events ->
          exists pre0 e0 post0,
            events = pre0 ++ e0 :: post0
            /\ (List.length pre0 <= List.length pre)%nat
            /\ SimpleResult.event r = Some e0
            /\ (score e0 =? score e) = true
            /\ Forall (fun x => (score x <? score e0) = true) pre0)
    /\ Permutation (SimpleResult.allCandidates r) scored
    /\ StronglySorted descending (SimpleResult.allCandidates r)
    /\ (forall s,
          filter (sameScore s) (SimpleResult.allCandidates r)
          = filter (sameScore s) scored).
Proof.
  intros Hp.
  destruct (simple_some toLowerCase normalizeNFD pick events Hp) as [r Hr].
  exists r. split; [exact Hr|].
  destruct (simple_event _ _ _ _ _ Hr) as [Hev Hc].
  split; [|rewrite Hc; split; [apply RankFacts.sort_perm|split]].
  - intros pre e mid e' post Hl Htie Hpos Htop.
    pose proof (scanEvents_bestOf toLowerCase normalizeNFD pick events) as Hb.
    unfold bestOf in Hb. rewrite <- Hev in Hb.
    destruct (SimpleResult.event r) as [e0|].
    + destruct Hb as (_ & Hpos0 & Hft).
      pose proof (firstTop_top _ _ _ _ _ Hft) as Htop0.
      destruct Hft as (pre0 & post0 & Hl0 & Hpre0 & Hpost0).
      exists pre0, e0, post0.
      assert (In e events) as Hin by (rewrite Hl; apply in_elt).
      assert (In e0 events) as Hin0 by (rewrite Hl0; apply in_elt).
      rewrite Forall_forall in Htop, Htop0.
      pose proof (Htop e0 Hin0) as H1. pose proof (Htop0 e Hin) as H2.
      split; [exact Hl0|]. split; [|split; [reflexivity|split; [|exact Hpre0]]].
      * destruct (Nat.le_gt_cases (List.length pre0) (List.length pre))
          as [Hle|Hgt]; [exact Hle|exfalso].
        assert (nth_error events (List.length pre) = Some e) as Hn.
        { rewrite Hl, nth_error_app2, Nat.sub_diag by apply Nat.le_refl.
          reflexivity. }
        rewrite Hl0, nth_error_app1 in Hn by exact Hgt.
        apply nth_error_In in Hn.
        rewrite Forall_forall in Hpre0. specialize (Hpre0 e Hn).
        clear - Hpre0 H1. FloatFacts.float_order.
      * clear - H1 H2. FloatFacts.float_order.
    + destruct Hb as (_ & Hall). exfalso.
      rewrite Forall_forall in Hall.
      assert (In e events) as Hin by (rewrite Hl; apply in_elt).
      specialize (Hall e Hin). congruence.
  - apply RankFacts.sort_sorted, candidates_wellScored.
  - intros s. apply RankFacts.sort_stable.
Qed.

End TieBreak.

Lemma tie_break_stable_witness :
  players Mock.tennisOnly <> []
  /\ exists r,
       findMatchingEventSimple Latin1.toLowerCase Latin1.normalizeNFD
         Mock.tennisOnly Mock.tennis = Some r
       /\ SimpleResult.event r = Some Mock.tennis1.
Proof.
  split; [discriminate|].
  destruct (tie_break_stable Latin1.toLowerCase Latin1.normalizeNFD
              Mock.tennisOnly Mock.tennis)
    as (r & Hr & Htie & _); [discriminate|].
  exists r. split; [exact Hr|].
  destruct (Htie [] Mock.tennis1 [] Mock.tennis2 [Mock.tennis3; Mock.tennis4])
    as (pre0 & e0 & post0 & Hl & Hlen & Hev & _).
  - reflexivity.
  - vm_compute; reflexivity.
  - vm_compute; reflexivity.
  - repeat constructor; vm_compute; reflexivity.
  - destruct pre0 as [|x pre0]; [|cbn in Hlen; lia].
    injection Hl as <- _. exact Hev.
Defined.

(** ** The resolution policy *)

Section PolicyFacts.

#[local] Open Scope float_scope.

Variable toLowerCase : jsstring -> jsstring.
Variable normalizeNFD : jsstring -> jsstring.

#[local] Abbreviation simple := (findMatchingEventSimple toLowerCase normalizeNFD).
#[local] Abbreviation resolve := (findMatchingEventWithDebug toLowerCase normalizeNFD).

(** C5. An empty event list gives [{ event: null, confidence: 0,
    candidates: [] }] at once: whatever the pick, the key and the remote
    end, no request is added to the log. *)
Theorem empty_events_no_match (pick : ParsedPick) (apiKey : option jsstring)
    (remote : Async.Remote) (log : list LLMRequest) :
  resolve pick [] apiKey remote log
  = ({| MatchResult.event := None; MatchResult.confidence := 0;
        MatchResult.candidates := [] |}, log).
Proof. reflexivity. Qed.

(** What the escalation resolver returns and logs. *)
Lemma findMatchingEventLLM_run (pick : ParsedPick) (events : list Event.t)
    (k : jsstring) (remote : Async.Remote) (log : list LLMRequest) :
  let request := {| req_apiKey := k; req_pick := pick;
                    req_events := summarize 0 (firstn 50 events) |} in
  findMatchingEventLLM pick events k remote log
  = (try_catch (interpretResponse events (remote request)) None,
     log ++ [request]).
Proof. reflexivity. Qed.

(** Whatever the remote end answers, an event selected by the resolver
    is an element of the event list. *)
Lemma selection_within_events (events : list Event.t) (response : ApiOutcome)
    (event : Event.t) :
  try_catch (interpretResponse events response) None = Some event ->
  In event events.
Proof.
  destruct response as [|[|[[| |result]|] rest]]; cbn; try discriminate.
  destruct (inRange _ _); cbn; [|discriminate].
  unfold elementAt.
  destruct (matchIndex result) as [| |[|z|z]|n [i|]]; try discriminate.
  - destruct (0 <=? z)%Z; [|discriminate]. apply nth_error_In.
  - apply nth_error_In.
Qed.

(** C1. For a pick with players and a non-empty event list the scorer
    has an answer [r], and the policy returns it as it is, without any
    request, exactly when its confidence is at least 0.7, or at least 0.5
    with no resolver available.  Otherwise an available resolver receives
    one request; an event it selects is returned with confidence 0.9;
    with no selection, or no resolver, the scorer's answer is returned
    when its confidence is at least 0.3 and [{ event: null,
    confidence: 0 }] with the scorer's candidates when it is not. *)
Theorem resolution_policy (pick : ParsedPick) (events : list Event.t)
    (apiKey : option jsstring) (remote : Async.Remote)
    (log : list LLMRequest) :
  players pick <> [] -> events <> [] ->
  exists r, simple pick events = Some r /\
    let conf := SimpleResult.confidence r in
    let candidates := SimpleResult.allCandidates r in
    let lexical :=
      {| MatchResult.event := SimpleResult.event r;
         MatchResult.confidence := conf;
         MatchResult.candidates := candidates |} in
    let noMatch :=
      {| MatchResult.event := None; MatchResult.confidence := 0;
         MatchResult.candidates := candidates |} in
    let fallback := if 0.3 <=? conf then lexical else noMatch in
    let out := resolve pick events apiKey remote log in
    if (0.7 <=? conf) || ((0.5 <=? conf) && negb (truthy apiKey))
    then out = (lexical, log)
    else match apiKey with
         | Some (c :: k) =>
             let request :=
               {| req_apiKey := c :: k; req_pick := pick;
                  req_events := summarize 0 (firstn 50 events) |} in
             snd out = log ++ [request] /\
             fst out =
               match try_catch (interpretResponse events (remote request)) None with
               | Some event =>
                   {| MatchResult.event := Some event;
                      MatchResult.confidence := 0.9;
                      MatchResult.candidates := candidates |}
               | None => fallback
               end
         | _ => out = (fallback, log)
         end.
Proof.
  intros Hp He.
  destruct (simple_some toLowerCase normalizeNFD pick events Hp) as [r Hr].
  exists r. split; [exact Hr|].
  destruct events as [|e l]; [congruence|].
  unfold findMatchingEventWithDebug. rewrite Hr.
  cbv zeta.
  destruct (0.7 <=? SimpleResult.confidence r) eqn:H7.
  - rewrite (FloatFacts.leb_07_05 _ H7). reflexivity.
  - cbn [orb].
    destruct (0.5 <=? SimpleResult.confidence r) eqn:H5; cbn [andb orb].
    + destruct apiKey as [[|c k]|]; cbn [truthy negb];
        try reflexivity.
      unfold escalate, Async.bind. rewrite findMatchingEventLLM_run.
      cbv zeta.
      destruct (try_catch _ None); split; reflexivity.
    + destruct apiKey as [[|c k]|]; cbn [truthy negb];
        try reflexivity.
      unfold escalate, Async.bind. rewrite findMatchingEventLLM_run.
      cbv zeta.
      destruct (try_catch _ None); split; reflexivity.
Qed.


(** C3, as amended. For a pick without players the scorer answers [null].
    The policy then returns [{ event: null, confidence: 0,
    candidates: [] }] without any request when the event list is empty
    or no resolver is available; with events and a resolver it sends one
    request and returns the event the resolver selects, with confidence
    0.9, or the same empty result when the resolver selects none. *)
Theorem empty_players_policy (pick : ParsedPick) (events : list Event.t)
    (apiKey : option jsstring) (remote : Async.Remote)
    (log : list LLMRequest) :
  players pick = [] ->
  simple pick events = None /\
  let noMatch :=
    {| MatchResult.event := None; MatchResult.confidence := 0;
       MatchResult.candidates := [] |} in
  let out := resolve pick events apiKey remote log in
  match events, apiKey with
  | _ :: _, Some (c :: k) =>
      let request :=
        {| req_apiKey := c :: k; req_pick := pick;
           req_events := summarize 0 (firstn 50 events) |} in
      snd out = log ++ [request] /\
      fst out =
        match try_catch (interpretResponse events (remote request)) None with
        | Some event =>
            {| MatchResult.event := Some event;
               MatchResult.confidence := 0.9;
               MatchResult.candidates := [] |}
        | None => noMatch
        end
  | _, _ => out = (noMatch, log)
  end.
Proof.
  intros Hp. pose proof (simple_none toLowerCase normalizeNFD pick events Hp) as Hs.
  split; [exact Hs|].
  destruct events as [|e l]; [reflexivity|].
  unfold findMatchingEventWithDebug. rewrite Hs. cbv zeta.
  destruct apiKey as [[|c k]|]; try reflexivity.
  unfold escalate, Async.bind. rewrite findMatchingEventLLM_run. cbv zeta.
  destruct (try_catch _ None); split; reflexivity.
Qed.

(** C6. When the resolver is consulted (events, a key, and a scorer
    confidence below 0.7), it is sent one request; an event it selects
    is returned with confidence 0.9 whatever confidence the answer
    reports; and when the remote end fails (rejected promise, no or
    non-text content, text that is not JSON, JSON [null], [matchIndex]
    absent, [null] or out of range), the resolver returns no selection
    and the policy returns normally: the scorer's answer if its
    confidence is at least 0.3, [{ event: null, confidence: 0 }]
    otherwise. *)
Theorem escalation_outcome (pick : ParsedPick) (events : list Event.t)
    (c : N) (k : jsstring) (remote : Async.Remote) (log : list LLMRequest) :
  let request :=
    {| req_apiKey := c :: k; req_pick := pick;
       req_events := summarize 0 (firstn 50 events) |} in
  let simpleResult := simple pick events in
  let candidates :=
    match simpleResult with
    | Some r => SimpleResult.allCandidates r
    | None => []
    end in
  let noMatch :=
    {| MatchResult.event := None; MatchResult.confidence := 0;
       MatchResult.candidates := candidates |} in
  let fallback :=
    match simpleResult with
    | Some r =>
        if 0.3 <=? SimpleResult.confidence r
        then {| MatchResult.event := SimpleResult.event r;
                MatchResult.confidence := SimpleResult.confidence r;
                MatchResult.candidates := candidates |}
        else noMatch
    | None => noMatch
    end in
  let selection := fst (findMatchingEventLLM pick events (c :: k) remote log) in
  let out := resolve pick events (Some (c :: k)) remote log in
  events <> [] ->
  match simpleResult with
  | Some r => (0.7 <=? SimpleResult.confidence r) = false
  | None => True
  end ->
  snd out = log ++ [request] /\
  (forall event, selection = Some event ->
     fst out = {| MatchResult.event := Some event;
                  MatchResult.confidence := 0.9;
                  MatchResult.candidates := candidates |}) /\
  (forall result rest event,
     remote request = Resolved (TextBlock (Parsed result) :: rest) ->
     selection = Some event ->
     MatchResult.confidence (fst out) = 0.9) /\
  (ResolverFailure events (remote request) ->
     selection = None /\ fst out = fallback).
Proof.
  cbv zeta. intros He H7.
  destruct events as [|e l]; [congruence|].
  rewrite findMatchingEventLLM_run. cbv zeta. cbn [fst].
  set (request := {| req_apiKey := c :: k; req_pick := pick;
                     req_events := summarize 0 (firstn 50 (e :: l)) |}).
  assert (resolve pick (e :: l) (Some (c :: k)) remote log
          = escalate pick (e :: l) (Some (c :: k)) (simple pick (e :: l))
              match simple pick (e :: l) with
              | Some r => SimpleResult.allCandidates r
              | None => []
              end remote log) as ->.
  { unfold findMatchingEventWithDebug.
    destruct (simple pick (e :: l)) as [r|]; [|reflexivity].
    rewrite H7. cbn [truthy negb orb andb].
    rewrite Bool.andb_false_r. reflexivity. }
  unfold escalate, Async.bind. rewrite findMatchingEventLLM_run. cbv zeta.
  fold request.
  repeat split.
  - destruct (try_catch _ None); reflexivity.
  - intros event ->. reflexivity.
  - intros result rest event _ ->. reflexivity.
  - destruct H as [| | | | |result rest Hr]; try reflexivity.
    cbn [interpretResponse]. rewrite Hr. reflexivity.
  - assert (try_catch (interpretResponse (e :: l) (remote request)) None = None)
      as ->.
    { destruct H as [| | | | |result rest Hr]; try reflexivity.
      cbn [interpretResponse]. rewrite Hr. reflexivity. }
    unfold fallBack, fromSimple. cbn [fst].
    destruct (simple pick (e :: l)); reflexivity.
Qed.

(** The three shapes of the policy's result: no match; the scorer's
    answer, whose confidence is then at least 0.3; or the event selected
    by the resolver, which was then sent a request. *)
Lemma resolve_cases (pick : ParsedPick) (events : list Event.t)
    (apiKey : option jsstring) (remote : Async.Remote)
    (log : list LLMRequest) :
  let out := resolve pick events apiKey remote log in
  (exists candidates,
     fst out = {| MatchResult.event := None; MatchResult.confidence := 0;
                  MatchResult.candidates := candidates |})
  \/ (exists r,
        simple pick events = Some r /\
        (0.3 <=? SimpleResult.confidence r) = true /\
        fst out = fromSimple r (SimpleResult.allCandidates r))
  \/ (exists k event candidates,
        apiKey = Some k /\
        fst (findMatchingEventLLM pick events k remote log) = Some event /\
        snd out = snd (findMatchingEventLLM pick events k remote log) /\
        fst out = {| MatchResult.event := Some event;
                     MatchResult.confidence := 0.9;
                     MatchResult.candidates := candidates |}).
Proof.
  cbv zeta.
  destruct events as [|e l]; [left; eexists; reflexivity|].
  unfold findMatchingEventWithDebug.
  assert (forall s cands,
            (s = simple pick (e :: l)) ->
            (cands = match s with
                     | Some r => SimpleResult.allCandidates r
                     | None => []
                     end) ->
            let out := escalate pick (e :: l) apiKey s cands remote log in
            (exists candidates,
               fst out = {| MatchResult.event := None;
                            MatchResult.confidence := 0;
                            MatchResult.candidates := candidates |})
            \/ (exists r,
                  simple pick (e :: l) = Some r /\
                  (0.3 <=? SimpleResult.confidence r) = true /\
                  fst out = fromSimple r (SimpleResult.allCandidates r))
            \/ (exists k event candidates,
                  apiKey = Some k /\
                  fst (findMatchingEventLLM pick (e :: l) k remote log) = Some event /\
                  snd out = snd (findMatchingEventLLM pick (e :: l) k remote log) /\
                  fst out = {| MatchResult.event := Some event;
                               MatchResult.confidence := 0.9;
                               MatchResult.candidates := candidates |})) as Hesc.
  { intros s cands Hs Hc. cbv zeta.
    assert ((exists candidates,
               fallBack s cands = {| MatchResult.event := None;
                            MatchResult.confidence := 0;
                            MatchResult.candidates := candidates |})
            \/ (exists r,
                  simple pick (e :: l) = Some r /\
                  (0.3 <=? SimpleResult.confidence r) = true /\
                  fallBack s cands = fromSimple r (SimpleResult.allCandidates r)))
      as Hfb.
    { unfold fallBack. destruct s as [r|]; [|left; eexists; reflexivity].
      destruct (0.3 <=? SimpleResult.confidence r) eqn:H3;
        [|left; eexists; reflexivity].
      right. exists r. subst cands. auto. }
    unfold escalate.
    destruct apiKey as [[|c k]|]; cbn [Async.ret fst];
      try (destruct Hfb as [H|H]; [left|right; left]; exact H).
    unfold Async.bind.
    destruct (findMatchingEventLLM pick (e :: l) (c :: k) remote log)
      as [[event|] log'] eqn:Hllm; cbn [Async.ret fst snd].
    - right; right. exists (c :: k), event, cands.
      rewrite Hllm. auto.
    - destruct Hfb as [H|H]; [left|right; left]; exact H. }
  destruct (simple pick (e :: l)) as [r|] eqn:Hr.
  - destruct ((0.5 <=? SimpleResult.confidence r)
              && ((0.7 <=? SimpleResult.confidence r) || negb (truthy apiKey)))
      eqn:Hacc.
    + right; left. exists r.
      apply Bool.andb_true_iff in Hacc. destruct Hacc as [H5 _].
      split; [reflexivity|]. split; [|reflexivity].
      clear - H5. FloatFacts.float_order.
    + specialize (Hesc (Some r) (SimpleResult.allCandidates r) eq_refl eq_refl).
      exact Hesc.
  - specialize (Hesc None [] eq_refl eq_refl). exact Hesc.
Qed.

(** C10. The policy's result holds no event exactly when its confidence
    is 0, and a result that holds an event has a confidence of at least
    0.3. *)
Theorem confidence_floor (pick : ParsedPick) (events : list Event.t)
    (apiKey : option jsstring) (remote : Async.Remote)
    (log : list LLMRequest) :
  let result := fst (resolve pick events apiKey remote log) in
  (MatchResult.event result = None <->
   (MatchResult.confidence result =? 0) = true)
  /\ (MatchResult.event result <> None ->
      (0.3 <=? MatchResult.confidence result) = true).
Proof.
  cbv zeta.
  destruct (resolve_cases pick events apiKey remote log)
    as [[cands ->]|[(r & Hr & H3 & ->)|(k & event & cands & _ & _ & _ & ->)]];
    cbn.
  - split; [split; reflexivity|congruence].
  - pose proof (simple_confidence _ _ _ _ _ Hr) as Hc.
    destruct (SimpleResult.event r).
    + split; [|auto]. split; [discriminate|].
      intros H0. exfalso. clear - H0 Hc. FloatFacts.float_order.
    + rewrite Hc in H3. discriminate.
  - split; [split; discriminate|reflexivity].
Qed.

Lemma app_one_neq {A} (l : list A) (a : A) : l ++ [a] <> l.
Proof.
  intros H. apply (f_equal (@List.length A)) in H.
  rewrite length_app in H. cbn in H. lia.
Qed.

(** C9, as amended. A result that holds an event has a confidence above
    0; and unless that event was selected by the resolver (that is, when
    no request was sent, or the resolver selected nothing), the entry of
    that event, with its score, is the head of the candidates. *)
Theorem matched_event_heads_candidates (pick : ParsedPick)
    (events : list Event.t) (apiKey : option jsstring)
    (remote : Async.Remote) (log : list LLMRequest) (e : Event.t) :
  MatchResult.event (fst (resolve pick events apiKey remote log)) = Some e ->
  (0 <? MatchResult.confidence (fst (resolve pick events apiKey remote log)))
  = true
  /\ (snd (resolve pick events apiKey remote log) = log
      \/ (exists k, apiKey = Some k
                    /\ fst (findMatchingEventLLM pick events k remote log) = None) ->
      hd_error (MatchResult.candidates (fst (resolve pick events apiKey remote log)))
      = Some (candidateOf (scoreEvent toLowerCase normalizeNFD pick) e)).
Proof.
  destruct (resolve_cases pick events apiKey remote log)
    as [[cands H]|[(r & Hr & H3 & H)|(k & event & cands & Hk & Hsel & Hlog & H)]];
    rewrite H; cbn [MatchResult.event MatchResult.confidence
                    MatchResult.candidates fromSimple].
  - discriminate.
  - intros He. split; [clear - H3; FloatFacts.float_order|].
    intros _. apply (simple_head _ _ _ _ _ _ Hr He).
  - intros _. split; [reflexivity|].
    intros [Hno|(k' & Hk' & Hnone)]; exfalso.
    + rewrite Hlog, findMatchingEventLLM_run in Hno. cbn [snd] in Hno.
      apply app_one_neq in Hno. exact Hno.
    + rewrite Hk in Hk'. injection Hk' as <-. congruence.
Qed.

End PolicyFacts.

(** ** The policy on the mock feed *)

Lemma resolution_policy_witness :
  players Mock.galan <> [] /\ Mock.tennis <> []
  /\ exists r,
       findMatchingEventSimple Latin1.toLowerCase Latin1.normalizeNFD
         Mock.galan Mock.tennis = Some r
       /\ Mock.run (Mock.resolve Mock.galan Mock.tennis Mock.apiKey)
            Mock.unreachable
          = (fromSimple r (SimpleResult.allCandidates r), []).
Proof.
  split; [discriminate|]. split; [discriminate|].
  destruct (resolution_policy Latin1.toLowerCase Latin1.normalizeNFD
              Mock.galan Mock.tennis Mock.apiKey Mock.unreachable [])
    as (r & Hr & H); [discriminate|discriminate|].
  exists r. split; [exact Hr|].
  assert ((0.7 <=? SimpleResult.confidence r)%float = true) as C.
  { assert (Some r = findMatchingEventSimple Latin1.toLowerCase
                       Latin1.normalizeNFD Mock.galan Mock.tennis) as E
      by (symmetry; exact Hr).
    vm_compute in E. injection E as ->. vm_compute; reflexivity. }
  cbv zeta in H. rewrite C in H. exact H.
Defined.

(** C3 as stated does not hold: the mock tennis feed, a pick without
    players, a key and a remote model that answers index 1.  The
    resolver is sent a request and its event comes back with confidence
    0.9. *)
Lemma empty_players_escalates :
  players Mock.noPlayers = [] /\
  MatchResult.event
    (fst (Mock.run (Mock.resolve Mock.noPlayers Mock.tennis Mock.apiKey)
            (Mock.answering 1))) = Some Mock.tennis2 /\
  MatchResult.confidence
    (fst (Mock.run (Mock.resolve Mock.noPlayers Mock.tennis Mock.apiKey)
            (Mock.answering 1))) = 0.9%float /\
  List.length
    (snd (Mock.run (Mock.resolve Mock.noPlayers Mock.tennis Mock.apiKey)
            (Mock.answering 1))) = 1%nat.
Proof. repeat split; vm_compute; reflexivity. Qed.

Lemma empty_players_policy_witness :
  players Mock.noPlayers = [] /\
  Mock.run (Mock.resolve Mock.noPlayers Mock.tennis None) Mock.unreachable
  = ({| MatchResult.event := None; MatchResult.confidence := 0;
        MatchResult.candidates := [] |}, []).
Proof.
  split; [reflexivity|].
  apply (empty_players_policy Latin1.toLowerCase Latin1.normalizeNFD
           Mock.noPlayers Mock.tennis None Mock.unreachable []).
  reflexivity.
Defined.

Lemma escalation_outcome_witness :
  Mock.tennis <> []
  /\ fst (Mock.run (Mock.resolve Mock.djokovic Mock.tennis Mock.apiKey)
            (Mock.answering 1))
     = {| MatchResult.event := Some Mock.tennis2;
          MatchResult.confidence := 0.9;
          MatchResult.candidates := [] |}
  /\ fst (Mock.run (Mock.resolve Mock.djokovic Mock.tennis Mock.apiKey)
            Mock.unreachable)
     = {| MatchResult.event := None;
          MatchResult.confidence := 0;
          MatchResult.candidates := [] |}.
Proof.
  split; [discriminate|]. split.
  - destruct (escalation_outcome Latin1.toLowerCase Latin1.normalizeNFD
                Mock.djokovic Mock.tennis 115%N (lit "k-ant-test")
                (Mock.answering 1) [])
      as (_ & Hsel & _ & _);
      [discriminate|vm_compute; reflexivity|].
    apply (Hsel Mock.tennis2). vm_compute; reflexivity.
  - destruct (escalation_outcome Latin1.toLowerCase Latin1.normalizeNFD
                Mock.djokovic Mock.tennis 115%N (lit "k-ant-test")
                Mock.unreachable [])
      as (_ & _ & _ & Hfail);
      [discriminate|vm_compute; reflexivity|].
    destruct (Hfail (FailRejected _)) as [_ H]. exact H.
Defined.

Lemma matched_event_heads_candidates_witness :
  MatchResult.event
    (fst (Mock.run (Mock.resolve Mock.galan Mock.tennis None) Mock.unreachable))
  = Some Mock.tennis1
  /\ hd_error
       (MatchResult.candidates
          (fst (Mock.run (Mock.resolve Mock.galan Mock.tennis None)
                  Mock.unreachable)))
     = Some (candidateOf (Mock.score Mock.galan) Mock.tennis1).
Proof.
  split; [vm_compute; reflexivity|].
  apply (matched_event_heads_candidates Latin1.toLowerCase Latin1.normalizeNFD
           Mock.galan Mock.tennis None Mock.unreachable [] Mock.tennis1).
  - vm_compute; reflexivity.
  - left. vm_compute; reflexivity.
Defined.

(** C9 as stated does not hold: no name of the mock tennis feed
    resembles the pick, so no event is a candidate; the resolver answers
    index 1 and its event is returned while the candidates are empty. *)
Lemma resolver_event_not_a_candidate :
  MatchResult.event
    (fst (Mock.run (Mock.resolve Mock.djokovic Mock.tennis Mock.apiKey)
            (Mock.answering 1))) = Some Mock.tennis2
  /\ MatchResult.candidates
       (fst (Mock.run (Mock.resolve Mock.djokovic Mock.tennis Mock.apiKey)
               (Mock.answering 1))) = [].
Proof. split; vm_compute; reflexivity. Qed.

(** For an integral [matchIndex] the resolver selects the element at
    that index exactly when the index lies within the whole event list. *)
Lemma integral_index_selection (events : list Event.t) (z : Z)
    (confidence : float) (reasoning : jsstring) (rest : list ContentBlock) :
  try_catch
    (interpretResponse events
       (Resolved
          (TextBlock
             (Parsed {| matchIndex := IdxNum (Int z);
                        llmConfidence := confidence;
                        reasoning := reasoning |}) :: rest)))
    None
  = if ((0 <=? z) && (z <? Z.of_nat (List.length events)))%Z
    then nth_error events (Z.to_nat z)
    else None.
Proof.
  cbn. unfold inRange. cbn.
  destruct (0 <=? z)%Z; cbn; [|reflexivity].
  destruct (z <? Z.of_nat (List.length events))%Z; reflexivity.
Qed.

(** C4, on the code. The feed has 51 events and the resolver is sent the
    first 50; it answers index 50, outside of what it was sent, and the
    policy returns the event at index 50 of the feed with confidence
    0.9. *)
Theorem index_beyond_slice_accepted :
  List.length Mock.longFeed = 51%nat
  /\ map (fun request => List.length (req_events request))
       (snd (Mock.run (Mock.resolve Mock.djokovic Mock.longFeed Mock.apiKey)
               (Mock.answering 50))) = [50%nat]
  /\ MatchResult.event
       (fst (Mock.run (Mock.resolve Mock.djokovic Mock.longFeed Mock.apiKey)
               (Mock.answering 50))) = Some Mock.nba1
  /\ MatchResult.confidence
       (fst (Mock.run (Mock.resolve Mock.djokovic Mock.longFeed Mock.apiKey)
               (Mock.answering 50))) = 0.9%float.
Proof. repeat split; vm_compute; reflexivity. Qed.

(** * Further properties of the matcher *)

Section PolicyExtras.

#[local] Open Scope float_scope.

Variable toLowerCase : jsstring -> jsstring.
Variable normalizeNFD : jsstring -> jsstring.

#[local] Abbreviation simple := (findMatchingEventSimple toLowerCase normalizeNFD).
#[local] Abbreviation resolve := (findMatchingEventWithDebug toLowerCase normalizeNFD).
#[local] Abbreviation score := (scoreEvent toLowerCase normalizeNFD).

(** The candidates of the result are the scorer's, with or without the
    resolver. *)
Lemma resolve_candidates (pick : ParsedPick) (events : list Event.t)
    (apiKey : option jsstring) (remote : Async.Remote)
    (log : list LLMRequest) :
  MatchResult.candidates (fst (resolve pick events apiKey remote log))
  = match events, simple pick events with
    | _ :: _, Some r => SimpleResult.allCandidates r
    | _, _ => []
    end.
Proof.
  destruct events as [|e l]; [reflexivity|].
  unfold findMatchingEventWithDebug.
  assert (forall s cands,
            MatchResult.candidates
              (fst (escalate pick (e :: l) apiKey s cands remote log)) = cands)
    as Hesc.
  { intros s cands. unfold escalate.
    assert (MatchResult.candidates (fallBack s cands) = cands) as Hf.
    { unfold fallBack. destruct s as [r|]; [|reflexivity].
      destruct (0.3 <=? SimpleResult.confidence r); reflexivity. }
    destruct apiKey as [[|c k]|]; cbn [Async.ret fst]; auto.
    unfold Async.bind.
    destruct (findMatchingEventLLM pick (e :: l) (c :: k) remote log)
      as [[event|] log']; cbn [Async.ret fst]; auto. }
  destruct (simple pick (e :: l)) as [r|]; [|apply Hesc].
  destruct ((0.5 <=? SimpleResult.confidence r) && _); [reflexivity|apply Hesc].
Qed.

(** X4. The threshold 0.5 never changes the outcome: for every input
    the policy returns what the procedure with the thresholds 0.7 and 0.3
    alone returns, and sends the same requests. *)
Theorem half_threshold_redundant (pick : ParsedPick) (events : list Event.t)
    (apiKey : option jsstring) (remote : Async.Remote)
    (log : list LLMRequest) :
  resolve pick events apiKey remote log
  = resolveTwoThresholds toLowerCase normalizeNFD pick events apiKey remote log.
Proof.
  destruct events as [|e l]; [reflexivity|].
  unfold findMatchingEventWithDebug, resolveTwoThresholds.
  destruct (simple pick (e :: l)) as [r|]; [|reflexivity].
  destruct (0.7 <=? SimpleResult.confidence r) eqn:H7.
  - rewrite (FloatFacts.leb_07_05 _ H7). reflexivity.
  - cbn [orb].
    destruct (0.5 <=? SimpleResult.confidence r) eqn:H5; [|reflexivity].
    destruct apiKey as [[|c k]|]; cbn [truthy negb andb]; try reflexivity.
    + unfold escalate, fallBack, Async.ret.
      assert ((0.3 <=? SimpleResult.confidence r) = true) as ->
        by (clear - H5; FloatFacts.float_order).
      reflexivity.
    + unfold escalate, fallBack, Async.ret.
      assert ((0.3 <=? SimpleResult.confidence r) = true) as ->
        by (clear - H5; FloatFacts.float_order).
      reflexivity.
Qed.

(** X3. Without a key no request is sent, and the threshold 0.3 alone
    decides: the scorer's answer is returned when its confidence is at
    least 0.3, and otherwise no match with the scorer's candidates. *)
Theorem no_key_floor_decides (pick : ParsedPick) (events : list Event.t)
    (apiKey : option jsstring) (remote : Async.Remote)
    (log : list LLMRequest) :
  truthy apiKey = false ->
  resolve pick events apiKey remote log
  = (match simple pick events with
     | Some r =>
         if 0.3 <=? SimpleResult.confidence r
         then {| MatchResult.event := SimpleResult.event r;
                 MatchResult.confidence := SimpleResult.confidence r;
                 MatchResult.candidates := SimpleResult.allCandidates r |}
         else {| MatchResult.event := None; MatchResult.confidence := 0;
                 MatchResult.candidates := SimpleResult.allCandidates r |}
     | None => {| MatchResult.event := None; MatchResult.confidence := 0;
                  MatchResult.candidates := [] |}
     end, log).
Proof.
  intros Hk.
  destruct events as [|e l].
  - unfold findMatchingEventSimple. destruct (players pick); reflexivity.
  - unfold findMatchingEventWithDebug.
    assert (forall s cands,
              escalate pick (e :: l) apiKey s cands remote log
              = (fallBack s cands, log)) as Hesc
      by (intros s cands; unfold escalate;
          destruct apiKey as [[|c k]|]; (reflexivity || discriminate)).
    destruct (simple pick (e :: l)) as [r|]; [|apply Hesc].
    rewrite Hk. cbn [negb]. rewrite Bool.orb_true_r, Bool.andb_true_r.
    destruct (0.5 <=? SimpleResult.confidence r) eqn:H5.
    + assert ((0.3 <=? SimpleResult.confidence r) = true) as ->
        by (clear - H5; FloatFacts.float_order).
      reflexivity.
    + rewrite Hesc. reflexivity.
Qed.

Lemma Math_min_one_bounds (b : float) :
  (0 <? b) = true ->
  (Math_min b 1.0 <=? 1.0) = true
  /\ (forall t, (t <=? b) = true -> (t <=? 1.0) = true ->
                (t <=? Math_min b 1.0) = true).
Proof.
  intros H. unfold Math_min.
  change (is_nan 1.0) with false. rewrite Bool.orb_false_r.
  unfold is_nan.
  assert ((b =? b) = true) as -> by FloatFacts.float_order.
  cbn [negb].
  destruct (b <? 1.0) eqn:E1.
  - split; [clear - E1; FloatFacts.float_order|auto].
  - destruct (1.0 <? b) eqn:E2; [split; [reflexivity|auto]|].
    destruct (get_sign b); [|split; [reflexivity|auto]].
    split; [clear - H E1 E2; FloatFacts.float_order|auto].
Qed.

(** The best score of the loop is at least the score of every event. *)
Lemma bestScore_top (pick : ParsedPick) (events : list Event.t) (e : Event.t) :
  In e events ->
  (score pick e
   <=? bestScore (scanEvents toLowerCase normalizeNFD pick events)) = true.
Proof.
  intros Hin.
  pose proof (scanEvents_bestOf toLowerCase normalizeNFD pick events) as Hb.
  pose proof (scoreEvent_nonNegative toLowerCase normalizeNFD pick e) as Hn.
  unfold bestOf in Hb.
  destruct (bestMatch _) as [e0|].
  - destruct Hb as (-> & _ & Hft).
    pose proof (firstTop_top _ _ _ _ _ Hft) as Htop.
    rewrite Forall_forall in Htop. apply Htop, Hin.
  - destruct Hb as (-> & Hall).
    rewrite Forall_forall in Hall. specialize (Hall e Hin).
    clear - Hall Hn. RankFacts.score_order.
Qed.

Lemma simple_event_in_feed (pick : ParsedPick) (events : list Event.t)
    (r : SimpleResult.t) (e : Event.t) :
  simple pick events = Some r -> SimpleResult.event r = Some e ->
  In e events /\ bestScore (scanEvents toLowerCase normalizeNFD pick events)
                 = score pick e.
Proof.
  intros Hr He.
  destruct (simple_event _ _ _ _ _ Hr) as [Hev _].
  pose proof (scanEvents_bestOf toLowerCase normalizeNFD pick events) as Hb.
  unfold bestOf in Hb. rewrite <- Hev, He in Hb.
  destruct Hb as (Hs & _ & pre & post & -> & _). split; [apply in_elt|exact Hs].
Qed.

(** X1. The policy never leaves the feed: an event it returns is an
    element of the event list, whether the scorer or the resolver chose
    it; and every candidate it returns is an event of the list paired
    with that event's score, which is above 0. *)
Theorem result_within_feed (pick : ParsedPick) (events : list Event.t)
    (apiKey : option jsstring) (remote : Async.Remote)
    (log : list LLMRequest) :
  (forall e,
     MatchResult.event (fst (resolve pick events apiKey remote log)) = Some e ->
     In e events)
  /\ Forall
       (fun c =>
          In (Candidate.event c) events
          /\ Candidate.score c = score pick (Candidate.event c)
          /\ (0 <? Candidate.score c) = true)
       (MatchResult.candidates (fst (resolve pick events apiKey remote log))).
Proof.
  split.
  - intros e.
    destruct (resolve_cases toLowerCase normalizeNFD pick events apiKey remote log)
      as [[cands H]|[(r & Hr & _ & H)|(k & event & cands & _ & Hsel & _ & H)]];
      rewrite H; cbn [MatchResult.event fromSimple]; [discriminate| |].
    + intros He. apply (simple_event_in_feed _ _ _ _ Hr He).
    + intros [= <-]. rewrite findMatchingEventLLM_run in Hsel.
      apply (selection_within_events _ _ _ Hsel).
  - rewrite resolve_candidates.
    destruct events as [|e0 l]; [constructor|].
    destruct (simple pick (e0 :: l)) as [r|] eqn:Hr; [|constructor].
    destruct (simple_event _ _ _ _ _ Hr) as [_ Hc]. rewrite Hc.
    apply RankFacts.sort_Forall, Forall_forall.
    intros c Hin. apply in_map_iff in Hin. destruct Hin as (e & <- & He).
    apply filter_In in He. destruct He as [He Hpos]. cbn. auto.
Qed.

(** X2. The confidence of every result lies between 0 and 1. *)
Theorem confidence_in_unit_interval (pick : ParsedPick)
    (events : list Event.t) (apiKey : option jsstring)
    (remote : Async.Remote) (log : list LLMRequest) :
  (0 <=? MatchResult.confidence (fst (resolve pick events apiKey remote log)))
  = true
  /\ (MatchResult.confidence (fst (resolve pick events apiKey remote log))
      <=? 1.0) = true.
Proof.
  destruct (resolve_cases toLowerCase normalizeNFD pick events apiKey remote log)
    as [[cands H]|[(r & Hr & H3 & H)|(k & event & cands & _ & _ & _ & H)]];
    rewrite H; cbn [MatchResult.confidence fromSimple];
    [split; reflexivity| |split; reflexivity].
  split; [clear - H3; FloatFacts.float_order|].
  pose proof (simple_confidence _ _ _ _ _ Hr) as Hc.
  rewrite (simple_confidence_min _ _ _ _ _ Hr) in *.
  pose proof (scanEvents_invariant toLowerCase normalizeNFD pick events) as Hi.
  unfold scanInvariant in Hi.
  destruct (bestMatch (scanEvents toLowerCase normalizeNFD pick events)).
  - apply Math_min_one_bounds, Hi.
  - rewrite Hi. reflexivity.
Qed.

(** The score of an event for a pick without players is below 0.5. *)
Lemma score_without_players (pick : ParsedPick) (e : Event.t) :
  players pick = [] -> In (score pick e) contextScores.
Proof.
  intros Hp. unfold scoreEvent, matchPlayers. rewrite Hp. cbn [fold_left].
  unfold sportBonus, leagueBonus, contextScores.
  destruct (sport pick) as [[|c s]|]; destruct (Event.sport e) as [[|d es]|];
    try destruct (str_eqb _ _);
    destruct (league pick) as [[|c' l']|];
    destruct (Event.league e) as [[|d' el]|];
    try destruct (includes _ _); cbn; auto.
Qed.

(** X5. When some event of the feed scores 0.7 or more, the policy
    answers from the scorer alone: no request is sent whatever the key
    and the remote end, and the result holds an event of the feed that
    scores at least as much, with a confidence of at least 0.7. *)
Theorem high_score_never_escalates (pick : ParsedPick)
    (events : list Event.t) (apiKey : option jsstring)
    (remote : Async.Remote) (log : list LLMRequest) (e : Event.t) :
  In e events ->
  (0.7 <=? score pick e) = true ->
  snd (resolve pick events apiKey remote log) = log
  /\ (0.7 <=? MatchResult.confidence (fst (resolve pick events apiKey remote log)))
     = true
  /\ exists e0,
       MatchResult.event (fst (resolve pick events apiKey remote log)) = Some e0
       /\ In e0 events
       /\ (score pick e <=? score pick e0) = true.
Proof.
  intros Hin H7.
  assert (players pick <> []) as Hp.
  { intros Hp. pose proof (score_without_players pick e Hp) as Hc.
    unfold contextScores in Hc. cbn [In] in Hc.
    destruct Hc as [Hc|[Hc|[Hc|[Hc|[]]]]]; rewrite <- Hc in H7;
      vm_compute in H7; discriminate. }
  destruct (simple_some toLowerCase normalizeNFD pick events Hp) as [r Hr].
  pose proof (bestScore_top pick events e Hin) as Htop.
  pose proof (simple_confidence_min _ _ _ _ _ Hr) as Hc.
  assert ((0 <? bestScore (scanEvents toLowerCase normalizeNFD pick events)) = true)
    as Hpos by (clear - Htop H7; FloatFacts.float_order).
  assert ((0.7 <=? SimpleResult.confidence r) = true) as Hconf.
  { rewrite Hc. apply (Math_min_one_bounds _ Hpos); [|reflexivity].
    clear - Htop H7. FloatFacts.float_order. }
  destruct (SimpleResult.event r) as [e0|] eqn:He.
  2:{ pose proof (simple_confidence _ _ _ _ _ Hr) as Hz. rewrite He in Hz.
      rewrite Hz in Hconf. discriminate. }
  destruct (simple_event_in_feed _ _ _ _ Hr He) as [Hin0 Hs0].
  assert (resolve pick events apiKey remote log
          = (fromSimple r (SimpleResult.allCandidates r), log)) as ->.
  { destruct events as [|x l]; [contradiction|].
    unfold findMatchingEventWithDebug. rewrite Hr, Hconf.
    rewrite (FloatFacts.leb_07_05 _ Hconf). reflexivity. }
  cbn [fst snd fromSimple MatchResult.confidence MatchResult.event].
  split; [reflexivity|]. split; [exact Hconf|].
  exists e0. rewrite He. split; [reflexivity|]. split; [exact Hin0|].
  rewrite <- Hs0. exact Htop.
Qed.

(** The flag of the loop over the participants does not depend on the
    score the loop is entered with. *)
Lemma matchParts_flag (playerParts participantParts : list jsstring)
    (s s' : float) :
  snd (matchParts playerParts participantParts s)
  = snd (matchParts playerParts participantParts s').
Proof.
  induction playerParts as [|part rest IH]; [reflexivity|].
  cbn [matchParts].
  destruct (Nat.ltb 2 (List.length part) && somePart participantParts part);
    [reflexivity|exact IH].
Qed.

Lemma matchParticipants_flag (player : jsstring) (participants : list jsstring)
    (s s' : float) (matched : bool) :
  snd (matchParticipants player participants s matched)
  = snd (matchParticipants player participants s' matched).
Proof.
  revert s s' matched.
  induction participants as [|participant rest IH]; intros s s' matched;
    [reflexivity|].
  cbn [matchParticipants].
  destruct matched; [reflexivity|].
  destruct (str_eqb participant player); [reflexivity|].
  destruct (includes participant player && Nat.leb 3 (List.length player));
    [reflexivity|].
  destruct (includes player participant && Nat.leb 3 (List.length participant));
    [reflexivity|].
  pose proof (matchParts_flag (split_space player) (split_space participant) s s')
    as Hf.
  destruct (matchParts (split_space player) (split_space participant) s)
    as [s1 m1].
  destruct (matchParts (split_space player) (split_space participant) s')
    as [s2 m2].
  cbn [snd] in Hf. subst m2. apply IH.
Qed.

Lemma one_bonus_per_player_aux (player : jsstring)
    (participants : list jsstring) (s : float) :
  matchParticipants player participants s false = (s, false)
  \/ snd (matchParticipants player participants s false) = true.
Proof.
  induction participants as [|participant rest IH]; [left; reflexivity|].
  cbn [matchParticipants].
  destruct (str_eqb participant player); [right; reflexivity|].
  destruct (includes participant player && Nat.leb 3 (List.length player));
    [right; reflexivity|].
  destruct (includes player participant && Nat.leb 3 (List.length participant));
    [right; reflexivity|].
  rewrite matchParts_existsb.
  match goal with
  | |- context [existsb ?f ?l] => destruct (existsb f l)
  end.
  - right. rewrite matchParticipants_matched. reflexivity.
  - exact IH.
Qed.

(** X6. A player earns at most one bonus per event, however many
    participants it matches: the loop over the participants either
    leaves the score as it is, with [playerMatched] false, or adds exactly
    one of 0.7, 0.6, 0.5 and 0.4, with [playerMatched] true. *)
Theorem one_bonus_per_player (player : jsstring) (participants : list jsstring)
    (s : float) :
  matchParticipants player participants s false = (s, false)
  \/ exists bonus,
       In bonus bonuses
       /\ matchParticipants player participants s false = (s + bonus, true).
Proof.
  induction participants as [|participant rest IH]; [left; reflexivity|].
  cbn [matchParticipants]. unfold bonuses.
  destruct (str_eqb participant player);
    [right; exists 0.7; cbn; auto|].
  destruct (includes participant player && Nat.leb 3 (List.length player));
    [right; exists 0.6; cbn; auto|].
  destruct (includes player participant && Nat.leb 3 (List.length participant));
    [right; exists 0.5; cbn; auto|].
  rewrite matchParts_existsb.
  match goal with
  | |- context [existsb ?f ?l] => destruct (existsb f l)
  end.
  - right. exists 0.4. split; [cbn; auto|].
    apply matchParticipants_matched.
  - exact IH.
Qed.

(** When no player matches the event, its score is one of the four
    scores that sport and league alone can give. *)
Lemma score_without_match (pick : ParsedPick) (e : Event.t) :
  (forall p, In p (players pick) -> playerMatches toLowerCase normalizeNFD p e = false) ->
  In (score pick e) contextScores.
Proof.
  intros Hno.
  assert (forall names s,
            (forall p, In p names -> playerMatches toLowerCase normalizeNFD p e = false) ->
            matchPlayers toLowerCase normalizeNFD names e s = s) as Hfold.
  { unfold matchPlayers.
    induction names as [|name rest IH]; intros s Hn; [reflexivity|].
    cbn [fold_left].
    assert (playerMatches toLowerCase normalizeNFD name e = false) as Hm
      by (apply Hn; left; reflexivity).
    unfold playerMatches in Hm.
    rewrite (matchParticipants_flag _ _ 0 s) in Hm.
    destruct (one_bonus_per_player_aux
                (normalizePlayerName toLowerCase normalizeNFD name)
                (participantsOf toLowerCase normalizeNFD e) s) as [H|H].
    - rewrite H. cbn [fst]. apply IH. intros p Hp. apply Hn. right. exact Hp.
    - rewrite H in Hm. discriminate. }
  unfold scoreEvent. rewrite Hfold by exact Hno.
  unfold sportBonus, leagueBonus, contextScores.
  destruct (sport pick) as [[|c s]|]; destruct (Event.sport e) as [[|d es]|];
    try destruct (str_eqb _ _);
    destruct (league pick) as [[|c' l']|];
    destruct (Event.league e) as [[|d' el]|];
    try destruct (includes _ _); cbn; auto.
Qed.

(** X7. When no player of the pick matches any event of the feed, every
    event scores what sport and league alone give (0, 0.2, 0.1 or their
    sum) and the scorer's confidence stays below 0.5. *)
Theorem no_player_match_low_confidence (pick : ParsedPick)
    (events : list Event.t) (r : SimpleResult.t) :
  (forall e p, In e events -> In p (players pick) ->
               playerMatches toLowerCase normalizeNFD p e = false) ->
  simple pick events = Some r ->
  Forall (fun e => In (score pick e) contextScores) events
  /\ (SimpleResult.confidence r <? 0.5) = true.
Proof.
  intros Hno Hr.
  assert (forall e, In e events -> In (score pick e) contextScores) as Hall
    by (intros e He; apply score_without_match; intros p Hp; apply (Hno e p He Hp)).
  split; [apply Forall_forall; exact Hall|].
  rewrite (simple_confidence_min _ _ _ _ _ Hr).
  pose proof (scanEvents_bestOf toLowerCase normalizeNFD pick events) as Hb.
  unfold bestOf in Hb.
  destruct (bestMatch _) as [e0|].
  - destruct Hb as (-> & _ & pre & post & Hl & _).
    assert (In e0 events) as Hin by (rewrite Hl; apply in_elt).
    specialize (Hall e0 Hin). unfold contextScores in Hall. cbn [In] in Hall.
    destruct Hall as [H|[H|[H|[H|[]]]]]; rewrite <- H; vm_compute; reflexivity.
  - destruct Hb as (-> & _). vm_compute; reflexivity.
Qed.

Lemma fold_scan_same_scores (p1 p2 : ParsedPick) (events : list Event.t) :
  (forall e, score p1 e = score p2 e) ->
  forall st,
    fold_left (scanEvent toLowerCase normalizeNFD p1) events st
    = fold_left (scanEvent toLowerCase normalizeNFD p2) events st.
Proof.
  intros Hs; induction events as [|e l IH]; intros st; [reflexivity|].
  cbn [fold_left]. rewrite IH. f_equal. unfold scanEvent. rewrite Hs.
  reflexivity.
Qed.

(** X8. Provided the engine's tables leave strings of [a-z], [0-9] and
    U+0020 unchanged: replacing every player name of a pick by its
    normalized form changes neither the score of any event nor the
    scorer's answer. *)
Theorem normalized_names_same_answer :
  (forall s, Basic s -> toLowerCase s = s) ->
  (forall s, Basic s -> normalizeNFD s = s) ->
  forall (pick : ParsedPick) (events : list Event.t),
    (forall e,
       score (normalizedPick toLowerCase normalizeNFD pick) e = score pick e)
    /\ simple (normalizedPick toLowerCase normalizeNFD pick) events
       = simple pick events.
Proof.
  intros Hl Hn pick events.
  assert (forall e,
            score (normalizedPick toLowerCase normalizeNFD pick) e
            = score pick e) as Hs.
  { intros e. unfold scoreEvent, normalizedPick. cbn [players sport league].
    generalize (leagueBonus toLowerCase (league pick) e
                  (sportBonus toLowerCase (sport pick) e 0)).
    unfold matchPlayers.
    induction (players pick) as [|name rest IH]; intros s; [reflexivity|].
    cbn [map fold_left].
    rewrite (normalize_idempotent toLowerCase normalizeNFD Hl Hn name).
    apply IH. }
  split; [exact Hs|].
  unfold findMatchingEventSimple, scanEvents.
  rewrite (fold_scan_same_scores _ _ events Hs).
  unfold normalizedPick at 1. cbn [players].
  destruct (players pick); reflexivity.
Qed.

End PolicyExtras.

(** ** The request sent to the resolver *)

Lemma summarize_nth (events : list Event.t) :
  forall (n i : nat) (s : Summary.t),
    nth_error (summarize n events) i = Some s ->
    Summary.index s = (n + i)%nat
    /\ exists e,
         nth_error events i = Some e
         /\ Summary.sport s = Event.sport e
         /\ Summary.league s = Event.league e
         /\ Summary.description s
            = orElse (Event.description e) (Event.displayName e)
         /\ Summary.participant1 s = Event.participant1 e
         /\ Summary.participant2 s = Event.participant2 e
         /\ Summary.startTime s = Event.startTime e.
Proof.
  induction events as [|e l IH]; intros n i s; cbn [summarize].
  - destruct i; discriminate.
  - destruct i as [|i]; cbn [nth_error].
    + intros [= <-]. cbn. split; [lia|]. exists e. repeat split.
    + intros H. destruct (IH _ _ _ H) as (Hi & e' & He & Hf).
      split; [lia|]. exists e'. split; assumption.
Qed.

Lemma summarize_length (events : list Event.t) (n : nat) :
  List.length (summarize n events) = List.length events.
Proof.
  revert n; induction events as [|e l IH]; intros n; cbn; [reflexivity|].
  rewrite IH. reflexivity.
Qed.

Lemma firstn_nth (A : Type) (l : list A) :
  forall (n i : nat) (a : A),
    nth_error (firstn n l) i = Some a -> nth_error l i = Some a.
Proof.
  induction l as [|x l IH]; intros n i a.
  - rewrite firstn_nil. destruct i; discriminate.
  - destruct n as [|n]; [destruct i; discriminate|].
    destruct i as [|i]; cbn; [auto|apply IH].
Qed.

(** X9. The resolver is sent exactly one request, which holds the pick,
    the key and a summary for each of the first 50 events and no other:
    the summary at position [i] carries the index [i] and the fields of
    the event at position [i] of the feed, its description being the
    event's description or else its display name. *)
Theorem request_summarizes_first_fifty (pick : ParsedPick)
    (events : list Event.t) (k : jsstring) (remote : Async.Remote)
    (log : list LLMRequest) :
  exists request,
    snd (findMatchingEventLLM pick events k remote log) = log ++ [request]
    /\ req_pick request = pick
    /\ req_apiKey request = k
    /\ List.length (req_events request) = Nat.min 50 (List.length events)
    /\ forall i s,
         nth_error (req_events request) i = Some s ->
         Summary.index s = i
         /\ exists e,
              nth_error events i = Some e
              /\ Summary.sport s = Event.sport e
              /\ Summary.league s = Event.league e
              /\ Summary.description s
                 = orElse (Event.description e) (Event.displayName e)
              /\ Summary.participant1 s = Event.participant1 e
              /\ Summary.participant2 s = Event.participant2 e
              /\ Summary.startTime s = Event.startTime e.
Proof.
  eexists. rewrite findMatchingEventLLM_run. cbv zeta. cbn [snd].
  split; [reflexivity|]. cbn [req_pick req_apiKey req_events].
  split; [reflexivity|]. split; [reflexivity|].
  split; [rewrite summarize_length; apply length_firstn|].
  intros i s H. destruct (summarize_nth _ _ _ _ H) as (Hi & e & He & Hf).
  split; [exact Hi|]. exists e. split; [|exact Hf].
  apply (firstn_nth _ _ _ _ _ He).
Qed.

(** X10. One resolution sends at most one request, and none unless there
    are events and a key: the log is left as it is, or extended by the
    one request for the pick and the first 50 events. *)
Theorem at_most_one_request (toLowerCase normalizeNFD : jsstring -> jsstring)
    (pick : ParsedPick) (events : list Event.t) (apiKey : option jsstring)
    (remote : Async.Remote) (log : list LLMRequest) :
  snd (findMatchingEventWithDebug toLowerCase normalizeNFD pick events apiKey
         remote log) = log
  \/ exists c k,
       apiKey = Some (c :: k) /\ events <> []
       /\ snd (findMatchingEventWithDebug toLowerCase normalizeNFD pick events
                 apiKey remote log)
          = log ++ [{| req_apiKey := c :: k; req_pick := pick;
                       req_events := summarize 0 (firstn 50 events) |}].
Proof.
  destruct events as [|e l]; [left; reflexivity|].
  unfold findMatchingEventWithDebug.
  assert (forall s cands,
            snd (escalate pick (e :: l) apiKey s cands remote log) = log
            \/ exists c k,
                 apiKey = Some (c :: k) /\ e :: l <> []
                 /\ snd (escalate pick (e :: l) apiKey s cands remote log)
                    = log ++ [{| req_apiKey := c :: k; req_pick := pick;
                                 req_events := summarize 0 (firstn 50 (e :: l)) |}])
    as Hesc.
  { intros s cands. unfold escalate.
    destruct apiKey as [[|c k]|]; [left; reflexivity| |left; reflexivity].
    right. exists c, k. split; [reflexivity|]. split; [discriminate|].
    unfold Async.bind. rewrite findMatchingEventLLM_run. cbv zeta.
    destruct (try_catch _ None); reflexivity. }
  destruct (findMatchingEventSimple toLowerCase normalizeNFD pick (e :: l))
    as [r|]; [|apply Hesc].
  destruct ((_ <=? _)%float && _); [left; reflexivity|apply Hesc].
Qed.

(** ** The further properties on the mock feed *)

Lemma result_within_feed_witness :
  MatchResult.event
    (fst (Mock.run (Mock.resolve Mock.galan Mock.tennis None) Mock.unreachable))
  = Some Mock.tennis1
  /\ In Mock.tennis1 Mock.tennis.
Proof.
  split; [vm_compute; reflexivity|].
  apply (proj1 (result_within_feed Latin1.toLowerCase Latin1.normalizeNFD
                  Mock.galan Mock.tennis None Mock.unreachable [])).
  vm_compute; reflexivity.
Defined.

Lemma no_key_floor_decides_witness :
  truthy None = false
  /\ Mock.run (Mock.resolve Mock.tennisOnly Mock.tennis None) Mock.unreachable
     = (match Mock.simple Mock.tennisOnly Mock.tennis with
        | Some r =>
            if (0.3 <=? SimpleResult.confidence r)%float
            then {| MatchResult.event := SimpleResult.event r;
                    MatchResult.confidence := SimpleResult.confidence r;
                    MatchResult.candidates := SimpleResult.allCandidates r |}
            else {| MatchResult.event := None; MatchResult.confidence := 0;
                    MatchResult.candidates := SimpleResult.allCandidates r |}
        | None => {| MatchResult.event := None; MatchResult.confidence := 0;
                     MatchResult.candidates := [] |}
        end, []).
Proof.
  split; [reflexivity|].
  apply (no_key_floor_decides Latin1.toLowerCase Latin1.normalizeNFD
           Mock.tennisOnly Mock.tennis None Mock.unreachable []).
  reflexivity.
Defined.

Lemma high_score_never_escalates_witness :
  In Mock.tennis1 Mock.tennis
  /\ (0.7 <=? Mock.score Mock.galan Mock.tennis1)%float = true
  /\ snd (Mock.run (Mock.resolve Mock.galan Mock.tennis Mock.apiKey)
            (Mock.answering 2)) = [].
Proof.
  split; [left; reflexivity|]. split; [vm_compute; reflexivity|].
  apply (high_score_never_escalates Latin1.toLowerCase Latin1.normalizeNFD
           Mock.galan Mock.tennis Mock.apiKey (Mock.answering 2) []
           Mock.tennis1).
  - left; reflexivity.
  - vm_compute; reflexivity.
Defined.

Lemma no_player_match_low_confidence_witness :
  exists r,
    Mock.simple Mock.tennisOnly Mock.tennis = Some r
    /\ (SimpleResult.confidence r <? 0.5)%float = true.
Proof.
  eexists. split; [vm_compute; reflexivity|].
  eapply (no_player_match_low_confidence Latin1.toLowerCase Latin1.normalizeNFD
            Mock.tennisOnly Mock.tennis).
  - intros e p He Hp.
    destruct Hp as [<-|[]].
    destruct He as [<-|[<-|[<-|[<-|[]]]]]; vm_compute; reflexivity.
  - vm_compute; reflexivity.
Defined.

Lemma normalized_names_same_answer_witness :
  Mock.simple (normalizedPick Latin1.toLowerCase Latin1.normalizeNFD Mock.galan)
    Mock.tennis
  = Mock.simple Mock.galan Mock.tennis.
Proof.
  apply (normalized_names_same_answer Latin1.toLowerCase Latin1.normalizeNFD
           latin1_lower_basic latin1_nfd_basic Mock.galan Mock.tennis).
Defined.

Lemma request_summarizes_first_fifty_witness :
  exists request,
    snd (Mock.run (findMatchingEventLLM Mock.djokovic Mock.longFeed
                     (lit "sk-ant-test"))
           Mock.unreachable) = [request]
    /\ List.length (req_events request) = 50%nat
    /\ forall s, nth_error (req_events request) 49 = Some s ->
                 Summary.index s = 49%nat.
Proof.
  destruct (request_summarizes_first_fifty Mock.djokovic Mock.longFeed
              (lit "sk-ant-test") Mock.unreachable [])
    as (request & H1 & _ & _ & H4 & H5).
  exists request. split; [exact H1|]. split; [rewrite H4; reflexivity|].
  intros s Hs. apply (H5 49%nat s Hs).
Defined.

(** * Properties of the URL builder *)

Module SlugFacts.
#[local] Open Scope N_scope.

Lemma lowerAlnum_range (c : N) :
  isLowerAlnum c = true -> (48 <= c /\ c <= 57) \/ (97 <= c /\ c <= 122).
Proof.
  unfold isLowerAlnum. intros H. apply Bool.orb_true_iff in H.
  destruct H as [H|H]; apply Bool.andb_true_iff in H;
    rewrite !N.leb_le in H; lia.
Qed.

Lemma lowerAlnum_not_hyphen (c : N) : isLowerAlnum c = true -> isHyphen c = false.
Proof.
  intros H. apply lowerAlnum_range in H. apply N.eqb_neq. lia.
Qed.

Lemma slugUnit_cases (c : N) :
  slugUnit c = true -> isLowerAlnum c = true \/ c = 45.
Proof.
  unfold slugUnit, isHyphen. intros H. apply Bool.orb_true_iff in H.
  destruct H as [H|H]; [left; exact H|right; apply N.eqb_eq, H].
Qed.

Lemma slugUnit_not_space (c : N) : slugUnit c = true -> isSpace c = false.
Proof.
  intros H. destruct (slugUnit_cases c H) as [Ha| ->];
    [apply StringFacts.lowerAlnum_not_space, Ha|reflexivity].
Qed.

Lemma slugUnit_not_mark (c : N) : slugUnit c = true -> isCombiningMark c = false.
Proof.
  intros H. destruct (slugUnit_cases c H) as [Ha| ->];
    [apply StringFacts.lowerAlnum_not_mark, Ha|reflexivity].
Qed.

Lemma slugUnit_not_slash (c : N) : slugUnit c = true -> c <> 47.
Proof.
  intros H. destruct (slugUnit_cases c H) as [Ha| ->]; [|discriminate].
  apply lowerAlnum_range in Ha. lia.
Qed.

(** *** Runs *)

Lemma replaceRuns_Forall (P : N -> Prop) (inClass : N -> bool) (r : N)
    (inRun : bool) (s : jsstring) :
  P r -> Forall (fun c => inClass c = false -> P c) s ->
  Forall P (replaceRuns inClass r inRun s).
Proof.
  intros Hr H; revert inRun; induction H as [|c s Hc Hs IH]; intros inRun;
    cbn; [constructor|].
  destruct (inClass c) eqn:E.
  - destruct inRun; [apply IH|constructor; [exact Hr|apply IH]].
  - constructor; [apply Hc; reflexivity|apply IH].
Qed.

Lemma replaceRuns_none (inClass : N -> bool) (r : N) (inRun : bool)
    (s : jsstring) :
  Forall (fun c => inClass c = false) s -> replaceRuns inClass r inRun s = s.
Proof.
  intros H; revert inRun; induction H as [|c s Hc Hs IH]; intros inRun;
    cbn; [reflexivity|].
  rewrite Hc, IH. reflexivity.
Qed.

Lemma replaceRuns_hyphenTidy (inRun : bool) (s : jsstring) :
  hyphenTidy inRun (replaceRuns isHyphen 45 inRun s) = true.
Proof.
  revert inRun; induction s as [|c s IH]; intros inRun; cbn; [reflexivity|].
  destruct (isHyphen c) eqn:E.
  - destruct inRun; [apply IH|]. cbn. apply IH.
  - cbn. rewrite E. apply IH.
Qed.

Lemma hyphenTidy_replaceRuns (inRun : bool) (s : jsstring) :
  hyphenTidy inRun s = true -> replaceRuns isHyphen 45 inRun s = s.
Proof.
  revert inRun; induction s as [|c s IH]; intros inRun; cbn; [reflexivity|].
  destruct (isHyphen c) eqn:E.
  - intros H. apply Bool.andb_true_iff in H. destruct H as [Hb Ht].
    destruct inRun; [discriminate|].
    rewrite (IH true Ht). apply N.eqb_eq in E. subst c. reflexivity.
  - intros H. rewrite (IH false H). reflexivity.
Qed.

(** *** The ends *)

Lemma startsWith_nil (s : jsstring) : startsWith s [] = true.
Proof. destruct s; reflexivity. Qed.

Lemma startsWith_one (c : N) (s : jsstring) (x : N) :
  startsWith (c :: s) [x] = (x =? c).
Proof. cbn [startsWith]. rewrite startsWith_nil. apply Bool.andb_true_r. Qed.

Lemma startsWith_app_one (l m : jsstring) (x : N) :
  l <> [] -> startsWith (l ++ m) [x] = startsWith l [x].
Proof.
  destruct l as [|c l]; [congruence|]. intros _. cbn.
  destruct l; destruct m; reflexivity.
Qed.

Lemma endsWith_cons (c d : N) (t : jsstring) (x : N) :
  endsWith (c :: d :: t) [x] = endsWith (d :: t) [x].
Proof.
  unfold endsWith. change (rev (c :: d :: t)) with (rev (d :: t) ++ [c])%list.
  apply startsWith_app_one. cbn. destruct (rev t); discriminate.
Qed.

Lemma endsWith_one (c x : N) : endsWith [c] [x] = (x =? c).
Proof. unfold endsWith. cbn. apply Bool.andb_true_r. Qed.

Lemma dropLeading_Forall (P : N -> Prop) (s : jsstring) :
  Forall P s -> Forall P (dropLeadingHyphen s).
Proof.
  destruct 1 as [|c s Hc Hs]; cbn; [constructor|].
  destruct (isHyphen c); [assumption|constructor; assumption].
Qed.

Lemma dropTrailing_Forall (P : N -> Prop) (s : jsstring) :
  Forall P s -> Forall P (dropTrailingHyphen s).
Proof.
  induction 1 as [|c s Hc Hs IH]; [constructor|].
  destruct s as [|d t].
  - cbn. destruct (isHyphen c); constructor; [assumption|constructor].
  - change (dropTrailingHyphen (c :: d :: t))
      with (c :: dropTrailingHyphen (d :: t)).
    constructor; assumption.
Qed.

Lemma dropLeading_tidy (afterHyphen : bool) (s : jsstring) :
  hyphenTidy afterHyphen s = true -> hyphenTidy true (dropLeadingHyphen s) = true.
Proof.
  destruct s as [|c s]; cbn; [reflexivity|].
  destruct (isHyphen c) eqn:E.
  - intros H. apply Bool.andb_true_iff in H. apply H.
  - intros H. cbn. rewrite E. exact H.
Qed.

Lemma dropTrailing_tidy (afterHyphen : bool) (s : jsstring) :
  hyphenTidy afterHyphen s = true ->
  hyphenTidy afterHyphen (dropTrailingHyphen s) = true.
Proof.
  revert afterHyphen; induction s as [|c s IH]; intros b; [reflexivity|].
  destruct s as [|d t].
  - cbn. destruct (isHyphen c) eqn:E; cbn; [reflexivity|].
    rewrite E. reflexivity.
  - change (dropTrailingHyphen (c :: d :: t))
      with (c :: dropTrailingHyphen (d :: t)).
    cbn [hyphenTidy]. destruct (isHyphen c).
    + intros H. apply Bool.andb_true_iff in H. destruct H as [Hb Ht].
      rewrite Hb. apply (IH true Ht).
    + apply IH.
Qed.

Lemma dropTrailing_end (afterHyphen : bool) (s : jsstring) :
  hyphenTidy afterHyphen s = true ->
  endsWith (dropTrailingHyphen s) [45] = false.
Proof.
  revert afterHyphen; induction s as [|c s IH]; intros b; [reflexivity|].
  destruct s as [|d t].
  - intros _. cbn [dropTrailingHyphen].
    destruct (isHyphen c) eqn:E; [reflexivity|].
    rewrite endsWith_one, N.eqb_sym. exact E.
  - intros H.
    assert (exists b', hyphenTidy b' (d :: t) = true) as [b' Hb'].
    { cbn [hyphenTidy] in H. destruct (isHyphen c).
      - apply Bool.andb_true_iff in H. exists true. apply H.
      - exists false. exact H. }
    specialize (IH b' Hb').
    change (dropTrailingHyphen (c :: d :: t))
      with (c :: dropTrailingHyphen (d :: t)).
    destruct (dropTrailingHyphen (d :: t)) as [|e u] eqn:Eu.
    + rewrite endsWith_one, N.eqb_sym.
      destruct t as [|d' t'].
      * cbn in Eu. destruct (isHyphen d) eqn:Ed; [|discriminate].
        change (c =? 45) with (isHyphen c).
        destruct (isHyphen c) eqn:Ec; [|reflexivity].
        cbn [hyphenTidy] in H. rewrite Ec, Ed in H. cbn in H.
        rewrite Bool.andb_false_r in H. discriminate.
      * change (dropTrailingHyphen (d :: d' :: t'))
          with (d :: dropTrailingHyphen (d' :: t')) in Eu. discriminate.
    + rewrite endsWith_cons. exact IH.
Qed.

Lemma dropLeading_fixed (s : jsstring) :
  startsWith s [45] = false -> dropLeadingHyphen s = s.
Proof.
  destruct s as [|c s]; [reflexivity|].
  rewrite startsWith_one, N.eqb_sym. cbn [dropLeadingHyphen].
  unfold isHyphen. intros ->. reflexivity.
Qed.

Lemma dropTrailing_fixed (s : jsstring) :
  endsWith s [45] = false -> dropTrailingHyphen s = s.
Proof.
  induction s as [|c s IH]; [reflexivity|].
  destruct s as [|d t].
  - rewrite endsWith_one, N.eqb_sym. cbn [dropTrailingHyphen].
    unfold isHyphen. intros ->. reflexivity.
  - rewrite endsWith_cons. intros H.
    change (dropTrailingHyphen (c :: d :: t))
      with (c :: dropTrailingHyphen (d :: t)).
    rewrite (IH H). reflexivity.
Qed.

(** *** No two hyphens in a row *)

Lemma hyphenTidy_spec (afterHyphen : bool) (s : jsstring) :
  hyphenTidy afterHyphen s = true
  <-> includes s [45; 45] = false
      /\ (afterHyphen = true -> startsWith s [45] = false).
Proof.
  revert afterHyphen; induction s as [|c s IH]; intros b.
  - cbn. split; [intros _; split; [reflexivity|intros _; reflexivity]|reflexivity].
  - rewrite startsWith_one.
    change (includes (c :: s) [45; 45])
      with ((45 =? c) && startsWith s [45] || includes s [45; 45]).
    cbn [hyphenTidy].
    rewrite (N.eqb_sym 45 c). change (c =? 45) with (isHyphen c).
    destruct (isHyphen c) eqn:E; cbn [andb orb].
    + rewrite Bool.andb_true_iff, (IH true), Bool.orb_false_iff.
      destruct b; cbn; intuition congruence.
    + rewrite (IH false). intuition congruence.
Qed.

Lemma isSlug_spec (s : jsstring) :
  isSlug s = true
  <-> Forall (fun c => slugUnit c = true) s
      /\ hyphenTidy true s = true
      /\ endsWith s [45] = false.
Proof.
  unfold isSlug. change (lit "-") with [45]. change (lit "--") with [45; 45].
  rewrite !Bool.andb_true_iff, !Bool.negb_true_iff, forallb_forall,
    <- Forall_forall, (hyphenTidy_spec true s).
  intuition.
Qed.

End SlugFacts.

(** ** Slugs *)

Section SlugifyFacts.

#[local] Open Scope N_scope.

Variable toLowerCase : jsstring -> jsstring.
Variable normalizeNFD : jsstring -> jsstring.

#[local] Abbreviation slug := (slugify toLowerCase normalizeNFD).

Lemma slugify_shape (str : option jsstring) :
  Forall (fun c => slugUnit c = true) (slug str)
  /\ hyphenTidy true (slug str) = true
  /\ endsWith (slug str) [45] = false.
Proof.
  destruct str as [[|c s]|];
    [split; [constructor|split; reflexivity] |
     | split; [constructor|split; reflexivity]].
  unfold slugify. split; [|split].
  - apply SlugFacts.dropTrailing_Forall, SlugFacts.dropLeading_Forall.
    apply SlugFacts.replaceRuns_Forall; [reflexivity|].
    eapply Forall_impl; [intros a Ha _; exact Ha|].
    apply SlugFacts.replaceRuns_Forall; [reflexivity|].
    eapply Forall_impl; [|apply StringFacts.filter_Forall].
    intros a Ha Hs. cbv beta in Ha. rewrite Hs, Bool.orb_false_r in Ha.
    exact Ha.
  - apply (SlugFacts.dropTrailing_tidy true), (SlugFacts.dropLeading_tidy false).
    apply SlugFacts.replaceRuns_hyphenTidy.
  - apply (SlugFacts.dropTrailing_end true), (SlugFacts.dropLeading_tidy false).
    apply SlugFacts.replaceRuns_hyphenTidy.
Qed.

(** X11. Whatever the argument and whatever the engine's case and
    decomposition tables, [slugify] returns a slug: code units of
    [a-z], [0-9] and the hyphen only, no hyphen at either end, no two
    hyphens in a row. *)
Theorem slugify_is_slug (str : option jsstring) :
  isSlug (slugify toLowerCase normalizeNFD str) = true.
Proof. apply SlugFacts.isSlug_spec, slugify_shape. Qed.

(** The engine's tables leave strings of [a-z], [0-9] and hyphens
    unchanged. *)
Hypothesis toLowerCase_slug :
  forall s, Forall (fun c => slugUnit c = true) s -> toLowerCase s = s.
Hypothesis normalizeNFD_slug :
  forall s, Forall (fun c => slugUnit c = true) s -> normalizeNFD s = s.

Lemma slugify_fixed (s : jsstring) :
  Forall (fun c => slugUnit c = true) s ->
  hyphenTidy true s = true ->
  endsWith s [45] = false ->
  slug (Some s) = s.
Proof.
  intros Hu Ht He. destruct s as [|c s]; [reflexivity|].
  unfold slugify.
  rewrite (toLowerCase_slug _ Hu), (normalizeNFD_slug _ Hu).
  rewrite (StringFacts.filter_all (fun c => negb (isCombiningMark c))).
  2: { eapply Forall_impl; [|exact Hu]. intros a Ha. cbv beta.
       rewrite (SlugFacts.slugUnit_not_mark a Ha). reflexivity. }
  rewrite (StringFacts.filter_all
             (fun c => isLowerAlnum c || isSpace c || isHyphen c)).
  2: { eapply Forall_impl; [|exact Hu]. intros a Ha. cbv beta.
       rewrite (SlugFacts.slugUnit_not_space a Ha), Bool.orb_false_r.
       exact Ha. }
  rewrite (SlugFacts.replaceRuns_none isSpace).
  2: { eapply Forall_impl; [|exact Hu]. apply SlugFacts.slugUnit_not_space. }
  assert (hyphenTidy false (c :: s) = true) as Hf.
  { apply SlugFacts.hyphenTidy_spec. apply SlugFacts.hyphenTidy_spec in Ht.
    split; [apply Ht|discriminate]. }
  rewrite (SlugFacts.hyphenTidy_replaceRuns false _ Hf).
  rewrite (SlugFacts.dropLeading_fixed (c :: s)).
  - apply SlugFacts.dropTrailing_fixed, He.
  - apply SlugFacts.hyphenTidy_spec in Ht. apply Ht. reflexivity.
Qed.

(** X12. Slugs are fixed points: for any tables of the engine that leave
    strings of [a-z], [0-9] and hyphens unchanged (as Unicode's do),
    [slugify] applied to its own result returns it. *)
Theorem slugify_idempotent (str : option jsstring) :
  slugify toLowerCase normalizeNFD (Some (slugify toLowerCase normalizeNFD str))
  = slugify toLowerCase normalizeNFD str.
Proof.
  destruct (slugify_shape str) as (Hu & Ht & He).
  apply slugify_fixed; assumption.
Qed.

End SlugifyFacts.

(** The Latin-1 tables leave slugs unchanged. *)
Lemma latin1_lower_slug (s : jsstring) :
  Forall (fun c => slugUnit c = true) s -> Latin1.toLowerCase s = s.
Proof.
  induction 1 as [|c s Hc Hs IH]; [reflexivity|].
  change (Latin1.toLowerCase (c :: s))
    with (Latin1.lowerUnit c :: Latin1.toLowerCase s).
  rewrite IH. f_equal. unfold Latin1.lowerUnit.
  assert (c = 45 \/ (48 <= c /\ c <= 57) \/ (97 <= c /\ c <= 122))%N as R.
  { destruct (SlugFacts.slugUnit_cases c Hc) as [Ha|Ha];
      [apply SlugFacts.lowerAlnum_range in Ha|]; lia. }
  replace ((65 <=? c) && (c <=? 90))%N with false
    by (symmetry; apply Bool.andb_false_iff; rewrite !N.leb_gt; lia).
  replace (192 <=? c)%N with false by (symmetry; apply N.leb_gt; lia).
  reflexivity.
Qed.

Lemma latin1_nfd_slug (s : jsstring) :
  Forall (fun c => slugUnit c = true) s -> Latin1.normalizeNFD s = s.
Proof.
  induction 1 as [|c s Hc Hs IH]; [reflexivity|].
  change (Latin1.normalizeNFD (c :: s))
    with (Latin1.decomposeUnit c ++ Latin1.normalizeNFD s)%list.
  rewrite IH. change (c :: s) with ([c] ++ s)%list. f_equal.
  unfold Latin1.decomposeUnit.
  assert (c <= 122)%N as R.
  { destruct (SlugFacts.slugUnit_cases c Hc) as [Ha|Ha];
      [apply SlugFacts.lowerAlnum_range in Ha|]; lia. }
  replace (192 <=? c)%N with false by (symmetry; apply N.leb_gt; lia).
  replace (224 <=? c)%N with false by (symmetry; apply N.leb_gt; lia).
  replace (c =? 255)%N with false by (symmetry; apply N.eqb_neq; lia).
  reflexivity.
Qed.

Lemma slugify_idempotent_witness :
  UrlMock.slugOf (Some (UrlMock.slugOf (Some Mock.joseGarciaAccented)))
  = UrlMock.slugOf (Some Mock.joseGarciaAccented).
Proof.
  apply (slugify_idempotent Latin1.toLowerCase Latin1.normalizeNFD
           latin1_lower_slug latin1_nfd_slug).
Defined.

(** ** Slugs and normalized names *)

Module HyphenateFacts.
#[local] Open Scope N_scope.

(** Replacing white space by a hyphen is replacing it by a space and
    turning spaces into hyphens. *)
Lemma replaceRuns_collapseWs (inRun : bool) (s : jsstring) :
  replaceRuns isSpace 45 inRun s = hyphenate (collapseWs inRun s).
Proof.
  revert inRun; induction s as [|c s IH]; intros inRun; cbn; [reflexivity|].
  destruct (isSpace c) eqn:E.
  - destruct inRun; [apply IH|]. cbn. rewrite IH. reflexivity.
  - cbn. rewrite IH. f_equal.
    destruct (c =? 32) eqn:Ec; [|reflexivity].
    apply N.eqb_eq in Ec. subst c. discriminate.
Qed.

Lemma hyphenate_unit (c : N) :
  basicUnit c = true ->
  isHyphen (if c =? 32 then 45 else c) = isSpace c.
Proof.
  intros Hc. rewrite (StringFacts.basic_isSpace c Hc).
  destruct (c =? 32) eqn:E; [reflexivity|].
  unfold basicUnit in Hc. rewrite E, Bool.orb_false_r in Hc.
  apply SlugFacts.lowerAlnum_not_hyphen, Hc.
Qed.

Lemma hyphenate_tidy (afterSpace : bool) (s : jsstring) :
  Basic s -> tidy afterSpace s = true ->
  hyphenTidy afterSpace (hyphenate s) = true.
Proof.
  intros Hb; revert afterSpace; induction Hb as [|c s Hc Hs IH]; intros b;
    [reflexivity|].
  cbn [hyphenate map hyphenTidy tidy]. rewrite (hyphenate_unit c Hc).
  destruct (isSpace c).
  - intros H. apply Bool.andb_true_iff in H. destruct H as [H Ht].
    apply Bool.andb_true_iff in H. destruct H as [_ Hn].
    rewrite Hn. apply (IH true Ht).
  - apply IH.
Qed.

Lemma tidy_head (s : jsstring) : tidy true s = true -> headNotSpace s.
Proof.
  destruct s as [|c s]; cbn; [auto|].
  destruct (isSpace c); [|reflexivity].
  rewrite Bool.andb_false_r. discriminate.
Qed.

Lemma hyphenate_trimStart (afterSpace : bool) (s : jsstring) :
  Basic s -> tidy afterSpace s = true ->
  dropLeadingHyphen (hyphenate s) = hyphenate (trimStart s).
Proof.
  intros Hb Ht. destruct Hb as [|c s Hc Hs]; [reflexivity|].
  cbn [hyphenate map dropLeadingHyphen trimStart].
  rewrite (hyphenate_unit c Hc). cbn [tidy] in Ht.
  destruct (isSpace c); [|reflexivity].
  apply Bool.andb_true_iff in Ht. destruct Ht as [_ Ht].
  rewrite (StringFacts.trimStart_fixed s (tidy_head s Ht)). reflexivity.
Qed.

Lemma trimEnd_nil_head (c : N) (s : jsstring) :
  trimEnd (c :: s) = [] -> isSpace c = true.
Proof.
  cbn. destruct (trimEnd s); [|discriminate].
  destruct (isSpace c); [reflexivity|discriminate].
Qed.

Lemma hyphenate_trimEnd (afterSpace : bool) (s : jsstring) :
  Basic s -> tidy afterSpace s = true ->
  dropTrailingHyphen (hyphenate s) = hyphenate (trimEnd s).
Proof.
  intros Hb; revert afterSpace; induction Hb as [|c s Hc Hs IH]; intros b Ht;
    [reflexivity|].
  destruct s as [|d t].
  - cbn [hyphenate map dropTrailingHyphen trimEnd].
    rewrite (hyphenate_unit c Hc). destruct (isSpace c); reflexivity.
  - assert (exists b', tidy b' (d :: t) = true) as [b' Hb'].
    { cbn [tidy] in Ht. destruct (isSpace c).
      - apply Bool.andb_true_iff in Ht. exists true. apply Ht.
      - exists false. exact Ht. }
    specialize (IH b' Hb').
    change (hyphenate (c :: d :: t))
      with ((if c =? 32 then 45 else c) :: hyphenate (d :: t)).
    change (hyphenate (d :: t))
      with ((if d =? 32 then 45 else d) :: hyphenate t) at 1.
    change (dropTrailingHyphen
              ((if c =? 32 then 45 else c)
               :: (if d =? 32 then 45 else d) :: hyphenate t))
      with ((if c =? 32 then 45 else c)
            :: dropTrailingHyphen (hyphenate (d :: t))).
    rewrite IH.
    change (trimEnd (c :: d :: t))
      with (match trimEnd (d :: t) with
            | [] => if isSpace c then [] else [c]
            | u => c :: u
            end).
    destruct (trimEnd (d :: t)) as [|e u] eqn:Eu; [|reflexivity].
    apply trimEnd_nil_head in Eu.
    cbn [tidy] in Ht. rewrite Eu in Ht.
    destruct (isSpace c); [|reflexivity].
    rewrite !Bool.andb_false_r in Ht. discriminate.
Qed.

Lemma filter_no_hyphen (s : jsstring) :
  Forall (fun c => c <> 45) s ->
  filter (fun c => isLowerAlnum c || isSpace c || isHyphen c) s
  = filter (fun c => isLowerAlnum c || isSpace c) s.
Proof.
  induction 1 as [|c s Hc Hs IH]; cbn; [reflexivity|].
  replace (isHyphen c) with false by (symmetry; apply N.eqb_neq, Hc).
  rewrite Bool.orb_false_r, IH. reflexivity.
Qed.

Lemma filter_preserves (P : N -> Prop) (p : N -> bool) (s : jsstring) :
  Forall P s -> Forall P (filter p s).
Proof.
  induction 1 as [|c s Hc Hs IH]; cbn; [constructor|].
  destruct (p c); [constructor|]; assumption.
Qed.

End HyphenateFacts.

Section SlugOfName.

Variable toLowerCase : jsstring -> jsstring.
Variable normalizeNFD : jsstring -> jsstring.

(** X13. The slug of a non-empty name without hyphens (none in its
    lower-cased, decomposed form) is its normalized form, as the matcher
    computes it, with every space turned into a hyphen. *)
Theorem slug_of_name_is_normalized_name (name : jsstring) :
  name <> [] ->
  Forall (fun c => c <> 45%N) (normalizeNFD (toLowerCase name)) ->
  slugify toLowerCase normalizeNFD (Some name)
  = hyphenate (normalizePlayerName toLowerCase normalizeNFD name).
Proof.
  intros Hne Hh. destruct name as [|c s]; [congruence|].
  unfold slugify, normalizePlayerName, trim.
  set (x := filter (fun c => negb (isCombiningMark c))
              (normalizeNFD (toLowerCase (c :: s)))).
  assert (Forall (fun c => c <> 45%N) x) as Hx
    by (apply HyphenateFacts.filter_preserves, Hh).
  rewrite (HyphenateFacts.filter_no_hyphen x Hx).
  set (y := filter (fun c => isLowerAlnum c || isSpace c) x).
  rewrite HyphenateFacts.replaceRuns_collapseWs.
  assert (Basic (collapseWs false y)) as Hb
    by apply StringFacts.collapseWs_basic, StringFacts.filter_Forall.
  pose proof (StringFacts.collapseWs_tidy false y) as Ht.
  rewrite (SlugFacts.hyphenTidy_replaceRuns false).
  2: apply HyphenateFacts.hyphenate_tidy; assumption.
  rewrite (HyphenateFacts.hyphenate_trimStart false _ Hb Ht).
  apply (HyphenateFacts.hyphenate_trimEnd false).
  - apply StringFacts.trimStart_Forall, Hb.
  - apply (StringFacts.trimStart_tidy false), Ht.
Qed.

End SlugOfName.

Lemma slug_of_name_is_normalized_name_witness :
  UrlMock.slugOf (Some Mock.joseGarciaAccented)
  = hyphenate (normalizePlayerName Latin1.toLowerCase Latin1.normalizeNFD
                 Mock.joseGarciaAccented).
Proof.
  apply (slug_of_name_is_normalized_name Latin1.toLowerCase Latin1.normalizeNFD
           Mock.joseGarciaAccented).
  - discriminate.
  - vm_compute. repeat constructor; discriminate.
Defined.

(** ** Timestamps *)

Module TimestampFacts.
#[local] Open Scope N_scope.

Lemma digits_app (n m : nat) (a b : jsstring) :
  digits n a = true -> digits m b = true -> digits (n + m) (a ++ b) = true.
Proof.
  unfold digits. rewrite !Bool.andb_true_iff, !Nat.eqb_eq.
  intros [Ha Fa] [Hb Fb]. rewrite length_app, forallb_app, Ha, Hb, Fa, Fb.
  split; reflexivity.
Qed.

Lemma year_table :
  forallb (fun k => digits 4 (numberToString (Some (Z.of_nat k))))
    (seq (N.to_nat 1000) (N.to_nat 9000)) = true.
Proof. vm_compute. reflexivity. Qed.

Lemma field_table :
  forallb (fun k => digits 2 (padStart 2 48 (numberToString (Some (Z.of_nat k)))))
    (seq 0 100) = true.
Proof. vm_compute. reflexivity. Qed.

Lemma year_digits (y : Z) :
  (1000 <= y <= 9999)%Z -> digits 4 (numberToString (Some y)) = true.
Proof.
  intros H. rewrite <- (Z2Nat.id y) by lia.
  apply (proj1 (forallb_forall _ _) year_table). apply in_seq. lia.
Qed.

Lemma field_digits (v : Z) :
  (0 <= v <= 99)%Z ->
  digits 2 (padStart 2 48 (numberToString (Some v))) = true.
Proof.
  intros H. rewrite <- (Z2Nat.id v) by lia.
  apply (proj1 (forallb_forall _ _) field_table). apply in_seq. lia.
Qed.

Lemma fieldsInRange_bounds (y mo da h mi : Z) :
  fieldsInRange (LocalTime y mo da h mi) = true ->
  (0 <= mo <= 11 /\ 1 <= da <= 31 /\ 0 <= h <= 23 /\ 0 <= mi <= 59)%Z.
Proof.
  cbn [fieldsInRange]. rewrite !Bool.andb_true_iff, !Z.leb_le. lia.
Qed.

Lemma formatTimestamp_digits (y mo da h mi : Z) :
  fieldsInRange (LocalTime y mo da h mi) = true ->
  (1000 <= y <= 9999)%Z ->
  digits 12 (formatTimestamp (LocalTime y mo da h mi)) = true.
Proof.
  intros Hr Hy. apply fieldsInRange_bounds in Hr.
  unfold formatTimestamp.
  cbn [getFullYear getMonth getDate getHours getMinutes option_map].
  apply (digits_app 4 8); [apply year_digits, Hy|].
  apply (digits_app 2 6); [apply field_digits; lia|].
  apply (digits_app 2 4); [apply field_digits; lia|].
  apply (digits_app 2 2); apply field_digits; lia.
Qed.

Lemma timestampMatch_app (x t : jsstring) :
  digits 12 t = true -> timestampMatch (x ++ t) = Some t.
Proof.
  unfold digits. rewrite Bool.andb_true_iff, Nat.eqb_eq. intros [Hl Hd].
  unfold timestampMatch. rewrite length_app, Hl.
  replace (Nat.leb 12 (List.length x + 12)) with true
    by (symmetry; apply Nat.leb_le; lia).
  replace (List.length x + 12 - 12)%nat with (List.length x + 0)%nat by lia.
  rewrite skipn_app, Nat.add_0_r, skipn_all.
  replace (List.length x - List.length x)%nat with 0%nat by lia.
  cbn [skipn app]. rewrite Hd. reflexivity.
Qed.

Lemma uintUnits_digits (d : Decimal.uint) :
  Forall (fun c => isDigit c = true) (uintUnits d).
Proof. induction d; cbn; constructor; auto. Qed.

(** Whatever the date, valid or not, a timestamp holds digits, the
    minus sign of a negative year and the letters of [NaN]. *)
Lemma numberToString_units (P : N -> Prop) (v : option Z) :
  (forall c, isDigit c = true -> P c) -> P 45 -> P 78 -> P 97 ->
  Forall P (numberToString v).
Proof.
  intros Hd Hm HN Ha. destruct v as [z|]; cbn [numberToString].
  - destruct (Z.to_int z); [|constructor; [exact Hm|]];
      (eapply Forall_impl; [exact Hd|apply uintUnits_digits]).
  - repeat constructor; assumption.
Qed.

Lemma padStart_units (P : N -> Prop) (n : nat) (fill : N) (s : jsstring) :
  P fill -> Forall P s -> Forall P (padStart n fill s).
Proof.
  intros Hf Hs. unfold padStart. apply Forall_app. split; [|exact Hs].
  apply Forall_forall. intros c Hc. apply repeat_spec in Hc. subst c. exact Hf.
Qed.

Lemma formatTimestamp_units (P : N -> Prop) (d : JsDate) :
  (forall c, isDigit c = true -> P c) -> P 45 -> P 78 -> P 97 ->
  Forall P (formatTimestamp d).
Proof.
  intros Hd Hm HN Ha. unfold formatTimestamp.
  assert (forall v, Forall P (padStart 2 48 (numberToString v))) as Hp.
  { intros v. apply padStart_units; [apply Hd; reflexivity|].
    apply numberToString_units; assumption. }
  apply Forall_app; split; [apply numberToString_units; assumption|].
  apply Forall_app; split; [apply Hp|].
  apply Forall_app; split; [apply Hp|].
  apply Forall_app; split; apply Hp.
Qed.

End TimestampFacts.

(** X14. A valid date whose local year has four digits is formatted as
    exactly twelve decimal digits, the first four being the year, and
    these are what the parser's pattern for the timestamp matches; an
    invalid date is formatted as [NaNNaNNaNNaNNaN], which the pattern
    does not match. *)
Theorem timestamp_twelve_digits (y mo da h mi : Z) :
  fieldsInRange (LocalTime y mo da h mi) = true ->
  (1000 <= y <= 9999)%Z ->
  let t := formatTimestamp (LocalTime y mo da h mi) in
  List.length t = 12%nat
  /\ forallb isDigit t = true
  /\ firstn 4 t = numberToString (Some y)
  /\ timestampMatch t = Some t
  /\ formatTimestamp InvalidDate = lit "NaNNaNNaNNaNNaN"
  /\ timestampMatch (formatTimestamp InvalidDate) = None.
Proof.
  intros Hr Hy t.
  pose proof (TimestampFacts.formatTimestamp_digits y mo da h mi Hr Hy) as Hd.
  fold t in Hd.
  pose proof Hd as Hd'. unfold digits in Hd'.
  apply Bool.andb_true_iff in Hd'. destruct Hd' as [Hl Hf].
  apply Nat.eqb_eq in Hl.
  split; [exact Hl|]. split; [exact Hf|]. split; [|split; [|split]].
  - pose proof (TimestampFacts.year_digits y Hy) as Hy4.
    unfold digits in Hy4. apply Bool.andb_true_iff in Hy4.
    destruct Hy4 as [Hy4 _]. apply Nat.eqb_eq in Hy4.
    unfold t, formatTimestamp. cbn [getFullYear].
    rewrite <- Hy4 at 1. rewrite firstn_app, Nat.sub_diag, firstn_all.
    cbn [firstn]. apply app_nil_r.
  - apply (TimestampFacts.timestampMatch_app [] t Hd).
  - reflexivity.
  - reflexivity.
Qed.

Lemma timestamp_twelve_digits_witness :
  fieldsInRange (LocalTime 2026 1 8 11 0) = true
  /\ timestampMatch (formatTimestamp (LocalTime 2026 1 8 11 0))
     = Some (lit "202602081100").
Proof.
  split; [reflexivity|].
  assert (1000 <= 2026 <= 9999)%Z as Hy by lia.
  exact (proj1 (proj2 (proj2 (proj2
           (timestamp_twelve_digits 2026 1 8 11 0 eq_refl Hy))))).
Defined.

(** ** Constructed URLs *)

Module UrlFacts.
#[local] Open Scope N_scope.

Lemma split_app (sep : N) (a b : jsstring) :
  Forall (fun c => c <> sep) a ->
  split sep (a ++ sep :: b) = a :: split sep b.
Proof.
  induction 1 as [|c a Hc Ha IH]; cbn [app split].
  - rewrite N.eqb_refl. reflexivity.
  - replace (c =? sep) with false by (symmetry; apply N.eqb_neq, Hc).
    rewrite IH. reflexivity.
Qed.

Lemma split_none (sep : N) (a : jsstring) :
  Forall (fun c => c <> sep) a -> split sep a = [a].
Proof.
  induction 1 as [|c a Hc Ha IH]; cbn [split]; [reflexivity|].
  replace (c =? sep) with false by (symmetry; apply N.eqb_neq, Hc).
  rewrite IH. reflexivity.
Qed.

Lemma join_units (P : N -> Prop) (sep : jsstring) (parts : list jsstring) :
  Forall P sep -> Forall (Forall P) parts -> Forall P (join sep parts).
Proof.
  intros Hs. induction 1 as [|p rest Hp Hr IH]; [constructor|].
  destruct rest as [|q rest']; [exact Hp|].
  change (join sep (p :: q :: rest'))
    with (p ++ sep ++ join sep (q :: rest'))%list.
  apply Forall_app; split; [exact Hp|].
  apply Forall_app; split; [exact Hs|exact IH].
Qed.

Lemma startsWith_app_self (a b : jsstring) : startsWith (a ++ b) a = true.
Proof.
  induction a as [|c a IH]; [apply SlugFacts.startsWith_nil|].
  cbn. rewrite N.eqb_refl. exact IH.
Qed.

End UrlFacts.

Section UrlBuilderFacts.

#[local] Open Scope N_scope.

Variable toLowerCase : jsstring -> jsstring.
Variable normalizeNFD : jsstring -> jsstring.
Variable newDate : TimeValue -> JsDate.

#[local] Abbreviation slug := (slugify toLowerCase normalizeNFD).
#[local] Abbreviation eventSlugOf :=
  (createEventSlug toLowerCase normalizeNFD newDate).
#[local] Abbreviation construct :=
  (constructUrl toLowerCase normalizeNFD newDate).

#[local] Abbreviation participantsSlug :=
  (participantsSlug toLowerCase normalizeNFD).

Lemma slug_units (P : N -> Prop) (str : option jsstring) :
  (forall c, slugUnit c = true -> P c) -> Forall P (slug str).
Proof.
  intros H. eapply Forall_impl; [exact H|].
  apply (slugify_shape toLowerCase normalizeNFD str).
Qed.

Lemma participantsSlug_units (P : N -> Prop) (e : Event.t) :
  (forall c, slugUnit c = true -> P c) -> Forall P (participantsSlug e).
Proof.
  intros H. apply UrlFacts.join_units.
  - repeat constructor. apply H. reflexivity.
  - apply Forall_forall. intros p Hp. apply in_map_iff in Hp.
    destruct Hp as (q & <- & _). apply slug_units, H.
Qed.

Lemma createEventSlug_cases (e : Event.t) :
  (eventSlugOf e = participantsSlug e)
  \/ (exists v, eventSlugOf e
                 = (participantsSlug e ++ [45] ++ formatTimestamp (newDate v))%list).
Proof.
  unfold createEventSlug.
  destruct (truthyTime (startTime e)); [|left; reflexivity].
  destruct (startTime e) as [v|]; [|left; reflexivity].
  destruct (formatTimestamp (newDate v)) as [|c t] eqn:E; [left; reflexivity|].
  right. exists v. rewrite E. reflexivity.
Qed.

Lemma createEventSlug_units (P : N -> Prop) (e : Event.t) :
  (forall c, slugUnit c = true -> P c) -> P 78 -> P 97 ->
  Forall P (eventSlugOf e).
Proof.
  intros H HN Ha.
  destruct (createEventSlug_cases e) as [->|[v ->]].
  - apply participantsSlug_units, H.
  - apply Forall_app; split; [apply participantsSlug_units, H|].
    apply Forall_app; split; [repeat constructor; apply H; reflexivity|].
    apply TimestampFacts.formatTimestamp_units; try assumption.
    + intros c Hc. apply H. unfold slugUnit, isLowerAlnum.
      unfold isDigit in Hc. rewrite Hc, Bool.orb_true_r. reflexivity.
    + apply H. reflexivity.
Qed.

Lemma constructUrl_split (e : Event.t) :
  exists path,
    construct e = (BOVADA_BASE_URL ++ path)%list
    /\ path = (lit "/sports/"
               ++ slug (orElse (Event.sport e) (Some (lit "sports")))
               ++ lit "/"
               ++ slug (orElse (Event.league e) (Some (lit "events")))
               ++ lit "/" ++ eventSlugOf e)%list
    /\ split 47 path
       = [[]; lit "sports";
          slug (orElse (Event.sport e) (Some (lit "sports")));
          slug (orElse (Event.league e) (Some (lit "events")));
          eventSlugOf e].
Proof.
  eexists. split; [reflexivity|]. split; [reflexivity|].
  change (split 47
            ([] ++ 47 :: lit "sports" ++ 47
                :: slug (orElse (Event.sport e) (Some (lit "sports"))) ++ 47
                :: slug (orElse (Event.league e) (Some (lit "events"))) ++ 47
                :: eventSlugOf e)%list
          = [[]; lit "sports";
             slug (orElse (Event.sport e) (Some (lit "sports")));
             slug (orElse (Event.league e) (Some (lit "events")));
             eventSlugOf e]).
  rewrite (UrlFacts.split_app 47 []) by constructor.
  rewrite (UrlFacts.split_app 47 (lit "sports"))
    by (repeat constructor; discriminate).
  rewrite (UrlFacts.split_app 47 (slug _))
    by (apply slug_units, SlugFacts.slugUnit_not_slash).
  rewrite (UrlFacts.split_app 47 (slug _))
    by (apply slug_units, SlugFacts.slugUnit_not_slash).
  rewrite UrlFacts.split_none; [reflexivity|].
  apply createEventSlug_units;
    [apply SlugFacts.slugUnit_not_slash|discriminate|discriminate].
Qed.

(** X15. The path of a URL constructed from the data of an event has
    exactly the segments [sports], the slug of the sport ([sports] when
    the event has none), the slug of the league ([events] when it has
    none) and the event slug: no name, league or date, valid or not,
    brings a slash into it. *)
Theorem constructed_url_segments (e : Event.t) :
  exists path,
    constructUrl toLowerCase normalizeNFD newDate e
    = (BOVADA_BASE_URL ++ path)%list
    /\ split 47 path
       = [[]; lit "sports";
          slugify toLowerCase normalizeNFD
            (orElse (Event.sport e) (Some (lit "sports")));
          slugify toLowerCase normalizeNFD
            (orElse (Event.league e) (Some (lit "events")));
          createEventSlug toLowerCase normalizeNFD newDate e].
Proof.
  destruct (constructUrl_split e) as (path & H1 & _ & H3).
  exists path. split; assumption.
Qed.

(** X16. Every URL built is absolute and the link of the event, when it
    has one, decides alone: a link that begins with [http] is returned
    as it is, any other non-empty link is returned behind the
    provider's origin, whatever the other fields of the event; without
    a link the URL begins with the provider's origin. *)
Theorem built_url_absolute (event : FeedEvent.t) :
  let url := buildBovadaUrl toLowerCase normalizeNFD newDate event in
  startsWith url (lit "http") = true
  /\ (forall link,
        FeedEvent.link event = Some link -> link <> [] ->
        url = if startsWith link (lit "http") then link
              else (BOVADA_BASE_URL ++ link)%list)
  /\ (truthy (FeedEvent.link event) = false ->
      startsWith url BOVADA_BASE_URL = true)
  /\ (FeedEvent.link event = Some url
      \/ startsWith url BOVADA_BASE_URL = true)
  /\ (truthy (FeedEvent.link event) = true ->
      forall other,
        FeedEvent.link other = FeedEvent.link event ->
        buildBovadaUrl toLowerCase normalizeNFD newDate other = url).
Proof.
  unfold buildBovadaUrl.
  destruct (FeedEvent.link event) as [[|c l]|] eqn:El; cbn zeta.
  2: { destruct (startsWith (c :: l) (lit "http")) eqn:Eh.
       - split; [exact Eh|].
         split; [intros link [= <-] _; rewrite Eh; reflexivity|].
         split; [discriminate|].
         split; [left; reflexivity|].
         intros _ other ->. rewrite Eh. reflexivity.
       - split; [reflexivity|].
         split; [intros link [= <-] _; rewrite Eh; reflexivity|].
         split; [discriminate|].
         split; [right; apply UrlFacts.startsWith_app_self|].
         intros _ other ->. rewrite Eh. reflexivity. }
  all: assert (startsWith
                 match FeedEvent._raw event with
                 | Some raw =>
                     match FeedEvent._path event with
                     | Some path =>
                         constructUrlFromPath toLowerCase normalizeNFD newDate
                           path raw
                     | None => construct (FeedEvent.event event)
                     end
                 | None => construct (FeedEvent.event event)
                 end BOVADA_BASE_URL = true) as Hb
         by (destruct (FeedEvent._raw event), (FeedEvent._path event);
             apply UrlFacts.startsWith_app_self).
  all: split;
         [destruct (FeedEvent._raw event), (FeedEvent._path event);
          reflexivity|].
  all: split; [intros link [= <-] Hne; congruence || discriminate|].
  all: split; [intros _; exact Hb|].
  all: split; [right; exact Hb|discriminate].
Qed.

End UrlBuilderFacts.

Lemma built_url_absolute_witness :
  buildBovadaUrl Latin1.toLowerCase Latin1.normalizeNFD UrlMock.newDate
    (UrlMock.linked "https://www.bovada.lv/sports/tennis/test")
  = lit "https://www.bovada.lv/sports/tennis/test"
  /\ buildBovadaUrl Latin1.toLowerCase Latin1.normalizeNFD UrlMock.newDate
       (UrlMock.linked "/sports/tennis/atp/buenos-aires/test-match-202602081100")
     = lit "https://www.bovada.lv/sports/tennis/atp/buenos-aires/test-match-202602081100".
Proof.
  split.
  - apply (proj1 (proj2 (built_url_absolute Latin1.toLowerCase
                           Latin1.normalizeNFD UrlMock.newDate
                           (UrlMock.linked
                              "https://www.bovada.lv/sports/tennis/test")))
             (lit "https://www.bovada.lv/sports/tennis/test"));
      [reflexivity|discriminate].
  - apply (proj1 (proj2 (built_url_absolute Latin1.toLowerCase
                           Latin1.normalizeNFD UrlMock.newDate
                           (UrlMock.linked
                              "/sports/tennis/atp/buenos-aires/test-match-202602081100")))
             (lit "/sports/tennis/atp/buenos-aires/test-match-202602081100"));
      [reflexivity|discriminate].
Defined.

(** ** Parsing what was built *)

Section RoundTrip.

#[local] Open Scope N_scope.

Variable toLowerCase : jsstring -> jsstring.
Variable normalizeNFD : jsstring -> jsstring.
Variable newDate : TimeValue -> JsDate.
Variable pathnameOf : jsstring -> option jsstring.

#[local] Abbreviation slug := (slugify toLowerCase normalizeNFD).

Lemma nonEmpty_cons (x : jsstring) (l : list jsstring) :
  x <> [] -> nonEmpty (x :: l) = x :: nonEmpty l.
Proof. destruct x; [congruence|reflexivity]. Qed.

Lemma createEventSlug_timed (e : Event.t) (s : jsstring) (y mo da h mi : Z) :
  Event.startTime e = Some s -> s <> [] ->
  newDate (TimeString s) = LocalTime y mo da h mi ->
  fieldsInRange (LocalTime y mo da h mi) = true ->
  (1000 <= y <= 9999)%Z ->
  createEventSlug toLowerCase normalizeNFD newDate e
  = (participantsSlug toLowerCase normalizeNFD e
     ++ [45] ++ formatTimestamp (LocalTime y mo da h mi))%list.
Proof.
  intros Hs Hne Hd Hr Hy. unfold createEventSlug.
  cbn [startTime Event_SlugSource]. rewrite Hs.
  destruct s as [|c s']; [congruence|].
  cbn [option_map truthyTime]. rewrite Hd.
  pose proof (TimestampFacts.formatTimestamp_digits y mo da h mi Hr Hy) as Ht.
  destruct (formatTimestamp (LocalTime y mo da h mi)); [discriminate|].
  reflexivity.
Qed.

(** X17. Parsing a URL constructed from the data of an event gives back
    what was put into it: the slug of the sport, the slug of the league,
    the event slug, the twelve digits of the start time and the words of
    the participants' slugs.  This holds when the slugs of sport and
    league are not empty, the start time is a valid date with a
    four-digit year, and the URL parser returns the path of a URL made
    of the provider's origin and a path of [a-z], [0-9], hyphens and
    slashes as it is. *)
Theorem parse_constructed_url (e : Event.t) (s : jsstring)
    (y mo da h mi : Z) :
  (forall path,
     startsWith path (lit "/") = true ->
     Forall (fun c => pathUnit c = true) path ->
     pathnameOf (BOVADA_BASE_URL ++ path)%list = Some path) ->
  slugify toLowerCase normalizeNFD
    (orElse (Event.sport e) (Some (lit "sports"))) <> [] ->
  slugify toLowerCase normalizeNFD
    (orElse (Event.league e) (Some (lit "events"))) <> [] ->
  Event.startTime e = Some s -> s <> [] ->
  newDate (TimeString s) = LocalTime y mo da h mi ->
  fieldsInRange (LocalTime y mo da h mi) = true ->
  (1000 <= y <= 9999)%Z ->
  parseBovadaUrl pathnameOf (constructUrl toLowerCase normalizeNFD newDate e)
  = Some {| ParsedUrl.sport :=
              Some (slugify toLowerCase normalizeNFD
                      (orElse (Event.sport e) (Some (lit "sports"))));
            ParsedUrl.league :=
              Some (slugify toLowerCase normalizeNFD
                      (orElse (Event.league e) (Some (lit "events"))));
            ParsedUrl.eventSlug :=
              createEventSlug toLowerCase normalizeNFD newDate e;
            ParsedUrl.timestamp :=
              Some (formatTimestamp (LocalTime y mo da h mi));
            ParsedUrl.participants :=
              split 45 (participantsSlug toLowerCase normalizeNFD e) |}.
Proof.
  intros Hurl HS HL Hs Hne Hd Hr Hy.
  destruct (constructUrl_split toLowerCase normalizeNFD newDate e)
    as (path & H1 & H2 & H3).
  pose proof (createEventSlug_timed e s y mo da h mi Hs Hne Hd Hr Hy) as HE.
  pose proof (TimestampFacts.formatTimestamp_digits y mo da h mi Hr Hy) as Ht.
  set (S := slug (orElse (Event.sport e) (Some (lit "sports")))) in *.
  set (L := slug (orElse (Event.league e) (Some (lit "events")))) in *.
  set (E := createEventSlug toLowerCase normalizeNFD newDate e) in *.
  set (P := participantsSlug toLowerCase normalizeNFD e) in *.
  set (T := formatTimestamp (LocalTime y mo da h mi)) in *.
  assert (forall c, slugUnit c = true -> pathUnit c = true) as Hsu
    by (intros c Hc; unfold pathUnit; rewrite Hc; reflexivity).
  assert (Forall (fun c => pathUnit c = true) path) as Hp.
  { rewrite H2.
    repeat (apply Forall_app; split);
      try (repeat constructor; fail);
      try (apply (slug_units toLowerCase normalizeNFD), Hsu).
    rewrite HE.
    apply Forall_app; split;
      [apply (participantsSlug_units toLowerCase normalizeNFD), Hsu|].
    apply Forall_app; split; [repeat constructor|].
    unfold digits in Ht. apply Bool.andb_true_iff in Ht.
    destruct Ht as [_ Ht]. apply Forall_forall. intros c Hc.
    apply (proj1 (forallb_forall _ _) Ht) in Hc.
    unfold pathUnit, slugUnit, isLowerAlnum. unfold isDigit in Hc.
    rewrite Hc, Bool.orb_true_r. reflexivity. }
  assert (startsWith path (lit "/") = true) as Hh
    by (rewrite H2; reflexivity).
  assert (E <> []) as HEne.
  { rewrite HE. destruct P; discriminate. }
  unfold parseBovadaUrl. rewrite H1, (Hurl path Hh Hp), H3.
  change (nonEmpty ([] :: lit "sports" :: [S; L; E]))
    with (lit "sports" :: nonEmpty [S; L; E]).
  rewrite (nonEmpty_cons S _ HS), (nonEmpty_cons L _ HL),
    (nonEmpty_cons E _ HEne).
  change (nonEmpty []) with (@nil jsstring).
  change (negb (str_eqb (lit "sports") (lit "sports"))) with false.
  cbv iota. cbn [nth_error last].
  assert (timestampMatch E = Some T) as Hm.
  { rewrite HE, app_assoc. apply TimestampFacts.timestampMatch_app, Ht. }
  cbv zeta. rewrite Hm.
  assert (firstn (List.length E - (List.length T + 1)) E = P) as Hf.
  { rewrite HE, !length_app.
    cbn [List.length].
    replace (List.length P + (1 + List.length T) - (List.length T + 1))%nat
      with (List.length P) by lia.
    rewrite firstn_app, Nat.sub_diag, firstn_all. cbn [firstn].
    apply app_nil_r. }
  rewrite Hf. reflexivity.
Qed.

End RoundTrip.

Lemma pathname_of_origin (path : jsstring) :
  startsWith path (lit "/") = true ->
  Forall (fun c => pathUnit c = true) path ->
  UrlMock.pathnameOf (BOVADA_BASE_URL ++ path)%list = Some path.
Proof.
  intros Hh _. unfold UrlMock.pathnameOf.
  rewrite UrlFacts.startsWith_app_self, skipn_app, skipn_all, Nat.sub_diag.
  cbn [app skipn].
  destruct path as [|c p]; [discriminate|].
  change (lit "/") with [47%N] in Hh.
  rewrite SlugFacts.startsWith_one in Hh. apply N.eqb_eq in Hh. subst c.
  reflexivity.
Qed.

Lemma parse_constructed_url_witness :
  option_map ParsedUrl.timestamp
    (parseBovadaUrl UrlMock.pathnameOf
       (constructUrl Latin1.toLowerCase Latin1.normalizeNFD UrlMock.newDate
          UrlMock.galanMidon))
  = Some (Some (lit "202602081100")).
Proof.
  rewrite (parse_constructed_url Latin1.toLowerCase Latin1.normalizeNFD
             UrlMock.newDate UrlMock.pathnameOf UrlMock.galanMidon
             (lit "2026-02-08T11:00:00Z") 2026 1 8 11 0 pathname_of_origin).
  - reflexivity.
  - discriminate.
  - discriminate.
  - reflexivity.
  - discriminate.
  - reflexivity.
  - reflexivity.
  - lia.
Defined.

(** * Properties of the event cache *)

Module MapFacts.

Lemma get_set_same {V} (key : jsstring) (value : V) (m : JsMap.t V) :
  JsMap.get key (JsMap.set key value m) = Some value.
Proof.
  induction m as [|[k v] m IH]; cbn.
  - rewrite (proj2 (StringFacts.str_eqb_eq key key) eq_refl). reflexivity.
  - destruct (str_eqb k key) eqn:E; cbn; rewrite E; [reflexivity|exact IH].
Qed.

Lemma get_set_other {V} (key other : jsstring) (value : V) (m : JsMap.t V) :
  other <> key ->
  JsMap.get other (JsMap.set key value m) = JsMap.get other m.
Proof.
  intros Hne. induction m as [|[k v] m IH]; cbn.
  - destruct (str_eqb key other) eqn:E; [|reflexivity].
    apply StringFacts.str_eqb_eq in E. congruence.
  - destruct (str_eqb k key) eqn:E; cbn.
    + apply StringFacts.str_eqb_eq in E. subst k.
      destruct (str_eqb key other) eqn:E'; [|reflexivity].
      apply StringFacts.str_eqb_eq in E'. congruence.
    + rewrite IH. reflexivity.
Qed.

Lemma set_Forall {V} (P : jsstring * V -> Prop) (key : jsstring) (value : V)
    (m : JsMap.t V) :
  (forall k, P (k, value)) -> Forall P m -> Forall P (JsMap.set key value m).
Proof.
  intros Hv. induction 1 as [|[k v] m Hk Hm IH]; cbn.
  - constructor; [apply Hv|constructor].
  - destruct (str_eqb k key); constructor; auto.
Qed.

Lemma get_Forall {V} (P : jsstring * V -> Prop) (key : jsstring) (v : V)
    (m : JsMap.t V) :
  Forall P m -> JsMap.get key m = Some v -> exists k, P (k, v).
Proof.
  induction 1 as [|[k w] m Hk Hm IH]; cbn; [discriminate|].
  destruct (str_eqb k key); [|exact IH].
  intros [= <-]. exists k. exact Hk.
Qed.

End MapFacts.

Section CacheFacts.

#[local] Open Scope Z_scope.

Variable E : Type.

Lemma refresh_cases (sources : Sources E) (key sport : option jsstring)
    (storeTime : Z) (st : FeedState E) :
  let (events, st') := refreshEvents sources key sport storeTime st in
  eventCache st'
  = JsMap.set (cacheKeyOf sport)
      {| cachedEvents := events; cachedAt := storeTime |} (eventCache st)
  /\ ((truthy key = true
       /\ fromOddsAPI sources sport <> []
       /\ events = fromOddsAPI sources sport
       /\ consulted st' = (consulted st ++ [OddsAPI sport])%list)
      \/ (fromBovadaDirect sources sport <> []
          /\ events = fromBovadaDirect sources sport
          /\ ((truthy key = false
               /\ consulted st' = (consulted st ++ [BovadaDirect sport])%list)
              \/ (truthy key = true
                  /\ fromOddsAPI sources sport = []
                  /\ consulted st'
                     = (consulted st
                        ++ [OddsAPI sport; BovadaDirect sport])%list)))
      \/ (fromBovadaDirect sources sport = []
          /\ events = fromMockEvents sources sport
          /\ ((truthy key = false
               /\ consulted st'
                  = (consulted st
                     ++ [BovadaDirect sport; MockData sport])%list)
              \/ (truthy key = true
                  /\ fromOddsAPI sources sport = []
                  /\ consulted st'
                     = (consulted st
                        ++ [OddsAPI sport; BovadaDirect sport;
                            MockData sport])%list)))).
Proof.
  unfold refreshEvents.
  destruct (truthy key) eqn:Ek; cbv zeta.
  - destruct (fromOddsAPI sources sport) as [|o odds] eqn:Eo;
      cbn [isEmpty].
    + destruct (fromBovadaDirect sources sport) as [|d direct] eqn:Ed;
        cbn [isEmpty eventCache consulted]; (split; [reflexivity|]).
      * right; right. split; [reflexivity|]. split; [reflexivity|].
        right. split; [reflexivity|]. split; [reflexivity|].
        rewrite <- !app_assoc. reflexivity.
      * right; left. split; [discriminate|]. split; [reflexivity|].
        right. split; [reflexivity|]. split; [reflexivity|].
        rewrite <- !app_assoc. reflexivity.
    + cbn [eventCache consulted]. split; [reflexivity|].
      left. split; [reflexivity|]. split; [discriminate|].
      split; reflexivity.
  - change (isEmpty (@nil E)) with true. cbv iota.
    destruct (fromBovadaDirect sources sport) as [|d direct] eqn:Ed;
      cbn [isEmpty eventCache consulted]; (split; [reflexivity|]).
    + right; right. split; [reflexivity|]. split; [reflexivity|].
      left. split; [reflexivity|]. rewrite <- !app_assoc. reflexivity.
    + right; left. split; [discriminate|]. split; [reflexivity|].
      left. split; reflexivity.
Qed.

Lemma refresh_entry (sources : Sources E) (key sport : option jsstring)
    (storeTime : Z) (st : FeedState E) :
  let (events, st') := refreshEvents sources key sport storeTime st in
  JsMap.get (cacheKeyOf sport) (eventCache st')
  = Some {| cachedEvents := events; cachedAt := storeTime |}
  /\ (forall other, other <> cacheKeyOf sport ->
        JsMap.get other (eventCache st') = JsMap.get other (eventCache st)).
Proof.
  pose proof (refresh_cases sources key sport storeTime st) as Hc.
  destruct (refreshEvents sources key sport storeTime st) as [events st'].
  destruct Hc as [-> _].
  split; [apply MapFacts.get_set_same|].
  intros other Ho. apply MapFacts.get_set_other, Ho.
Qed.

(** X18. After every call the cache holds, under the key of the sport
    asked for, exactly the list that the call returned; the entry is the
    one found, younger than five minutes and left as it was together
    with the rest of the state, or a new one stamped with the time of
    the store; the entries of the other keys are as before. *)
Theorem cache_holds_what_was_returned (sources : Sources E)
    (key sport : option jsstring) (checkTime storeTime : Z)
    (st : FeedState E) :
  let (events, st') :=
    fetchBovadaEvents sources key sport checkTime storeTime st in
  (exists entry,
     JsMap.get (cacheKeyOf sport) (eventCache st') = Some entry
     /\ cachedEvents entry = events
     /\ ((st' = st /\ checkTime - cachedAt entry < CACHE_TTL_MS)
         \/ cachedAt entry = storeTime))
  /\ (forall other, other <> cacheKeyOf sport ->
        JsMap.get other (eventCache st') = JsMap.get other (eventCache st)).
Proof.
  unfold fetchBovadaEvents.
  pose proof (refresh_entry sources key sport storeTime st) as Hr.
  destruct (JsMap.get (cacheKeyOf sport) (eventCache st)) as [cached|] eqn:Eg.
  - destruct (checkTime - cachedAt cached <? CACHE_TTL_MS) eqn:Et.
    + split; [|reflexivity].
      exists cached. split; [exact Eg|]. split; [reflexivity|].
      left. split; [reflexivity|apply Z.ltb_lt, Et].
    + destruct (refreshEvents sources key sport storeTime st) as [events st'].
      destruct Hr as [Hg Ho]. split; [|exact Ho].
      eexists. split; [exact Hg|]. split; [reflexivity|right; reflexivity].
  - destruct (refreshEvents sources key sport storeTime st) as [events st'].
    destruct Hr as [Hg Ho]. split; [|exact Ho].
    eexists. split; [exact Hg|]. split; [reflexivity|right; reflexivity].
Qed.


(** X20. With a mock feed that is never empty, no call returns an empty
    list and no entry of the cache holds one, provided none did
    before: an invariant of the cache, which holds at the start, when
    the cache is empty. *)
Theorem never_empty_with_mock_feed (sources : Sources E)
    (key sport : option jsstring) (checkTime storeTime : Z)
    (st : FeedState E) :
  fromMockEvents sources sport <> [] ->
  entriesNonEmpty st ->
  let (events, st') :=
    fetchBovadaEvents sources key sport checkTime storeTime st in
  events <> [] /\ entriesNonEmpty st'.
Proof.
  intros Hm Hst. unfold fetchBovadaEvents.
  assert (let (events, st') := refreshEvents sources key sport storeTime st in
          events <> [] /\ entriesNonEmpty st') as Hr.
  { pose proof (refresh_cases sources key sport storeTime st) as Hc.
    destruct (refreshEvents sources key sport storeTime st) as [events st'].
    destruct Hc as [Hc Hs].
    assert (events <> []) as Hne.
    { destruct Hs as [(_ & Hn & -> & _)|[(Hn & -> & _)|(_ & -> & _)]];
        assumption. }
    split; [exact Hne|]. unfold entriesNonEmpty. rewrite Hc.
    apply MapFacts.set_Forall; [intros k; exact Hne|exact Hst]. }
  destruct (JsMap.get (cacheKeyOf sport) (eventCache st)) as [cached|] eqn:Eg;
    [|exact Hr].
  destruct (checkTime - cachedAt cached <? CACHE_TTL_MS); [|exact Hr].
  split; [|exact Hst].
  destruct (MapFacts.get_Forall _ _ _ _ Hst Eg) as [k Hk]. exact Hk.
Qed.

(** X21. When the cache has no entry younger than five minutes for the
    key, the sources are consulted in the order Odds API, provider, mock
    feed: the Odds API if and only if its key is set, the provider if
    and only if the Odds API was not consulted or gave nothing, the mock
    feed if and only if the provider was consulted and gave nothing; the
    list returned is that of the last source consulted, so that live
    events are never replaced by mock events. *)
Theorem sources_in_order_of_preference (sources : Sources E)
    (key sport : option jsstring) (checkTime storeTime : Z)
    (st : FeedState E) :
  (forall cached,
     JsMap.get (cacheKeyOf sport) (eventCache st) = Some cached ->
     CACHE_TTL_MS <= checkTime - cachedAt cached) ->
  let (events, st') :=
    fetchBovadaEvents sources key sport checkTime storeTime st in
  (truthy key = true
   /\ fromOddsAPI sources sport <> []
   /\ events = fromOddsAPI sources sport
   /\ consulted st' = (consulted st ++ [OddsAPI sport])%list)
  \/ (fromBovadaDirect sources sport <> []
      /\ events = fromBovadaDirect sources sport
      /\ ((truthy key = false
           /\ consulted st' = (consulted st ++ [BovadaDirect sport])%list)
          \/ (truthy key = true
              /\ fromOddsAPI sources sport = []
              /\ consulted st'
                 = (consulted st ++ [OddsAPI sport; BovadaDirect sport])%list)))
  \/ (fromBovadaDirect sources sport = []
      /\ events = fromMockEvents sources sport
      /\ ((truthy key = false
           /\ consulted st'
              = (consulted st ++ [BovadaDirect sport; MockData sport])%list)
          \/ (truthy key = true
              /\ fromOddsAPI sources sport = []
              /\ consulted st'
                 = (consulted st
                    ++ [OddsAPI sport; BovadaDirect sport;
                        MockData sport])%list))).
Proof.
  intros Hstale. unfold fetchBovadaEvents.
  pose proof (refresh_cases sources key sport storeTime st) as Hc.
  destruct (JsMap.get (cacheKeyOf sport) (eventCache st)) as [cached|] eqn:Eg.
  - specialize (Hstale cached eq_refl).
    replace (checkTime - cachedAt cached <? CACHE_TTL_MS) with false
      by (symmetry; apply Z.ltb_ge, Hstale).
    destruct (refreshEvents sources key sport storeTime st) as [events st'].
    apply Hc.
  - destruct (refreshEvents sources key sport storeTime st) as [events st'].
    apply Hc.
Qed.

End CacheFacts.


Lemma never_empty_with_mock_feed_witness :
  fst (fetchBovadaEvents CacheMock.sources None (Some (lit "tennis"))
         0 0 CacheMock.start) <> [].
Proof.
  pose proof (never_empty_with_mock_feed FeedEvent.t CacheMock.sources None
                (Some (lit "tennis")) 0 0 CacheMock.start) as H.
  destruct (fetchBovadaEvents CacheMock.sources None (Some (lit "tennis"))
              0 0 CacheMock.start) as [events st'].
  apply H; [discriminate|constructor].
Defined.

Lemma sources_in_order_of_preference_witness :
  let (events, st') :=
    fetchBovadaEvents CacheMock.sources Mock.apiKey (Some (lit "Tennis"))
      0 0 CacheMock.start in
  events = CacheMock.tennis
  /\ consulted st'
     = [OddsAPI (Some (lit "Tennis")); BovadaDirect (Some (lit "Tennis"));
        MockData (Some (lit "Tennis"))].
Proof.
  pose proof (sources_in_order_of_preference FeedEvent.t CacheMock.sources
                Mock.apiKey (Some (lit "Tennis")) 0 0 CacheMock.start) as H.
  destruct (fetchBovadaEvents CacheMock.sources Mock.apiKey
              (Some (lit "Tennis")) 0 0 CacheMock.start) as [events st'].
  destruct H as [(_ & Ho & _)|[(Hd & _)|(_ & He & [(Hk & _)|(_ & _ & Hl)])]].
  - intros cached Hc. discriminate Hc.
  - exfalso. apply Ho. reflexivity.
  - exfalso. apply Hd. reflexivity.
  - discriminate Hk.
  - split; [exact He|exact Hl].
Defined.

(** * Properties of the provider's feed *)

Section ProviderFacts.

Variable toLowerCase : jsstring -> jsstring.
Variable normalizeNFD : jsstring -> jsstring.
Variable newDate : TimeValue -> JsDate.
Variable toISOString : TimeValue -> jsstring.

#[local] Abbreviation feed := (feedEvent newDate toISOString).
#[local] Abbreviation push := (pushEvents newDate toISOString).
#[local] Abbreviation groupsLoop := (parseGroups newDate toISOString).
#[local] Abbreviation parse := (parseBovadaResponse newDate toISOString).

(** The path array of a group: [group.path || []]. *)
#[local] Abbreviation pathOf :=
  (fun group : Group.t =>
     match Group.path group with
     | Some p => p
     | None => []
     end).

Lemma isoStartTime_throw (event : RawEvent.t) (t : TimeValue) :
  truthyTime (RawEvent.startTime event) = true ->
  RawEvent.startTime event = Some t ->
  newDate t = InvalidDate ->
  isoStartTime newDate toISOString (RawEvent.startTime event) = Throw.
Proof.
  intros Ht Hs Hd. unfold isoStartTime. rewrite Ht, Hs, Hd. reflexivity.
Qed.

Lemma isoStartTime_normal (event : RawEvent.t) :
  startTimeReadable newDate event ->
  exists v, isoStartTime newDate toISOString (RawEvent.startTime event)
            = Normal v.
Proof.
  unfold startTimeReadable, isoStartTime. intros H.
  destruct (truthyTime (RawEvent.startTime event)); [|eexists; reflexivity].
  destruct (RawEvent.startTime event) as [t|]; [|eexists; reflexivity].
  specialize (H eq_refl t eq_refl).
  destruct (newDate t); [congruence|eexists; reflexivity].
Qed.

Lemma feed_throw (sport : jsstring) (group : Group.t)
    (pathInfo : list PathPart.t) (event : RawEvent.t) (t : TimeValue) :
  truthyTime (RawEvent.startTime event) = true ->
  RawEvent.startTime event = Some t ->
  newDate t = InvalidDate ->
  feed sport group pathInfo event = Throw.
Proof.
  intros Ht Hs Hd. unfold feedEvent.
  rewrite (isoStartTime_throw event t Ht Hs Hd). reflexivity.
Qed.

Lemma feed_normal (sport : jsstring) (group : Group.t)
    (pathInfo : list PathPart.t) (event : RawEvent.t) :
  startTimeReadable newDate event ->
  exists e, feed sport group pathInfo event = Normal e.
Proof.
  intros H. unfold feedEvent.
  destruct (isoStartTime_normal event H) as [v ->]. eexists; reflexivity.
Qed.

Lemma push_throw (sport : jsstring) (group : Group.t)
    (pathInfo : list PathPart.t) (rawEvents : list RawEvent.t)
    (event : RawEvent.t) :
  In event rawEvents ->
  feed sport group pathInfo event = Throw ->
  forall events, push sport group pathInfo rawEvents events = Throw.
Proof.
  intros Hin Ht. induction rawEvents as [|r rest IH]; [destruct Hin|].
  intros events. cbn [pushEvents].
  destruct Hin as [->|Hin]; [rewrite Ht; reflexivity|].
  destruct (feed sport group pathInfo r); [apply (IH Hin)|reflexivity].
Qed.

Lemma groupsLoop_throw (sport : jsstring) (groups : list Group.t)
    (group : Group.t) (rawEvents : list RawEvent.t) (event : RawEvent.t) :
  In group groups ->
  Group.events group = Some rawEvents ->
  In event rawEvents ->
  feed sport group (pathOf group) event = Throw ->
  forall events, groupsLoop sport groups events = Throw.
Proof.
  intros Hg He Hin Ht. induction groups as [|g rest IH]; [destruct Hg|].
  intros events. cbn [parseGroups].
  destruct Hg as [->|Hg].
  - rewrite He, (push_throw sport group _ rawEvents event Hin Ht).
    reflexivity.
  - destruct (Group.events g) as [l|]; [|apply (IH Hg)].
    destruct (pushEvents newDate toISOString sport g _ l events);
      [apply (IH Hg)|reflexivity].
Qed.

Lemma push_normal (sport : jsstring) (group : Group.t)
    (pathInfo : list PathPart.t) (rawEvents : list RawEvent.t) :
  Forall (startTimeReadable newDate) rawEvents ->
  forall events,
  exists pushed,
    push sport group pathInfo rawEvents events = Normal (events ++ pushed)%list
    /\ Forall2 (fun e raw => feed sport group pathInfo raw = Normal e)
         pushed rawEvents.
Proof.
  induction 1 as [|r rest Hr Hrest IH]; intros events.
  - exists []. rewrite app_nil_r. split; [reflexivity|constructor].
  - cbn [pushEvents].
    destruct (feed_normal sport group pathInfo r Hr) as [e He]. rewrite He.
    destruct (IH (events ++ [e])%list) as (pushed & Hp & Hf).
    exists (e :: pushed). rewrite Hp, <- app_assoc.
    split; [reflexivity|constructor; assumption].
Qed.

Lemma Forall2_map_pair (group : Group.t) (P : FeedEvent.t -> Group.t * RawEvent.t -> Prop)
    (es : list FeedEvent.t) (raws : list RawEvent.t) :
  Forall2 (fun e raw => P e (group, raw)) es raws ->
  Forall2 P es (map (pair group) raws).
Proof. induction 1; cbn [map]; constructor; assumption. Qed.

Lemma rawEventsOf_grouped (groups : list Group.t) :
  map snd (groupedRawEvents groups) = rawEventsOf groups.
Proof.
  unfold groupedRawEvents, rawEventsOf.
  induction groups as [|g rest IH]; [reflexivity|].
  cbn [flat_map]. rewrite map_app, IH. f_equal.
  destruct (Group.events g) as [l|]; [|reflexivity].
  rewrite map_map. cbn [snd]. apply map_id.
Qed.

Lemma groupsLoop_normal (sport : jsstring) (groups : list Group.t) :
  Forall (startTimeReadable newDate) (rawEventsOf groups) ->
  forall events,
  exists pushed,
    groupsLoop sport groups events = Normal (events ++ pushed)%list
    /\ Forall2
         (fun e (held : Group.t * RawEvent.t) =>
            feed sport (fst held) (pathOf (fst held)) (snd held) = Normal e)
         pushed (groupedRawEvents groups).
Proof.
  induction groups as [|g rest IH]; intros Hall events.
  - exists []. rewrite app_nil_r. split; [reflexivity|constructor].
  - unfold rawEventsOf in Hall. cbn [flat_map] in Hall.
    apply Forall_app in Hall. destruct Hall as [Hg Hrest].
    cbn [parseGroups]. unfold groupedRawEvents. cbn [flat_map].
    destruct (Group.events g) as [l|] eqn:El.
    + destruct (push_normal sport g (pathOf g) l Hg events)
        as (pushed & Hp & Hf).
      rewrite Hp.
      destruct (IH Hrest (events ++ pushed)%list) as (pushed' & Hp' & Hf').
      exists (pushed ++ pushed')%list. rewrite Hp', <- app_assoc.
      split; [reflexivity|]. apply Forall2_app; [|exact Hf'].
      apply Forall2_map_pair. exact Hf.
    + destruct (IH Hrest events) as (pushed' & Hp' & Hf').
      exists pushed'. split; [exact Hp'|exact Hf'].
Qed.

Lemma fetchSport_invalid_start_time (web : Web) (sport path : jsstring)
    (groups : list Group.t) (event : RawEvent.t) (t : TimeValue)
    (log : list Target) :
  sportPaths (toLowerCase sport) = OwnPath path ->
  web (SportPage path) = Body (Groups groups) ->
  In event (rawEventsOf groups) ->
  truthyTime (RawEvent.startTime event) = true ->
  RawEvent.startTime event = Some t ->
  newDate t = InvalidDate ->
  parse (Groups groups) sport = Throw
  /\ fetchSport toLowerCase newDate toISOString web sport log
     = ([], (log ++ [SportPage path])%list).
Proof.
  intros Hp Hw Hin Ht Hs Hd.
  assert (parse (Groups groups) sport = Throw) as Hthrow.
  { unfold rawEventsOf in Hin. apply in_flat_map in Hin.
    destruct Hin as (group & Hg & Hin).
    destruct (Group.events group) as [l|] eqn:El; [|destruct Hin].
    apply (groupsLoop_throw sport groups group l event Hg El Hin).
    apply (feed_throw sport group _ event t Ht Hs Hd). }
  split; [exact Hthrow|].
  unfold fetchSport. rewrite Hp, Hw, Hthrow. reflexivity.
Qed.

(** X22. One event whose start time is not a valid date costs the whole
    answer: [toISOString] throws, the exception leaves the parser and is
    caught by the fetch, which returns no event at all for the sport
    (so that the feed falls back on mock events although the provider
    answered). *)
Theorem invalid_start_time_discards_answer (web : Web) (sport path : jsstring)
    (groups : list Group.t) (event : RawEvent.t) (t : TimeValue)
    (log : list Target) :
  sportPaths (toLowerCase sport) = OwnPath path ->
  web (SportPage path) = Body (Groups groups) ->
  In event (rawEventsOf groups) ->
  truthyTime (RawEvent.startTime event) = true ->
  RawEvent.startTime event = Some t ->
  newDate t = InvalidDate ->
  parseBovadaResponse newDate toISOString (Groups groups) sport = Throw
  /\ fetchSport toLowerCase newDate toISOString web sport log
     = ([], (log ++ [SportPage path])%list).
Proof.
  intros Hp Hw Hin Ht Hs Hd.
  apply (fetchSport_invalid_start_time web sport path groups event t log);
    assumption.
Qed.

(** X23. When every start time of the answer is a valid date or absent,
    the parser returns normally, with one event for each raw event of
    the groups that have events, in the order of the answer, each being
    the object built from that raw event and from the group that holds
    it (its league and its path), and carrying the raw event and that
    path. *)
Theorem readable_answer_parsed_in_order (sport : jsstring)
    (groups : list Group.t) :
  Forall (startTimeReadable newDate) (rawEventsOf groups) ->
  exists events,
    parseBovadaResponse newDate toISOString (Groups groups) sport
    = Normal events
    /\ Forall2
         (fun e (held : Group.t * RawEvent.t) =>
            feedEvent newDate toISOString sport (fst held)
              (match Group.path (fst held) with
               | Some p => p
               | None => []
               end)
              (snd held)
            = Normal e)
         events (groupedRawEvents groups)
    /\ map FeedEvent._raw events = map Some (rawEventsOf groups)
    /\ map FeedEvent._path events
       = map (fun held : Group.t * RawEvent.t =>
                Some (match Group.path (fst held) with
                      | Some p => p
                      | None => []
                      end))
           (groupedRawEvents groups)
    /\ map (fun e => Event.league (FeedEvent.event e)) events
       = map (fun held : Group.t * RawEvent.t =>
                leagueOf (fst held)
                  (match Group.path (fst held) with
                   | Some p => p
                   | None => []
                   end))
           (groupedRawEvents groups).
Proof.
  intros Hall.
  destruct (groupsLoop_normal sport groups Hall []) as (events & Hp & Hf).
  exists events. split; [exact Hp|]. split; [exact Hf|].
  rewrite <- rawEventsOf_grouped, map_map.
  clear Hp Hall.
  induction Hf as [|e [g raw] es helds He Hf IH];
    [split; [|split]; reflexivity|].
  destruct IH as (IH1 & IH2 & IH3).
  cbn [map fst snd] in *. rewrite IH1, IH2, IH3.
  unfold feedEvent in He.
  destruct (isoStartTime newDate toISOString (RawEvent.startTime raw));
    [|discriminate].
  injection He as <-. split; [|split]; reflexivity.
Qed.

Lemma formatTimestamp_nonempty (d : JsDate) : formatTimestamp d <> [].
Proof.
  destruct d as [|y mo da h mi]; [discriminate|].
  unfold formatTimestamp. cbn [getFullYear getMonth getDate option_map].
  intros H. apply app_eq_nil in H. destruct H as [_ H].
  apply app_eq_nil in H. destruct H as [H _].
  unfold padStart in H. apply app_eq_nil in H. destruct H as [H1 H2].
  rewrite H2 in H1. discriminate.
Qed.

(** X24. The URL of a provider event that has no link of its own is
    made of the provider's path and of the start time alone: the event
    slug is computed from the raw event, in which the provider names the
    two sides under [competitors], not under [participant1] and
    [participant2], so that it is empty or a hyphen followed by the
    timestamp, and no name of a competitor enters the URL. *)
Theorem provider_event_url_without_names (sport : jsstring) (group : Group.t)
    (pathInfo : list PathPart.t) (raw : RawEvent.t) (e : FeedEvent.t) :
  feedEvent newDate toISOString sport group pathInfo raw = Normal e ->
  truthy (RawEvent.link raw) = false ->
  RawEvent.participant1 raw = None ->
  RawEvent.participant2 raw = None ->
  buildBovadaUrl toLowerCase normalizeNFD newDate e
  = (BOVADA_BASE_URL ++ lit "/sports/"
     ++ join (lit "/")
          (map (fun p => if truthy (PathPart.link p)
                         then match PathPart.link p with
                              | Some l => l
                              | None => []
                              end
                         else slugify toLowerCase normalizeNFD
                                (PathPart.description p))
             pathInfo)
     ++ lit "/"
     ++ (if truthyTime (RawEvent.startTime raw)
         then match RawEvent.startTime raw with
              | Some t => lit "-" ++ formatTimestamp (newDate t)
              | None => []
              end
         else []))%list.
Proof.
  intros He Hl H1 H2. unfold feedEvent in He.
  destruct (isoStartTime newDate toISOString (RawEvent.startTime raw));
    [|discriminate].
  injection He as <-.
  unfold buildBovadaUrl. cbn [FeedEvent.link FeedEvent._raw FeedEvent._path].
  destruct (RawEvent.link raw) as [[|c l]|] eqn:El; [|discriminate|];
    unfold constructUrlFromPath; rewrite El; cbn [truthy];
    unfold createEventSlug, participantsSlug;
    cbn [participant1 participant2 startTime RawEvent_SlugSource];
    rewrite H1, H2; cbn [filterBoolean map join];
    (destruct (truthyTime (RawEvent.startTime raw)); [|reflexivity];
     destruct (RawEvent.startTime raw) as [t|]; [|reflexivity];
     pose proof (formatTimestamp_nonempty (newDate t)) as Hne;
     destruct (formatTimestamp (newDate t)); [congruence|reflexivity]).
Qed.


Lemma fetchSport_frame (web : Web) (sport : jsstring) (log : list Target) :
  fetchSport toLowerCase newDate toISOString web sport log
  = (fst (fetchSport toLowerCase newDate toISOString web sport []),
     (log ++ snd (fetchSport toLowerCase newDate toISOString web sport []))%list).
Proof.
  unfold fetchSport.
  destruct (sportPaths (toLowerCase sport));
    cbn [fst snd app]; rewrite ?app_nil_r; reflexivity.
Qed.

Lemma fetchSports_frame (web : Web) (sports : list jsstring)
    (log : list Target) :
  fetchSports toLowerCase newDate toISOString web sports log
  = (map (fun s => fst (fetchSport toLowerCase newDate toISOString web s []))
       sports,
     (log ++ flat_map
               (fun s => snd (fetchSport toLowerCase newDate toISOString web s []))
               sports)%list).
Proof.
  revert log; induction sports as [|s rest IH]; intros log; cbn [fetchSports].
  - cbn. rewrite app_nil_r. reflexivity.
  - rewrite (fetchSport_frame web s log), IH. cbn [map flat_map].
    rewrite <- app_assoc. reflexivity.
Qed.

(** X25. Without a sport, the pages of all seven sports are fetched, in
    the order of the keys of [sportPaths], each at most once whatever
    becomes of the others; the events returned are those that each sport
    gives when fetched alone, one sport after the other. *)
Theorem all_sports_fetched_independently (web : Web) (sport : option jsstring)
    (log : list Target) :
  truthy sport = false ->
  fetchFromBovadaDirect toLowerCase newDate toISOString web sport log
  = (flat_map
       (fun s => fst (fetchSport toLowerCase newDate toISOString web s []))
       allSports,
     (log ++ flat_map
               (fun s => snd (fetchSport toLowerCase newDate toISOString web s []))
               allSports)%list)
  /\ (forall s,
        List.length (snd (fetchSport toLowerCase newDate toISOString web s []))
        <= 1)%nat.
Proof.
  intros Hs. split.
  - unfold fetchFromBovadaDirect.
    destruct sport as [[|c s]|]; try discriminate;
      rewrite fetchSports_frame, flat_map_concat_map; reflexivity.
  - intros s. unfold fetchSport.
    destruct (sportPaths (toLowerCase s)); cbn; auto.
Qed.

(** X26. From the provider to the cache: without a key of the Odds API
    and without an entry in the cache, one event of the provider's
    answer whose start time is not a valid date makes the feed return
    the mock events, and store them for the next five minutes, although
    the provider answered. *)
Theorem invalid_start_time_serves_mock_events (web : Web)
    (mock : option jsstring -> list FeedEvent.t)
    (odds : option jsstring -> list FeedEvent.t)
    (key : option jsstring) (c : N) (s path : jsstring)
    (groups : list Group.t) (event : RawEvent.t) (t : TimeValue)
    (checkTime storeTime : Z) (st : FeedState FeedEvent.t) :
  let sport := Some (c :: s) in
  let sources :=
    {| fromOddsAPI := odds;
       fromBovadaDirect :=
         fun sport =>
           fst (fetchFromBovadaDirect toLowerCase newDate toISOString web
                  sport []);
       fromMockEvents := mock |} in
  truthy key = false ->
  JsMap.get (cacheKeyOf sport) (eventCache st) = None ->
  sportPaths (toLowerCase (c :: s)) = OwnPath path ->
  web (SportPage path) = Body (Groups groups) ->
  In event (rawEventsOf groups) ->
  truthyTime (RawEvent.startTime event) = true ->
  RawEvent.startTime event = Some t ->
  newDate t = InvalidDate ->
  let (events, st') :=
    fetchBovadaEvents sources key sport checkTime storeTime st in
  events = mock sport
  /\ JsMap.get (cacheKeyOf sport) (eventCache st')
     = Some {| cachedEvents := mock sport; cachedAt := storeTime |}.
Proof.
  intros sport sources Hk Hc Hp Hw Hin Ht Hs Hd.
  unfold fetchBovadaEvents. rewrite Hc. unfold refreshEvents.
  rewrite Hk. cbv zeta. change (isEmpty (@nil FeedEvent.t)) with true.
  cbv iota.
  assert (fromBovadaDirect sources sport = []) as Hdirect.
  { cbn [fromBovadaDirect sources]. unfold sport, fetchFromBovadaDirect.
    destruct (fetchSport_invalid_start_time web (c :: s) path groups event t
                [] Hp Hw Hin Ht Hs Hd) as [_ ->].
    reflexivity. }
  rewrite Hdirect. cbn [isEmpty eventCache fromMockEvents sources].
  split; [reflexivity|]. apply MapFacts.get_set_same.
Qed.

End ProviderFacts.

Lemma invalid_start_time_discards_answer_witness :
  fetchSport Latin1.toLowerCase ProviderMock.newDate ProviderMock.toISOString
    (ProviderMock.web
       [ProviderMock.group [ProviderMock.good; ProviderMock.bad]])
    (lit "Tennis") []
  = ([], [SportPage
            (lit "/services/sports/event/coupon/events/A/description/tennis")]).
Proof.
  apply (invalid_start_time_discards_answer Latin1.toLowerCase
           ProviderMock.newDate ProviderMock.toISOString
           (ProviderMock.web
              [ProviderMock.group [ProviderMock.good; ProviderMock.bad]])
           (lit "Tennis")
           (lit "/services/sports/event/coupon/events/A/description/tennis")
           [ProviderMock.group [ProviderMock.good; ProviderMock.bad]]
           ProviderMock.bad (TimeString (lit "soon")) []).
  - reflexivity.
  - reflexivity.
  - right; left; reflexivity.
  - reflexivity.
  - reflexivity.
  - reflexivity.
Defined.

Lemma readable_answer_parsed_in_order_witness :
  exists events,
    parseBovadaResponse ProviderMock.newDate ProviderMock.toISOString
      (Groups [ProviderMock.group [ProviderMock.good];
               ProviderMock.wta [ProviderMock.good]])
      (lit "tennis")
    = Normal events
    /\ map FeedEvent._path events = [Some ProviderMock.atp; Some []]
    /\ map (fun e => Event.league (FeedEvent.event e)) events
       = [Some (lit "ATP"); Some (lit "WTA Austin")].
Proof.
  destruct (readable_answer_parsed_in_order ProviderMock.newDate
              ProviderMock.toISOString (lit "tennis")
              [ProviderMock.group [ProviderMock.good];
               ProviderMock.wta [ProviderMock.good]])
    as (events & Hp & _ & _ & Hpath & Hleague).
  - repeat constructor; intros _ t [= <-]; discriminate.
  - exists events. split; [exact Hp|]. split; [exact Hpath|exact Hleague].
Defined.

Lemma provider_event_url_without_names_witness :
  exists e,
    feedEvent ProviderMock.newDate ProviderMock.toISOString (lit "tennis")
      (ProviderMock.group [ProviderMock.good]) ProviderMock.atp
      ProviderMock.good
    = Normal e
    /\ buildBovadaUrl Latin1.toLowerCase Latin1.normalizeNFD
         ProviderMock.newDate e
       = lit "https://www.bovada.lv/sports/tennis/atp/-202602081100".
Proof.
  eexists. split; [reflexivity|].
  apply (provider_event_url_without_names Latin1.toLowerCase
           Latin1.normalizeNFD ProviderMock.newDate ProviderMock.toISOString
           (lit "tennis") (ProviderMock.group [ProviderMock.good])
           ProviderMock.atp ProviderMock.good);
    reflexivity.
Defined.

Lemma all_sports_fetched_independently_witness :
  List.length
    (snd (fetchFromBovadaDirect Latin1.toLowerCase ProviderMock.newDate
            ProviderMock.toISOString
            (ProviderMock.web [ProviderMock.group [ProviderMock.good]])
            None []))
  = 7%nat.
Proof.
  rewrite (proj1 (all_sports_fetched_independently Latin1.toLowerCase
                    ProviderMock.newDate ProviderMock.toISOString
                    (ProviderMock.web [ProviderMock.group [ProviderMock.good]])
                    None [] eq_refl)).
  reflexivity.
Defined.

Lemma invalid_start_time_serves_mock_events_witness :
  fst (fetchBovadaEvents
         {| fromOddsAPI := fun _ => [];
            fromBovadaDirect :=
              fun sport =>
                fst (fetchFromBovadaDirect Latin1.toLowerCase
                       ProviderMock.newDate ProviderMock.toISOString
                       (ProviderMock.web
                          [ProviderMock.group
                             [ProviderMock.good; ProviderMock.bad]])
                       sport []);
            fromMockEvents := CacheMock.getMockEvents |}
         None (Some (lit "tennis")) 0 0
         {| eventCache := []; consulted := [] |})
  = CacheMock.tennis.
Proof.
  pose proof (invalid_start_time_serves_mock_events Latin1.toLowerCase
                ProviderMock.newDate ProviderMock.toISOString
                (ProviderMock.web
                   [ProviderMock.group [ProviderMock.good; ProviderMock.bad]])
                CacheMock.getMockEvents (fun _ => []) None
                116%N (lit "ennis")
                (lit "/services/sports/event/coupon/events/A/description/tennis")
                [ProviderMock.group [ProviderMock.good; ProviderMock.bad]]
                ProviderMock.bad (TimeString (lit "soon")) 0 0
                {| eventCache := []; consulted := [] |}) as H.
  cbv zeta in H.
  change (Some (116%N :: lit "ennis")) with (Some (lit "tennis")) in H.
  destruct (fetchBovadaEvents _ None (Some (lit "tennis")) 0 0 _)
    as [events st'].
  apply H; try reflexivity. right; left; reflexivity.
Defined.
